(** * Audio-feature pipeline: broker, stage processors and writer

    A shallow embedding of the in-memory pipeline of the repository
    ([mocks/rabbitmq.py], [mocks/algorithm_a.py], [mocks/algorithm_b.py],
    [mocks/data_writer.py], [mocks/sensor.py], [mocks/rest_api.py] and
    [build_pipeline] of [run_mock_server.py]) and the properties of its
    specification.

    Messages are Python dicts with string keys, embedded as [gmap string value];
    exceptions are an explicit [result]; the broker's [asyncio.Queue] objects
    live in a store of queues addressed by reference, so that the aliasing
    between the broker's tables and the handles held by subscribers is kept. *)

From Stdlib Require Import ZArith String Ascii List Lia SpecFloat Sorted.
From stdpp Require Import gmap strings pretty list fin_maps.

Open Scope string_scope.
Open Scope list_scope.
Open Scope Z_scope.

(** ** Python values and exceptions *)

(** The builtin exceptions the modelled code can raise.  [BinasciiError]
    is [binascii.Error], a subclass of [ValueError]. *)
Inductive exn :=
| ValueError | BinasciiError | TypeError | KeyError
| AttributeError | OverflowError.


Inductive result (A : Type) :=
| Ok (a : A)
| Raise (e : exn).
Arguments Ok {A} a.
Arguments Raise {A} e.

#[global] Instance result_ret : MRet result := fun A a => Ok a.
#[global] Instance result_bind : MBind result := fun A B f r =>
  match r with
  | Ok a => f a
  | Raise e => Raise e
  end.

(** JSON-like Python values: the payloads that travel through the broker. *)
#[local] Unset Elimination Schemes.
Inductive value :=
| VNone
| VBool (b : bool)
| VInt (z : Z)
| VFloat (x : spec_float)
| VStr (s : string)
| VList (l : list value)
| VDict (d : gmap string value).
#[local] Set Elimination Schemes.

Abbreviation message := (gmap string value).

(** Python's numbers: [bool] is a subtype of [int]. *)
Inductive num :=
| NInt (z : Z)
| NFloat (x : spec_float).

Definition as_num (v : value) : option num :=
  match v with
  | VBool b => Some (NInt (Z.b2z b))
  | VInt z => Some (NInt z)
  | VFloat x => Some (NFloat x)
  | _ => None
  end.

(** IEEE-754 binary64, the format of a Python [float]. *)
Definition f_prec : Z := 53.
Definition f_emax : Z := 1024.

Definition float_of_Z (z : Z) : spec_float := binary_normalize f_prec f_emax z 0 false.
Definition f_add : spec_float -> spec_float -> spec_float := SFadd f_prec f_emax.
Definition f_mul : spec_float -> spec_float -> spec_float := SFmul f_prec f_emax.
Definition f_div : spec_float -> spec_float -> spec_float := SFdiv f_prec f_emax.

(** A decimal literal [n / 10^k] such as [0.05]: the nearest binary64. *)
Definition f_lit (n : Z) (d : Z) : spec_float := f_div (float_of_Z n) (float_of_Z d).

Definition f_is_zero (x : spec_float) : bool :=
  match x with
  | S754_zero _ => true
  | _ => false
  end.

Definition f_is_finite (x : spec_float) : bool :=
  match x with
  | S754_zero _ | S754_finite _ _ _ => true
  | _ => false
  end.

(** [float(n)] for an [int] or a [float]. *)
Definition num_to_float (n : num) : spec_float :=
  match n with
  | NInt z => float_of_Z z
  | NFloat x => x
  end.

(** [x == z] for a float [x] and an int [z]: Python compares exactly. *)
Definition f_eq_Z (x : spec_float) (z : Z) : bool :=
  match x with
  | S754_zero _ => Z.eqb z 0
  | S754_finite s m e =>
      let sm := if s then Z.neg m else Z.pos m in
      if Z.leb 0 e then Z.eqb z (sm * 2 ^ e)
      else Z.eqb (sm mod 2 ^ (- e)) 0 && Z.eqb z (sm / 2 ^ (- e))
  | _ => false
  end.

Definition num_eq (a b : num) : bool :=
  match a, b with
  | NInt x, NInt y => Z.eqb x y
  | NFloat x, NFloat y => SFeqb x y
  | NInt z, NFloat x | NFloat x, NInt z => f_eq_Z x z
  end.

(** [a == b] on values.  Containers compare element-wise; the identity
    shortcut CPython takes inside containers has no counterpart here. *)
Fixpoint py_eq (a b : value) : bool :=
  match a, b with
  | VNone, VNone => true
  | VStr s, VStr t => bool_decide (s = t)
  | VList l1, VList l2 =>
      (fix go (l1 l2 : list value) : bool :=
         match l1, l2 with
         | [], [] => true
         | x :: xs, y :: ys => py_eq x y && go xs ys
         | _, _ => false
         end) l1 l2
  | VDict d1, VDict d2 =>
      Nat.eqb (size d1) (size d2) &&
      map_fold (fun k v acc =>
                  acc && match d2 !! k with
                         | Some v' => py_eq v v'
                         | None => false
                         end) true d1
  | (VBool _ | VInt _ | VFloat _), (VBool _ | VInt _ | VFloat _) =>
      match as_num a, as_num b with
      | Some x, Some y => num_eq x y
      | _, _ => false
      end
  | _, _ => false
  end.

(** [bool(v)] *)
Definition py_truthy (v : value) : bool :=
  match v with
  | VNone => false
  | VBool b => b
  | VInt z => negb (Z.eqb z 0)
  | VFloat x => negb (f_is_zero x)
  | VStr s => negb (bool_decide (s = ""))
  | VList l => negb (Nat.eqb (length l) 0)
  | VDict d => negb (Nat.eqb (size d) 0)
  end.

(** [d[k]] on a dict: raises [KeyError] when the key is absent. *)
Definition getitem (d : message) (k : string) : result value :=
  match d !! k with
  | Some v => Ok v
  | None => Raise KeyError
  end.

(** [d.get(k)]: [None] when the key is absent. *)
Definition dict_get (d : message) (k : string) : value :=
  default VNone (d !! k).

(** [d.get(k, dflt)] *)
Definition dict_get_default (d : message) (k : string) (dflt : value) : value :=
  default dflt (d !! k).

(** [v >= s] and [v <= s] against a string: strings compare
    lexicographically, any other left operand raises [TypeError]. *)
Definition py_ge_str (v : value) (s : string) : result bool :=
  match v with
  | VStr t => Ok (String.leb s t)
  | _ => Raise TypeError
  end.

Definition py_le_str (v : value) (s : string) : result bool :=
  match v with
  | VStr t => Ok (String.leb t s)
  | _ => Raise TypeError
  end.

(** A list comprehension [[r for r in l if p(r)]] whose condition can raise. *)
Fixpoint filter_r {A} (p : A -> result bool) (l : list A) : result (list A) :=
  match l with
  | [] => Ok []
  | x :: xs =>
      b ← p x;
      rest ← filter_r p xs;
      Ok (if b : bool then x :: rest else rest)
  end.

Definition has_key (d : message) (k : string) : bool :=
  match d !! k with
  | Some _ => true
  | None => false
  end.

(** [int(x)] for a float: truncation toward zero; [nan] raises
    [ValueError], an infinity raises [OverflowError]. *)
Definition int_of_float (x : spec_float) : result Z :=
  match x with
  | S754_zero _ => Ok 0
  | S754_finite s m e =>
      let v := if Z.leb 0 e then Z.pos m * 2 ^ e else Z.pos m / 2 ^ (- e) in
      Ok (if s then - v else v)
  | S754_nan => Raise ValueError
  | S754_infinity _ => Raise OverflowError
  end.

(** [float(z)] for an int: [OverflowError] beyond the binary64 range. *)
Definition float_of_int (z : Z) : result spec_float :=
  let x := float_of_Z z in
  if f_is_finite x then Ok x else Raise OverflowError.

Definition float_of_num (n : num) : result spec_float :=
  match n with
  | NInt z => float_of_int z
  | NFloat x => Ok x
  end.

(** [a / b] on two ints with [b] positive: the quotient is rounded once,
    to the nearest binary64 (ties to even), whatever the size of the
    operands; [OverflowError] when it is beyond the binary64 range. *)
Definition int_truediv (a : Z) (b : positive) : result spec_float :=
  let rounded (s : bool) (m : positive) :=
    let '(q, e, l) := SFdiv_core_binary f_prec f_emax (Z.pos m) 0 (Z.pos b) 0 in
    binary_round_aux f_prec f_emax s q e l in
  match a with
  | Z0 => Ok (S754_zero false)
  | Z.pos m => let x := rounded false m in if f_is_finite x then Ok x else Raise OverflowError
  | Z.neg m => let x := rounded true m in if f_is_finite x then Ok x else Raise OverflowError
  end.

(** [a * b], [a + b] on numbers: exact on ints, binary64 otherwise. *)
Definition num_mul (a b : num) : result num :=
  match a, b with
  | NInt x, NInt y => Ok (NInt (x * y))
  | _, _ => x ← float_of_num a; y ← float_of_num b; Ok (NFloat (f_mul x y))
  end.

Definition num_abs (a : num) : num :=
  match a with
  | NInt z => NInt (Z.abs z)
  | NFloat x => NFloat (SFabs x)
  end.

(** [int(a)] *)
Definition int_of_num (a : num) : result Z :=
  match a with
  | NInt z => Ok z
  | NFloat x => int_of_float x
  end.

(** [s.replace("Z", "+00:00")] *)
Fixpoint replace_Z (s : string) : string :=
  match s with
  | EmptyString => EmptyString
  | String c rest =>
      if Ascii.eqb c "Z"%char then "+00:00" +:+ replace_Z rest
      else String c (replace_Z rest)
  end.

Close Scope Z_scope.

(** ** The Python runtime the pipeline calls into

    Library functions whose result the pipeline only passes on: the
    base64 decoder, the ISO-8601 parser, the UUID generator, the clock
    and the floating-point functions of [math] and [round].  Summation of
    floats is a library function too ([sum] changed its rounding between
    Python versions).  The [n]-th draw of the generator and of the clock
    is indexed by the number of draws made before it. *)
Class PyRuntime := {
  (** [base64.b64decode(s)]: the bytes, or the exception it raises. *)
  b64decode : string -> result (list Z);
  (** whether [datetime.fromisoformat(s)] returns (it raises [ValueError] otherwise). *)
  fromisoformat_ok : string -> bool;
  (** [str(uuid.uuid4())] *)
  uuid4 : nat -> string;
  (** [datetime.now(timezone.utc).isoformat()] *)
  utcnow_isoformat : nat -> string;
  math_sin : spec_float -> spec_float;
  math_tanh : spec_float -> spec_float;
  (** [round(x, ndigits)] on a float. *)
  round_float : spec_float -> Z -> spec_float;
  (** [sum(l)] when [l] holds at least one float. *)
  float_sum : list num -> spec_float
}.

(** ** [mocks/rabbitmq.py] *)
Module rabbitmq.

Definition AUDIO_STREAM : string := "audio_stream".
Definition FEATURES_A : string := "features_a".
Definition FEATURES_B : string := "features_b".

(** The broker's two tables hold references to [asyncio.Queue] objects;
    [heap] is the store of those objects (a queue is the list of its pending
    items, head first).  A subscriber's handle is a reference into [heap],
    and stays valid whatever happens to the tables. *)
Record InMemoryBroker := mkBroker {
  heap : list (list message);
  _work_queues : gmap string nat;
  _fanout : gmap string (list nat)
}.

(** [InMemoryBroker()] *)
Definition new_broker : InMemoryBroker :=
  {| heap := []; _work_queues := ∅; _fanout := ∅ |}.

(** [q.put_nowait(m)]: the queues are unbounded, so this never raises. *)
Definition put_nowait (r : nat) (m : message) (h : list (list message)) : list (list message) :=
  alter (fun q => q ++ [m]) r h.

(** [q.get_nowait()]: [None] stands for [asyncio.QueueEmpty]. *)
Definition get_nowait (r : nat) (h : list (list message)) : list (list message) * option message :=
  match h !! r with
  | Some (m :: rest) => (<[r := rest]> h, Some m)
  | _ => (h, None)
  end.

(** [q.qsize()] *)
Definition qsize (r : nat) (h : list (list message)) : nat :=
  length (default [] (h !! r)).

(** [if queue_name not in self._work_queues:
        self._work_queues[queue_name] = asyncio.Queue()] *)
Definition ensure_work_queue (b : InMemoryBroker) (queue_name : string) : InMemoryBroker :=
  match _work_queues b !! queue_name with
  | Some _ => b
  | None => {| heap := heap b ++ [[]];
               _work_queues := <[queue_name := length (heap b)]> (_work_queues b);
               _fanout := _fanout b |}
  end.

(** [publish_work]: the queue is in the table once it has been ensured,
    so the subscript [self._work_queues[queue_name]] never fails. *)
Definition publish_work (b : InMemoryBroker) (queue_name : string) (m : message) : InMemoryBroker :=
  let b1 := ensure_work_queue b queue_name in
  match _work_queues b1 !! queue_name with
  | Some r => {| heap := put_nowait r m (heap b1);
                 _work_queues := _work_queues b1;
                 _fanout := _fanout b1 |}
  | None => b1
  end.

(** [timeout > 0] *)
Definition num_pos (t : num) : bool :=
  match t with
  | NInt z => Z.ltb 0 z
  | NFloat x => SFltb (S754_zero false) x
  end.

(** [consume_work]: with [timeout > 0] the call waits on [q.get()]; no other
    task runs inside one call of this sequential model, so the wait ends
    with the head item when there is one and with the timeout otherwise.
    Both [QueueEmpty] and [TimeoutError] are caught and give [None]. *)
Definition consume_work (b : InMemoryBroker) (queue_name : string) (timeout : num)
  : InMemoryBroker * option message :=
  let b1 := ensure_work_queue b queue_name in
  match _work_queues b1 !! queue_name with
  | Some r =>
      let '(h, res) := if num_pos timeout then get_nowait r (heap b1)
                       else get_nowait r (heap b1) in
      ({| heap := h; _work_queues := _work_queues b1; _fanout := _fanout b1 |}, res)
  | None => (b1, None)
  end.

Definition work_queue_depth (b : InMemoryBroker) (queue_name : string) : nat :=
  match _work_queues b !! queue_name with
  | None => 0
  | Some r => qsize r (heap b)
  end.

(** Returns the new broker state and the reference of the fresh inbox. *)
Definition subscribe_fanout (b : InMemoryBroker) (topic : string) : InMemoryBroker * nat :=
  let subscriber_queue := length (heap b) in
  ({| heap := heap b ++ [[]];
      _work_queues := _work_queues b;
      _fanout := <[topic := default [] (_fanout b !! topic) ++ [subscriber_queue]]> (_fanout b) |},
   subscriber_queue).

Definition publish_fanout (b : InMemoryBroker) (topic : string) (m : message) : InMemoryBroker :=
  let subscribers := default [] (_fanout b !! topic) in
  {| heap := fold_left (fun h q => put_nowait q m h) subscribers (heap b);
     _work_queues := _work_queues b;
     _fanout := _fanout b |}.

Definition fanout_subscriber_count (b : InMemoryBroker) (topic : string) : nat :=
  length (default [] (_fanout b !! topic)).

(** [self._work_queues = {}; self._fanout = {}]: the tables are replaced,
    the queue objects themselves are not touched. *)
Definition purge_all (b : InMemoryBroker) : InMemoryBroker :=
  {| heap := heap b; _work_queues := ∅; _fanout := ∅ |}.

End rabbitmq.

(** ** [mocks/data_writer.py] *)
Module data_writer.
Import rabbitmq.

Record DataWriter := mkWriter {
  _inbox_a : nat;
  _inbox_b : nat;
  db : list message
}.

(** [DataWriter(broker)] subscribes to both feature topics. *)
Definition new_writer (b : InMemoryBroker) : InMemoryBroker * DataWriter :=
  let '(b1, qa) := subscribe_fanout b FEATURES_A in
  let '(b2, qb) := subscribe_fanout b1 FEATURES_B in
  (b2, {| _inbox_a := qa; _inbox_b := qb; db := [] |}).

(** [any(r["message_id"] == message["message_id"] for r in self.db)]:
    both subscripts are evaluated for each record, left first, and the
    scan stops at the first match. *)
Fixpoint any_same_id (rs : list message) (m : message) : result bool :=
  match rs with
  | [] => Ok false
  | r :: rest =>
      x ← getitem r "message_id";
      y ← getitem m "message_id";
      if py_eq x y then Ok true else any_same_id rest m
  end.

(** [_write]: the arguments of both [logger.debug] calls are evaluated, so
    [message["message_id"]] can still raise after the append. *)
Definition _write (w : DataWriter) (m : message) : DataWriter * result bool :=
  match any_same_id (db w) m with
  | Raise e => (w, Raise e)
  | Ok true => (w, _ ← getitem m "message_id"; Ok false)
  | Ok false =>
      ({| _inbox_a := _inbox_a w; _inbox_b := _inbox_b w; db := db w ++ [m] |},
       _ ← getitem m "message_id"; Ok true)
  end.

(** The [while True] loop of [flush] on one inbox: [get_nowait] until
    [QueueEmpty] ends it.  Only [QueueEmpty] is caught, so an exception of
    [_write] leaves the loop and the call, after the message was taken.
    The loop is run with [fuel] iterations; [None] means the fuel ran out. *)
Fixpoint flush_inbox (fuel : nat) (inbox : nat) (h : list (list message)) (w : DataWriter)
    (written : nat) : option (list (list message) * DataWriter * result nat) :=
  match fuel with
  | O => None
  | S fuel' =>
      match get_nowait inbox h with
      | (h1, None) => Some (h1, w, Ok written)
      | (h1, Some msg) =>
          match _write w msg with
          | (w1, Raise e) => Some (h1, w1, Raise e)
          | (w1, Ok true) => flush_inbox fuel' inbox h1 w1 (S written)
          | (w1, Ok false) => flush_inbox fuel' inbox h1 w1 written
          end
      end
  end.

(** [flush]: [for inbox in (self._inbox_a, self._inbox_b)], one iteration
    for each pending message and one to see the inbox empty. *)
Definition flush (b : InMemoryBroker) (w : DataWriter)
  : option (InMemoryBroker * DataWriter * result nat) :=
  let with_heap h := {| heap := h; _work_queues := _work_queues b; _fanout := _fanout b |} in
  match flush_inbox (S (qsize (_inbox_a w) (heap b))) (_inbox_a w) (heap b) w 0 with
  | None => None
  | Some (h1, w1, Raise e) => Some (with_heap h1, w1, Raise e)
  | Some (h1, w1, Ok written) =>
      match flush_inbox (S (qsize (_inbox_b w) h1)) (_inbox_b w) h1 w1 written with
      | None => None
      | Some (h2, w2, r) => Some (with_heap h2, w2, r)
      end
  end.

(** [if arg:] on an [Optional[str]]: [None] and [""] both skip the filter. *)
Definition supplied (arg : option string) : option string :=
  match arg with
  | Some s => if bool_decide (s = "") then None else Some s
  | None => None
  end.

Definition query (w : DataWriter) (feature_type sensor_id start end_ : option string)
  : result (list message) :=
  let results := db w in
  let results :=
    match supplied feature_type with
    | Some ft => List.filter (fun r => py_eq (dict_get r "feature_type") (VStr ft)) results
    | None => results
    end in
  let results :=
    match supplied sensor_id with
    | Some sid => List.filter (fun r => py_eq (dict_get r "sensor_id") (VStr sid)) results
    | None => results
    end in
  results ←
    match supplied start with
    | Some lo => filter_r (fun r => py_ge_str (dict_get_default r "timestamp" (VStr "")) lo) results
    | None => Ok results
    end;
  results ←
    match supplied end_ with
    | Some hi => filter_r (fun r => py_le_str (dict_get_default r "timestamp" (VStr "")) hi) results
    | None => Ok results
    end;
  Ok results.

End data_writer.

(** ** The objects a stage can see

    One broker shared by every component, the writer, and the number of
    draws made so far from the UUID generator and the clock. *)
Record system := mkSystem {
  broker : rabbitmq.InMemoryBroker;
  writer : data_writer.DataWriter;
  draws : nat
}.

Definition set_broker (st : system) (b : rabbitmq.InMemoryBroker) : system :=
  {| broker := b; writer := writer st; draws := draws st |}.

(** [missing = _REQUIRED_FIELDS - set(message.keys())] *)
Definition missing_fields (required : list string) (m : message) : list string :=
  List.filter (fun k => negb (has_key m k)) required.

(** ** [mocks/algorithm_a.py] *)
Module algorithm_a.
Import rabbitmq.

Definition _REQUIRED_FIELDS : list string :=
  ["message_id"; "sensor_id"; "timestamp"; "audio_data"].

Record AlgorithmA := mkAlgorithmA { processed_count : nat }.

(** [AlgorithmA(broker)] *)
Definition new_algorithm : AlgorithmA := {| processed_count := 0 |}.

Section with_runtime.
Context `{!PyRuntime}.

(** [datetime.fromisoformat(ts.replace("Z", "+00:00"))] inside
    [try ... except (ValueError, AttributeError)]: a value without a
    [replace] method ends in the same [ValueError] as an unparsable string. *)
Definition timestamp_ok (ts : value) : bool :=
  match ts with
  | VStr s => fromisoformat_ok (replace_Z s)
  | _ => false
  end.

Definition _validate (m : message) : result unit :=
  match missing_fields _REQUIRED_FIELDS m with
  | _ :: _ => Raise ValueError
  | [] =>
      audio_data ← getitem m "audio_data";
      if negb (py_truthy audio_data) then Raise ValueError
      else
        ts ← getitem m "timestamp";
        if timestamp_ok ts then Ok tt else Raise ValueError
  end.

(** [audio_data + "=="]: only a string can be concatenated with a string. *)
Definition _extract_features (audio_data : value) : result value :=
  s ← match audio_data with
      | VStr s => Ok s
      | _ => Raise TypeError
      end;
  raw ← b64decode (s +:+ "==");
  let seed := (fold_left Z.add raw 0 mod 1000)%Z in
  Ok (VDict {[
    "mfcc" := VList (map (fun i => VFloat (round_float
                            (f_mul (math_sin (float_of_Z (seed + i))) (float_of_Z 10)) 4))
                         (seqZ 0 13));
    "spectral_centroid" :=
      VFloat (round_float (f_add (float_of_Z 440) (float_of_Z seed)) 2);
    "zero_crossing_rate" :=
      VFloat (round_float (f_add (f_lit 5 100)
                             (f_div (float_of_Z (seed mod 50)) (float_of_Z 1000))) 4);
    "rms_energy" :=
      VFloat (round_float (f_add (f_lit 1 10)
                             (f_div (float_of_Z (seed mod 100)) (float_of_Z 1000))) 4)
  ]}).

(** [process]: the dict display is evaluated left to right, so the
    identifier and the clock are drawn before the features are computed. *)
Definition process (st : system) (m : message) : system * result message :=
  match _validate m with
  | Raise e => (st, Raise e)
  | Ok _ =>
      let n := draws st in
      ({| broker := broker st; writer := writer st; draws := S n |},
       source ← getitem m "message_id";
       sensor ← getitem m "sensor_id";
       ts ← getitem m "timestamp";
       audio_data ← getitem m "audio_data";
       features ← _extract_features audio_data;
       Ok ({[ "message_id" := VStr (uuid4 n);
              "source_message_id" := source;
              "feature_type" := VStr "A";
              "sensor_id" := sensor;
              "timestamp" := ts;
              "processed_at" := VStr (utcnow_isoformat n);
              "features" := features ]} : message))
  end.

Definition process_one (self : AlgorithmA) (st : system)
  : AlgorithmA * system * result (option message) :=
  let '(b1, consumed) := consume_work (broker st) AUDIO_STREAM (NInt 0) in
  let st1 := set_broker st b1 in
  match consumed with
  | None => (self, st1, Ok None)
  | Some m =>
      let '(st2, r) := process st1 m in
      match r with
      | Raise e => (self, st2, Raise e)
      | Ok feature_a =>
          let st3 := set_broker st2 (publish_fanout (broker st2) FEATURES_A feature_a) in
          let self' := {| processed_count := S (processed_count self) |} in
          (self', st3,
           _ ← getitem m "message_id";
           _ ← getitem feature_a "message_id";
           _ ← getitem feature_a "sensor_id";
           Ok (Some feature_a))
      end
  end.

(** [while await self.process_one() is not None: count += 1].  The loop is
    run with [fuel] iterations; [None] means the fuel ran out. *)
Fixpoint process_all_loop (fuel : nat) (self : AlgorithmA) (st : system) (count : nat)
  : option (AlgorithmA * system * result nat) :=
  match fuel with
  | O => None
  | S fuel' =>
      let '(self', st', r) := process_one self st in
      match r with
      | Raise e => Some (self', st', Raise e)
      | Ok None => Some (self', st', Ok count)
      | Ok (Some _) => process_all_loop fuel' self' st' (S count)
      end
  end.

(** One iteration for each pending message and one to see the queue empty. *)
Definition process_all (self : AlgorithmA) (st : system)
  : option (AlgorithmA * system * result nat) :=
  process_all_loop (S (work_queue_depth (broker st) AUDIO_STREAM)) self st 0.

End with_runtime.
End algorithm_a.

(** ** [mocks/algorithm_b.py] *)
Module algorithm_b.
Import rabbitmq.

Definition _REQUIRED_FIELDS : list string :=
  ["message_id"; "sensor_id"; "timestamp"; "feature_type"; "features"].

Definition _CLASSIFICATIONS : list string :=
  ["speech"; "music"; "noise"; "silence"; "mixed"].

Record AlgorithmB := mkAlgorithmB {
  _inbox : nat;
  processed_count : nat
}.

(** [AlgorithmB(broker)] subscribes to [features_a] at construction. *)
Definition new_algorithm (b : InMemoryBroker) : InMemoryBroker * AlgorithmB :=
  let '(b1, q) := subscribe_fanout b FEATURES_A in
  (b1, {| _inbox := q; processed_count := 0 |}).

Definition _validate (m : message) : result unit :=
  match missing_fields _REQUIRED_FIELDS m with
  | _ :: _ => Raise ValueError
  | [] =>
      if negb (py_eq (dict_get m "feature_type") (VStr "A")) then Raise TypeError
      else Ok tt
  end.

Section with_runtime.
Context `{!PyRuntime}.

(** The scan of [sum(l)] from the start value [0], item by item.  The
    total is an exact int ([Some total]) until the first float; from then
    on it is a float ([None]).  An int operand of a float addition is
    converted first, which raises [OverflowError] beyond the binary64 range:
    the int total at the first float, and every int item after it.  An item
    that is no number raises [TypeError] where the scan reaches it. *)
Fixpoint sum_scan (acc : option Z) (l : list value) : result (option Z) :=
  match l with
  | [] => Ok acc
  | v :: rest =>
      match as_num v with
      | None => Raise TypeError
      | Some (NInt z) =>
          match acc with
          | Some total => sum_scan (Some (total + z)%Z) rest
          | None => _ ← float_of_int z; sum_scan None rest
          end
      | Some (NFloat _) =>
          match acc with
          | Some total => _ ← float_of_int total; sum_scan None rest
          | None => sum_scan None rest
          end
      end
  end.

(** [sum(l)]: the exact int total, or the float the library's summation
    gives when the list holds a float. *)
Definition py_sum (l : list value) : result num :=
  phase ← sum_scan (Some 0%Z) l;
  match phase with
  | Some total => Ok (NInt total)
  | None => Ok (NFloat (float_sum (omap as_num l)))
  end.

(** [sum(mfcc) / len(mfcc) if mfcc else 0]: only a list can be summed
    (iterating a non-empty string or dict adds a string to [0]).  An int
    total is divided by the length as an int, with one rounding; a float
    total by the length converted to a float.  The list is not empty
    where its length divides. *)
Definition mean_of (mfcc : value) : result num :=
  if py_truthy mfcc then
    match mfcc with
    | VList l =>
        total ← py_sum l;
        match total with
        | NInt z => x ← int_truediv z (Pos.of_nat (length l)); Ok (NFloat x)
        | NFloat x => Ok (NFloat (f_div x (float_of_Z (Z.of_nat (length l)))))
        end
    | _ => Raise TypeError
    end
  else Ok (NInt 0).

(** An operand of [*] or [+] next to a number: anything that is no number
    ends in [TypeError] (at the operator, or at the [abs] that follows). *)
Definition number (v : value) : result num :=
  match as_num v with
  | Some n => Ok n
  | None => Raise TypeError
  end.

(** [round(n, ndigits)]: an int comes back unchanged. *)
Definition py_round (n : num) (ndigits : Z) : value :=
  match n with
  | NInt z => VInt z
  | NFloat x => VFloat (round_float x ndigits)
  end.

(** [min(a, x)] on floats: [x] when [x < a], else [a]. *)
Definition f_min (a x : spec_float) : spec_float :=
  if SFltb x a then x else a.

(** [_derive_features]: [class_index] is below [len(_CLASSIFICATIONS)], so
    the subscript of [_CLASSIFICATIONS] never fails. *)
Definition _derive_features (feature_a : message) : result value :=
  features ← getitem feature_a "features";
  d ← match features with
      | VDict d => Ok d
      | _ => Raise AttributeError
      end;
  let mfcc := dict_get_default d "mfcc" (VList [VInt 0]) in
  let centroid := dict_get_default d "spectral_centroid" (VFloat (float_of_Z 440)) in
  let energy := dict_get_default d "rms_energy" (VFloat (f_lit 1 10)) in
  mfcc_mean ← mean_of mfcc;
  c ← number centroid;
  product ← num_mul mfcc_mean c;
  magnitude ← int_of_num (num_abs product);
  let class_index := Z.to_nat (magnitude mod Z.of_nat (length _CLASSIFICATIONS)) in
  classification ← match _CLASSIFICATIONS !! class_index with
                   | Some name => Ok name
                   | None => Raise KeyError
                   end;
  mean_f ← float_of_num mfcc_mean;
  e ← number energy;
  e_f ← float_of_num e;
  let confidence :=
    round_float (f_min (f_lit 99 100) (f_add (SFabs (math_tanh mean_f)) e_f)) 4 in
  tenth_c ← num_mul c (NFloat (f_lit 1 10));
  ten_e ← num_mul e (NInt 10);
  Ok (VDict {[
    "classification" := VStr classification;
    "confidence" := VFloat confidence;
    "derived_metrics" := VDict {[
      "mfcc_mean" := py_round mfcc_mean 4;
      "spectral_spread" := py_round tenth_c 2;
      "activity_score" := py_round ten_e 4 ]} ]}).

Definition process (st : system) (m : message) : system * result message :=
  match _validate m with
  | Raise e => (st, Raise e)
  | Ok _ =>
      let n := draws st in
      ({| broker := broker st; writer := writer st; draws := S n |},
       source ← getitem m "message_id";
       sensor ← getitem m "sensor_id";
       ts ← getitem m "timestamp";
       features ← _derive_features m;
       Ok ({[ "message_id" := VStr (uuid4 n);
              "source_message_id" := source;
              "feature_type" := VStr "B";
              "sensor_id" := sensor;
              "timestamp" := ts;
              "processed_at" := VStr (utcnow_isoformat n);
              "features" := features ]} : message))
  end.

(** [self._inbox.get_nowait()]; [QueueEmpty] gives [None]. *)
Definition process_one (self : AlgorithmB) (st : system)
  : AlgorithmB * system * result (option message) :=
  let '(h, taken) := get_nowait (_inbox self) (heap (broker st)) in
  let st1 := set_broker st {| heap := h;
                              _work_queues := _work_queues (broker st);
                              _fanout := _fanout (broker st) |} in
  match taken with
  | None => (self, st1, Ok None)
  | Some m =>
      let '(st2, r) := process st1 m in
      match r with
      | Raise e => (self, st2, Raise e)
      | Ok feature_b =>
          let st3 := set_broker st2 (publish_fanout (broker st2) FEATURES_B feature_b) in
          let self' := {| _inbox := _inbox self;
                          processed_count := S (processed_count self) |} in
          (self', st3,
           _ ← getitem m "message_id";
           _ ← getitem feature_b "message_id";
           features ← getitem feature_b "features";
           _ ← match features with
               | VDict d => getitem d "classification"
               | _ => Raise TypeError
               end;
           Ok (Some feature_b))
      end
  end.

Fixpoint process_all_loop (fuel : nat) (self : AlgorithmB) (st : system) (count : nat)
  : option (AlgorithmB * system * result nat) :=
  match fuel with
  | O => None
  | S fuel' =>
      let '(self', st', r) := process_one self st in
      match r with
      | Raise e => Some (self', st', Raise e)
      | Ok None => Some (self', st', Ok count)
      | Ok (Some _) => process_all_loop fuel' self' st' (S count)
      end
  end.

Definition process_all (self : AlgorithmB) (st : system)
  : option (AlgorithmB * system * result nat) :=
  process_all_loop (S (qsize (_inbox self) (heap (broker st)))) self st 0.

End with_runtime.
End algorithm_b.

(** ** [mocks/sensor.py] *)
Module sensor.
Import rabbitmq.

(** The library calls of the sensor: the two other forms of a fresh UUID
    and the base64 encoder.  A draw is indexed as in [PyRuntime]. *)
Class SensorRuntime := {
  (** [uuid.uuid4().hex] *)
  uuid4_hex : nat -> string;
  (** [uuid.uuid4().bytes] *)
  uuid4_bytes : nat -> list Z;
  (** [base64.b64encode(bs).decode()] *)
  b64encode : list Z -> string
}.

Record Sensor := mkSensor { sensor_id : string }.

(** [b"SYNTHETIC_AUDIO_"] *)
Definition SYNTHETIC_PREFIX : list Z :=
  map (fun c => Z.of_N (N_of_ascii c)) (list_ascii_of_string "SYNTHETIC_AUDIO_").

Section with_runtime.
Context `{!PyRuntime} `{!SensorRuntime}.

(** [Sensor(broker, sensor_id)]: [sensor_id or f"sensor-{uuid.uuid4().hex[:8]}"]
    draws an identifier only when the argument is [None] or empty. *)
Definition new_sensor (st : system) (sensor_id : option string) : system * Sensor :=
  match data_writer.supplied sensor_id with
  | Some s => (st, {| sensor_id := s |})
  | None =>
      ({| broker := broker st; writer := writer st; draws := S (draws st) |},
       {| sensor_id := "sensor-" +:+ substring 0 8 (uuid4_hex (draws st)) |})
  end.

(** [publish_audio]: the synthetic payload draws a UUID of its own, before
    the one of [message_id]; the clock is read only when no (or an empty)
    timestamp is given.  Returns the message that was published. *)
Definition publish_audio (self : Sensor) (st : system) (audio_data timestamp : option string)
  : system * message :=
  let '(n, audio_data) :=
    match audio_data with
    | None => (S (draws st), b64encode (SYNTHETIC_PREFIX ++ uuid4_bytes (draws st)))
    | Some a => (draws st, a)
    end in
  let message : message :=
    {[ "message_id" := VStr (uuid4 n);
       "sensor_id" := VStr (sensor_id self);
       "timestamp" := VStr (match data_writer.supplied timestamp with
                            | Some t => t
                            | None => utcnow_isoformat n
                            end);
       "audio_data" := VStr audio_data ]} in
  ({| broker := publish_work (broker st) AUDIO_STREAM message;
      writer := writer st;
      draws := S n |},
   message).

End with_runtime.
End sensor.

(** ** [mocks/rest_api.py] *)
Module rest_api.
Import rabbitmq.

Definition CACHE_MINUTES : Z := 5.
Definition RATE_LIMIT_MAX : nat := 100.
Definition RATE_LIMIT_WINDOW_SECONDS : Z := 60.

(** A [timedelta], in microseconds (the resolution of [datetime]). *)
Definition timedelta_seconds (n : Z) : Z := (n * 1000000)%Z.
Definition timedelta_minutes (n : Z) : Z := timedelta_seconds (60 * n).

(** A parsed [datetime]: aware (with a UTC offset; [micros] is then the
    instant on the UTC time line) or naive ([micros] is the wall-clock
    reading).  The readings of [datetime.now(timezone.utc)] are all aware
    and are kept as their [micros] alone. *)
Record datetime := mkDatetime { aware : bool; micros : Z }.

(** [a <= b] on datetimes: ordering an aware against a naive one raises [TypeError]. *)
Definition dt_le (a b : datetime) : result bool :=
  if Bool.eqb (aware a) (aware b) then Ok (micros a <=? micros b)%Z
  else Raise TypeError.

(** [a >= b] *)
Definition dt_ge (a b : datetime) : result bool := dt_le b a.

(** [datetime.fromisoformat(s)] with its value; [None] stands for [ValueError]. *)
Class ApiRuntime := {
  fromisoformat : string -> option datetime
}.

(** What a handler reads of the Flask [request]. *)
Record Request := mkRequest {
  (** [request.headers.get("Authorization")] *)
  authorization : option string;
  remote_addr : option string;
  (** [request.args.get("start")], [request.args.get("end")] *)
  arg_start : option string;
  arg_end : option string
}.

(** The JSON body of a response: [{"error": msg}] or
    [{"features": [...], "count": n}]. *)
Inductive body :=
| Error (msg : string)
| Features (features : list message) (count : nat).

(** The closure variables of [create_app]: the two inboxes, the real-time
    cache of (message, received_at) pairs and the rate tracker. *)
Record App := mkApp {
  _inbox_a : nat;
  _inbox_b : nat;
  _cache : list (message * Z);
  _rate_tracker : gmap string (list Z)
}.

(** [create_app(broker, db)] subscribes to both feature topics. *)
Definition create_app (b : InMemoryBroker) : InMemoryBroker * App :=
  let '(b1, qa) := subscribe_fanout b FEATURES_A in
  let '(b2, qb) := subscribe_fanout b1 FEATURES_B in
  (b2, {| _inbox_a := qa; _inbox_b := qb; _cache := []; _rate_tracker := ∅ |}).

(** [s.split(" ", 1)]: the part before the first space and, when there is
    a space, the part after it. *)
Fixpoint split_space (s : string) : string * option string :=
  match s with
  | EmptyString => (EmptyString, None)
  | String c rest =>
      if Ascii.eqb c " "%char then (EmptyString, Some rest)
      else let '(a, b) := split_space rest in (String c a, b)
  end.

(** The inner loop of [_drain_and_refresh_cache] on one inbox, with fuel. *)
Fixpoint drain_inbox (fuel : nat) (inbox : nat) (h : list (list message))
    (cache : list (message * Z)) (now : Z) : option (list (list message) * list (message * Z)) :=
  match fuel with
  | O => None
  | S fuel' =>
      match get_nowait inbox h with
      | (h1, None) => Some (h1, cache)
      | (h1, Some msg) => drain_inbox fuel' inbox h1 (cache ++ [(msg, now)]) now
      end
  end.

(** [while _cache and _cache[0][1] < cutoff: _cache.popleft()] *)
Fixpoint evict (cutoff : Z) (cache : list (message * Z)) : list (message * Z) :=
  match cache with
  | [] => []
  | (m, t) :: rest => if (t <? cutoff)%Z then evict cutoff rest else cache
  end.

(** [now] is the reading of the clock the call makes. *)
Definition _drain_and_refresh_cache (app : App) (b : InMemoryBroker) (now : Z)
  : option (App * InMemoryBroker) :=
  let cutoff := (now - timedelta_minutes CACHE_MINUTES)%Z in
  match drain_inbox (S (qsize (_inbox_a app) (heap b))) (_inbox_a app) (heap b) (_cache app) now with
  | None => None
  | Some (h1, cache1) =>
      match drain_inbox (S (qsize (_inbox_b app) h1)) (_inbox_b app) h1 cache1 now with
      | None => None
      | Some (h2, cache2) =>
          Some ({| _inbox_a := _inbox_a app; _inbox_b := _inbox_b app;
                   _cache := evict cutoff cache2;
                   _rate_tracker := _rate_tracker app |},
                {| heap := h2; _work_queues := _work_queues b; _fanout := _fanout b |})
      end
  end.

(** [request.remote_addr or "unknown"] *)
Definition client_of (req : Request) : string :=
  match data_writer.supplied (remote_addr req) with
  | Some addr => addr
  | None => "unknown"
  end.

(** [_rate_limit_ok]: the history kept for the client is pruned to the
    window on every call, and the request is recorded only when admitted. *)
Definition _rate_limit_ok (app : App) (req : Request) (now : Z) : App * bool :=
  let client := client_of req in
  let window_start := (now - timedelta_seconds RATE_LIMIT_WINDOW_SECONDS)%Z in
  let history := default [] (_rate_tracker app !! client) in
  let history := List.filter (fun t => (window_start <? t)%Z) history in
  let track h := {| _inbox_a := _inbox_a app; _inbox_b := _inbox_b app;
                    _cache := _cache app;
                    _rate_tracker := <[client := h]> (_rate_tracker app) |} in
  if (RATE_LIMIT_MAX <=? length history)%nat then (track history, false)
  else (track (history ++ [now]), true).

Section with_config.
(** The module-level set [VALID_TOKENS], read from the environment at import. *)
Variable VALID_TOKENS : gset string.
Context `{!ApiRuntime}.

(** [_authenticate]: the status and the error message. *)
Definition _authenticate (req : Request) : nat * option string :=
  let auth := default "" (authorization req) in
  if bool_decide (auth = "") then (401, Some "Missing Authorization header")
  else
    match split_space auth with
    | (scheme, Some token) =>
        if negb (bool_decide (scheme = "Bearer"))
        then (401, Some "Invalid Authorization format; expected 'Bearer <token>'")
        else if negb (bool_decide (token ∈ VALID_TOKENS))
        then (403, Some "Invalid or expired token")
        else (200, None)
    | (_, None) => (401, Some "Invalid Authorization format; expected 'Bearer <token>'")
    end.

(** [GET /features/realtime]; [now_limit] and [now_cache] are the readings
    of the clock made by the rate limiter and by the cache refresh. *)
Definition realtime (app : App) (b : InMemoryBroker) (req : Request) (now_limit now_cache : Z)
  : option (App * InMemoryBroker * (body * nat)) :=
  let '(status, err) := _authenticate req in
  if negb (Nat.eqb status 200) then Some (app, b, (Error (default "" err), status))
  else
    let '(app1, admitted) := _rate_limit_ok app req now_limit in
    if negb admitted then Some (app1, b, (Error "Rate limit exceeded", 429))
    else
      match _drain_and_refresh_cache app1 b now_cache with
      | None => None
      | Some (app2, b2) =>
          let features := map fst (_cache app2) in
          Some (app2, b2, (Features features (length features), 200))
      end.

(** The loop of [historical] over the store: a record without a
    [timestamp] ([KeyError]) or with an unparsable one ([ValueError]) is
    skipped; a timestamp that is no string has no [replace]
    ([AttributeError]), and ordering against a datetime of the other kind
    raises [TypeError]: neither is caught. *)
Fixpoint in_window (start_dt end_dt : datetime) (records : list message) : result (list message) :=
  match records with
  | [] => Ok []
  | record :: rest =>
      keep ← match record !! "timestamp" with
             | None => Ok false
             | Some (VStr s) =>
                 match fromisoformat (replace_Z s) with
                 | None => Ok false
                 | Some ts =>
                     lower ← dt_le start_dt ts;
                     if lower : bool then dt_le ts end_dt else Ok false
                 end
             | Some _ => Raise AttributeError
             end;
      results ← in_window start_dt end_dt rest;
      Ok (if keep : bool then record :: results else results)
  end.

(** [GET /features/historical]; [db] is the store the application was
    created with ([None] when it was created without one), as it is at
    the time of the request. *)
Definition historical (app : App) (db : option (list message)) (req : Request) (now_limit : Z)
  : App * result (body * nat) :=
  let '(status, err) := _authenticate req in
  if negb (Nat.eqb status 200) then (app, Ok (Error (default "" err), status))
  else
    let '(app1, admitted) := _rate_limit_ok app req now_limit in
    if negb admitted then (app1, Ok (Error "Rate limit exceeded", 429))
    else
      match data_writer.supplied (arg_start req), data_writer.supplied (arg_end req) with
      | Some start_str, Some end_str =>
          match fromisoformat (replace_Z start_str), fromisoformat (replace_Z end_str) with
          | Some start_dt, Some end_dt =>
              (app1,
               not_before ← dt_ge start_dt end_dt;
               if not_before : bool then Ok (Error "'start' must be earlier than 'end'", 400)
               else
                 match db with
                 | None => Ok (Features [] 0, 200)
                 | Some records =>
                     results ← in_window start_dt end_dt records;
                     Ok (Features results (length results), 200)
                 end)
          | _, _ => (app1, Ok (Error "Invalid timestamp format; use ISO-8601", 400))
          end
      | _, _ => (app1, Ok (Error "'start' and 'end' query parameters are required", 400))
      end.

End with_config.
End rest_api.

(** ** [run_mock_server.py] *)
Module run_mock_server.
Import rabbitmq.

Record Pipeline := mkPipeline {
  state : system;
  sensor : sensor.Sensor;
  algo_a : algorithm_a.AlgorithmA;
  algo_b : algorithm_b.AlgorithmB;
  app : rest_api.App
}.

Section with_runtime.
Context `{!PyRuntime} `{!sensor.SensorRuntime}.

(** [build_pipeline]: the fan-out subscribers are created before the
    publishers.  The writer's store is the list the application reads. *)
Definition build_pipeline : Pipeline :=
  let broker := new_broker in
  let '(broker, algo_b) := algorithm_b.new_algorithm broker in
  let '(broker, writer) := data_writer.new_writer broker in
  let '(broker, app) := rest_api.create_app broker in
  let algo_a := algorithm_a.new_algorithm in
  let '(st, sensor) :=
    sensor.new_sensor {| broker := broker; writer := writer; draws := 0 |}
                      (Some "load-test-sensor") in
  {| state := st; sensor := sensor; algo_a := algo_a; algo_b := algo_b; app := app |}.

End with_runtime.
End run_mock_server.

(** * Vocabulary of the properties *)

(** ** Writer store: idempotent write and uniqueness *)

Section writer_store_terms.
Import data_writer.

Definition message_id (m : message) : option value := m !! "message_id".

(** The wire format gives every record a string [message_id]. *)
Definition has_string_id (m : message) : Prop :=
  exists s, m !! "message_id" = Some (VStr s).

Definition store_ids (rs : list message) : list (option value) := map message_id rs.

(** Every stored record is identified, and no two share an identifier. *)
Definition unique_store (rs : list message) : Prop :=
  Forall has_string_id rs /\ NoDup (store_ids rs).

(** A sequence of [_write] calls and what each of them returned. *)
Fixpoint write_all (w : DataWriter) (ms : list message) : DataWriter * list (result bool) :=
  match ms with
  | [] => (w, [])
  | m :: rest =>
      let '(w1, r) := _write w m in
      let '(w2, rs) := write_all w1 rest in
      (w2, r :: rs)
  end.

Definition sample_record (id sensor ts : string) : message :=
  {[ "message_id" := VStr id; "feature_type" := VStr "A";
     "sensor_id" := VStr sensor; "timestamp" := VStr ts ]}.

End writer_store_terms.

(** ** Writer store: queries *)

Section writer_query_terms.
Import data_writer.

(** The timestamp a record is compared by: [r.get("timestamp", "")]. *)
Definition timestamp_of (r : message) : string :=
  match r !! "timestamp" with
  | Some (VStr t) => t
  | _ => ""
  end.

(** The field [k] of [r] is present and equal to the string [s]. *)
Definition field_equals (r : message) (k s : string) : bool :=
  match r !! k with
  | Some (VStr t) => bool_decide (t = s)
  | _ => false
  end.

(** The filter of the specification: the conjunction of the conditions
    whose argument is given ([None] stands for a filter that is not). *)
Definition satisfies (feature_type sensor_id start end_ : option string) (r : message) : bool :=
  from_option (field_equals r "feature_type") true feature_type &&
  from_option (field_equals r "sensor_id") true sensor_id &&
  from_option (fun lo => String.leb lo (timestamp_of r)) true start &&
  from_option (fun hi => String.leb (timestamp_of r) hi) true end_.

(** Every timestamp that is present is a string. *)
Definition timestamps_are_strings (rs : list message) : Prop :=
  Forall (fun r => forall v, r !! "timestamp" = Some v -> exists t, v = VStr t) rs.

(** Ascending by timestamp. *)
Fixpoint ascending (rs : list message) : bool :=
  match rs with
  | r1 :: ((r2 :: _) as rest) => String.leb (timestamp_of r1) (timestamp_of r2) && ascending rest
  | _ => true
  end.

(** A store written out of timestamp order. *)
Definition out_of_order_store : DataWriter :=
  {| _inbox_a := 0; _inbox_b := 1;
     db := [sample_record "m-1" "sensor-02" "2024-01-15T12:00:00+00:00";
            sample_record "m-2" "sensor-01" "2024-01-15T08:00:00+00:00"] |}.

End writer_query_terms.

(** ** Broker core: the store of queues *)

Section broker_core_terms.
Import rabbitmq.

(** The pending items of the queue object [r] (none for a dangling reference). *)
Definition contents (h : list (list message)) (r : nat) : list message :=
  default [] (h !! r).

Definition inbox (b : InMemoryBroker) (r : nat) : list message := contents (heap b) r.

(** The pending items of a named work queue (none for an unknown name). *)
Definition pending (b : InMemoryBroker) (queue_name : string) : list message :=
  match _work_queues b !! queue_name with
  | Some r => inbox b r
  | None => []
  end.

(** The inboxes registered on a topic, in registration order. *)
Definition subscribers (b : InMemoryBroker) (topic : string) : list nat :=
  default [] (_fanout b !! topic).

(** The references held by the two tables point into the store, and no
    queue object is shared: not by two work queues, not by two
    subscriptions, not by a work queue and a subscription. *)
Record wf_broker (b : InMemoryBroker) : Prop := {
  wf_work_valid : forall q r, _work_queues b !! q = Some r -> (r < length (heap b))%nat;
  wf_fan_valid : forall t rs r, _fanout b !! t = Some rs -> r ∈ rs -> (r < length (heap b))%nat;
  wf_work_inj : forall q1 q2 r,
    _work_queues b !! q1 = Some r -> _work_queues b !! q2 = Some r -> q1 = q2;
  wf_fan_nodup : forall t rs, _fanout b !! t = Some rs -> NoDup rs;
  wf_fan_disj : forall t1 t2 rs1 rs2 r,
    _fanout b !! t1 = Some rs1 -> _fanout b !! t2 = Some rs2 -> r ∈ rs1 -> r ∈ rs2 -> t1 = t2;
  wf_work_fan : forall q r t rs,
    _work_queues b !! q = Some r -> _fanout b !! t = Some rs -> r ∉ rs
}.

End broker_core_terms.

(** ** Broker core: histories of calls *)

Section broker_traces_terms.
Import rabbitmq.

(** The calls the components make on the shared broker.  A consumer is
    named by a number, so that a history records who consumed what. *)
Inductive call :=
| PublishWork (queue_name : string) (m : message)
| ConsumeWork (consumer : nat) (queue_name : string) (timeout : num)
| SubscribeFanout (topic : string)
| PublishFanout (topic : string) (m : message).

(** A delivery of a work item: consumer, queue, item. *)
Definition delivery : Type := nat * string * message.

Definition step (b : InMemoryBroker) (c : call) : InMemoryBroker * list delivery :=
  match c with
  | PublishWork q m => (publish_work b q m, [])
  | ConsumeWork who q timeout =>
      ((consume_work b q timeout).1,
       match (consume_work b q timeout).2 with
       | Some m => [(who, q, m)]
       | None => []
       end)
  | SubscribeFanout t => ((subscribe_fanout b t).1, [])
  | PublishFanout t m => (publish_fanout b t m, [])
  end.

(** A history run call by call, with the deliveries it made, in order. *)
Fixpoint run (b : InMemoryBroker) (cs : list call) : InMemoryBroker * list delivery :=
  match cs with
  | [] => (b, [])
  | c :: rest => ((run (step b c).1 rest).1, (step b c).2 ++ (run (step b c).1 rest).2)
  end.


(** The messages a history publishes to a topic, in order. *)
Definition published_fanout (t : string) (cs : list call) : list message :=
  omap (fun c => match c with
                 | PublishFanout t' m => if decide (t' = t) then Some m else None
                 | _ => None
                 end) cs.



End broker_traces_terms.

(** ** Broker core: histories with [purge_all] *)

Section broker_events_terms.
Import rabbitmq.

(** What can happen to the shared broker: one of the calls, or a [purge_all]. *)
Inductive event :=
| Call (c : call)
| PurgeAll.

(** A history of events run one by one. *)
Fixpoint run_events (b : InMemoryBroker) (es : list event) : InMemoryBroker :=
  match es with
  | [] => b
  | Call c :: rest => run_events (step b c).1 rest
  | PurgeAll :: rest => run_events (purge_all b) rest
  end.

(** The calls of a history, in order, its purges left out. *)
Fixpoint calls_of (es : list event) : list call :=
  match es with
  | [] => []
  | Call c :: rest => c :: calls_of rest
  | PurgeAll :: rest => calls_of rest
  end.

(** The calls a history makes before its first [purge_all]. *)
Fixpoint until_purge (es : list event) : list call :=
  match es with
  | Call c :: rest => c :: until_purge rest
  | _ => []
  end.

(** Whether a history holds a [purge_all]. *)
Fixpoint purges (es : list event) : bool :=
  match es with
  | [] => false
  | Call _ :: rest => purges rest
  | PurgeAll :: _ => true
  end.

(** The calls a history makes after its last [purge_all] (all of them when
    it holds none). *)
Fixpoint since_purge (es : list event) : list call :=
  match es with
  | [] => []
  | Call c :: rest => if purges rest then since_purge rest else c :: since_purge rest
  | PurgeAll :: rest => since_purge rest
  end.

(** A queue object of the store that neither table refers to. *)
Definition detached (b : InMemoryBroker) (r : nat) : Prop :=
  (r < length (heap b))%nat /\
  (forall q, _work_queues b !! q <> Some r) /\
  (forall t, r ∉ subscribers b t).

End broker_events_terms.

(** ** Stage processors: validation *)

Section stage_validation_terms.
Context `{!PyRuntime}.

(** A required field is absent. *)
Definition lacks_required (required : list string) (m : message) : Prop :=
  exists k, k ∈ required /\ m !! k = None.

End stage_validation_terms.

(** ** A runtime for the examples

    Stand-ins for the library functions, used where a statement needs a
    concrete runtime: a base64 decoder for the standard alphabet that skips
    other characters and stops at the first padding character; a parser
    that accepts a string starting with a [YYYY-MM-DD] date; numbered
    identifiers and clock readings; [x / (1 + |x|)] for both [sin] and
    [tanh]; a [round] that keeps its argument; and left-to-right binary64
    summation. *)

Section sample_runtime_terms.

Definition b64_sextet (c : ascii) : option Z :=
  let n := Z.of_N (N_of_ascii c) in
  if (65 <=? n)%Z && (n <=? 90)%Z then Some (n - 65)%Z
  else if (97 <=? n)%Z && (n <=? 122)%Z then Some (n - 71)%Z
  else if (48 <=? n)%Z && (n <=? 57)%Z then Some (n + 4)%Z
  else if (n =? 43)%Z then Some 62%Z
  else if (n =? 47)%Z then Some 63%Z
  else None.

Fixpoint b64_sextets (s : string) : list Z :=
  match s with
  | EmptyString => []
  | String c rest =>
      if Ascii.eqb c "="%char then []
      else match b64_sextet c with
           | Some v => v :: b64_sextets rest
           | None => b64_sextets rest
           end
  end.

Fixpoint b64_bytes (l : list Z) : result (list Z) :=
  match l with
  | a :: b :: c :: d :: rest =>
      bytes ← b64_bytes rest;
      Ok ([a * 4 + b / 16; (b mod 16) * 16 + c / 4; (c mod 4) * 64 + d]%Z ++ bytes)
  | [a; b; c] => Ok [a * 4 + b / 16; (b mod 16) * 16 + c / 4]%Z
  | [a; b] => Ok [a * 4 + b / 16]%Z
  | [a] => Raise BinasciiError
  | [] => Ok []
  end.

Definition is_digit (c : ascii) : bool :=
  let n := N_of_ascii c in (48 <=? n)%N && (n <=? 57)%N.

Definition sample_fromisoformat_ok (s : string) : bool :=
  match s with
  | String y1 (String y2 (String y3 (String y4 (String d1
      (String m1 (String m2 (String d2 (String g1 (String g2 _))))))))) =>
      is_digit y1 && is_digit y2 && is_digit y3 && is_digit y4 &&
      Ascii.eqb d1 "-"%char && is_digit m1 && is_digit m2 &&
      Ascii.eqb d2 "-"%char && is_digit g1 && is_digit g2
  | _ => false
  end.

Definition softsign (x : spec_float) : spec_float :=
  f_div x (f_add (float_of_Z 1) (SFabs x)).

(** Plain addition from the int [0], left to right: ints exactly until the
    first float, then in binary64. *)
Definition sample_float_sum (ns : list num) : spec_float :=
  num_to_float
    (fold_left (fun acc n =>
                  match acc, n with
                  | NInt a, NInt z => NInt (a + z)%Z
                  | _, _ => NFloat (f_add (num_to_float acc) (num_to_float n))
                  end) ns (NInt 0%Z)).

Definition sample_runtime : PyRuntime :=
  {| b64decode := fun s => b64_bytes (b64_sextets s);
     fromisoformat_ok := sample_fromisoformat_ok;
     uuid4 := fun n => "uuid-" +:+ pretty n;
     utcnow_isoformat := fun n => "2024-01-15T10:00:01+00:00#" +:+ pretty n;
     math_sin := softsign;
     math_tanh := softsign;
     round_float := fun x _ => x;
     float_sum := sample_float_sum |}.

(** The audio message of the test helpers: [b"testaudiodata"] in base64. *)
Definition sample_audio (id : string) : message :=
  {[ "message_id" := VStr id;
     "sensor_id" := VStr "sensor-01";
     "timestamp" := VStr "2024-01-15T10:00:00+00:00";
     "audio_data" := VStr "dGVzdGF1ZGlvZGF0YQ==" ]}.

Definition empty_system : system :=
  {| broker := rabbitmq.new_broker;
     writer := {| data_writer._inbox_a := 0; data_writer._inbox_b := 1; data_writer.db := [] |};
     draws := 0 |}.

End sample_runtime_terms.

(** ** Stage processors: errors, frame and determinism *)

Section stage_process_terms.
Context `{!PyRuntime}.

(** A record without the two fields that are fresh on every call. *)
Definition without_fresh (r : message) : message :=
  delete "message_id" (delete "processed_at" r).

Definition result_map {A B} (f : A -> B) (r : result A) : result B :=
  match r with
  | Ok a => Ok (f a)
  | Raise e => Raise e
  end.

End stage_process_terms.

(** ** Stage processors: lineage *)

Section stage_lineage_terms.
Context {rt : PyRuntime}.

(** The shape of the records both stages build. *)
Definition feature_record (id source ft sensor ts now features : value) : message :=
  {[ "message_id" := id; "source_message_id" := source; "feature_type" := ft;
     "sensor_id" := sensor; "timestamp" := ts; "processed_at" := now;
     "features" := features ]}.

(** The quantities of Stage A's payload that Stage B classifies by. *)
Definition seed_of (raw : list Z) : Z := (fold_left Z.add raw 0 mod 1000)%Z.

Definition stage_a_mfcc (seed : Z) : list spec_float :=
  map (fun i => round_float (f_mul (math_sin (float_of_Z (seed + i))) (float_of_Z 10)) 4)
      (seqZ 0 13).

Definition stage_a_centroid (seed : Z) : spec_float :=
  round_float (f_add (float_of_Z 440) (float_of_Z seed)) 2.

(** [mfcc_mean * centroid] for the payload Stage A derives from [seed]. *)
Definition class_product (seed : Z) : spec_float :=
  f_mul (f_div (float_sum (map NFloat (stage_a_mfcc seed))) (float_of_Z 13))
        (stage_a_centroid seed).

Definition stage_a_features (seed : Z) : value :=
  VDict {[
    "mfcc" := VList (map VFloat (stage_a_mfcc seed));
    "spectral_centroid" := VFloat (stage_a_centroid seed);
    "zero_crossing_rate" :=
      VFloat (round_float (f_add (f_lit 5 100)
                             (f_div (float_of_Z (seed mod 50)) (float_of_Z 1000))) 4);
    "rms_energy" :=
      VFloat (round_float (f_add (f_lit 1 10)
                             (f_div (float_of_Z (seed mod 100)) (float_of_Z 1000))) 4)
  ]}.

End stage_lineage_terms.

(** The Feature-A message of the test helpers, with a chosen timestamp. *)
Definition sample_feature_a (id ts : string) : message :=
  {[ "message_id" := VStr id;
     "source_message_id" := VStr "audio-0";
     "feature_type" := VStr "A";
     "sensor_id" := VStr "sensor-01";
     "timestamp" := VStr ts;
     "processed_at" := VStr "2024-01-15T10:00:01+00:00";
     "features" := VDict {[
       "mfcc" := VList (map (fun i => VFloat (f_lit i 10)) (seqZ 0 13));
       "spectral_centroid" := VFloat (float_of_Z 540);
       "zero_crossing_rate" := VFloat (f_lit 55 1000);
       "rms_energy" := VFloat (f_lit 11 100) ]} ]}.

(** ** Stage processors: [process_one] and [process_all] *)

Section stage_loops_terms.
Context {rt : PyRuntime}.
Import rabbitmq.

(** Whether a stage processes a message does not depend on the state it is
    in (only the fresh identifier and the clock reading do). *)
Definition accepted_a (m : message) : Prop :=
  forall st, exists out, (algorithm_a.process st m).2 = Ok out.

Definition rejected_a (m : message) (e : exn) : Prop :=
  forall st, (algorithm_a.process st m).2 = Raise e.

Definition accepted_b (m : message) : Prop :=
  forall st, exists out, (algorithm_b.process st m).2 = Ok out.

Definition rejected_b (m : message) (e : exn) : Prop :=
  forall st, (algorithm_b.process st m).2 = Raise e.

End stage_loops_terms.

(** The malformed message of the resilience tests: no [timestamp], no [audio_data]. *)
Definition malformed_audio : message :=
  {[ "message_id" := VStr "bad-id"; "sensor_id" := VStr "sensor-1" ]}.

(** A fresh system whose audio queue holds the given messages. *)
Definition system_with_audio (ms : list message) : system :=
  set_broker empty_system (run rabbitmq.new_broker (map (PublishWork rabbitmq.AUDIO_STREAM) ms)).1.

(** ** Writer: [flush] *)

Section writer_flush_terms.
Import rabbitmq data_writer.

(** The identifier of a record of the wire format. *)
Definition id_string (m : message) : string :=
  match m !! "message_id" with
  | Some (VStr s) => s
  | _ => ""
  end.

(** The records of [ms] that a store holding the identifiers [seen] takes
    up: the first occurrence of each identifier that is not stored yet. *)
Fixpoint new_records (seen : list string) (ms : list message) : list message :=
  match ms with
  | [] => []
  | m :: rest =>
      if decide (id_string m ∈ seen) then new_records seen rest
      else m :: new_records (seen ++ [id_string m]) rest
  end.

(** A record without a [message_id]. *)
Definition unidentified (m : message) : Prop := m !! "message_id" = None.

(** A writer on a fresh broker, and the broker after the given records
    were published to the two feature topics. *)
Definition writer_with_pending (on_a on_b : list message) : InMemoryBroker * DataWriter :=
  ((run (new_writer new_broker).1
        (map (PublishFanout FEATURES_A) on_a ++ map (PublishFanout FEATURES_B) on_b)).1,
   (new_writer new_broker).2).

End writer_flush_terms.

(** ** Broker: subscriptions *)

Section broker_frame_terms.
Import rabbitmq.

(** The number of [subscribe_fanout] calls a history makes on a topic. *)
Definition subscriptions (t : string) (cs : list call) : nat :=
  length (List.filter (fun c => match c with
                                | SubscribeFanout t' => bool_decide (t' = t)
                                | _ => false
                                end) cs).

End broker_frame_terms.

(** ** Sensor *)

Section sensor_terms.

(** Stand-ins for the sensor's library calls, for the examples: numbered
    identifiers, sixteen bytes that encode the number, and an encoder that
    gives every payload the same text. *)
Definition sample_sensor_runtime : sensor.SensorRuntime :=
  {| sensor.uuid4_hex := fun n => "0123456789abcdef0123456789abcdef" +:+ pretty n;
     sensor.uuid4_bytes := fun n => replicate 16 (Z.of_nat n);
     sensor.b64encode := fun _ => "U1lOVEhFVElDX0FVRElPXw" |}.

End sensor_terms.

(** ** REST API: rate limit, cache and time windows *)

Section rest_api_terms.
Import rabbitmq rest_api.

(** The requests of a run, each with the clock reading the rate limiter
    makes for it, answered in turn. *)
Fixpoint limit_all (app : App) (calls : list (Request * Z)) : App * list bool :=
  match calls with
  | [] => (app, [])
  | (req, now) :: rest =>
      let answered := _rate_limit_ok app req now in
      let served := limit_all answered.1 rest in
      (served.1, answered.2 :: served.2)
  end.

(** The clock readings of the requests of [client] that were admitted. *)
Fixpoint admitted_times (client : string) (calls : list (Request * Z)) (answers : list bool)
  : list Z :=
  match calls, answers with
  | (req, now) :: calls', ok :: answers' =>
      if ok && bool_decide (client_of req = client)
      then now :: admitted_times client calls' answers'
      else admitted_times client calls' answers'
  | _, _ => []
  end.

(** The readings that fall in the rate window that ends at [now]. *)
Definition within_window (now : Z) (ts : list Z) : list Z :=
  List.filter (fun t => (now - timedelta_seconds RATE_LIMIT_WINDOW_SECONDS <? t)%Z && (t <=? now)%Z) ts.

(** The clock never goes back. *)
Definition nondecreasing (ts : list Z) : Prop := Sorted Z.le ts.

(** Messages entered into the cache at the reading [now]. *)
Definition stamped (now : Z) (ms : list message) : list (message * Z) :=
  map (fun m => (m, now)) ms.

(** The entries of the cache that are no older than [CACHE_MINUTES] at [now]. *)
Definition recent_entries (now : Z) (cache : list (message * Z)) : list (message * Z) :=
  List.filter (fun e => (now - timedelta_minutes CACHE_MINUTES <=? e.2)%Z) cache.

Section with_api_runtime.
Context `{!ApiRuntime}.

(** The parsed timestamp of a record, when it has a string that parses. *)
Definition record_time (r : message) : option datetime :=
  match r !! "timestamp" with
  | Some (VStr s) => fromisoformat (replace_Z s)
  | _ => None
  end.

(** The record has a parsed timestamp between the two bounds, inclusive. *)
Definition between (start_dt end_dt : datetime) (r : message) : bool :=
  match record_time r with
  | Some ts => (micros start_dt <=? micros ts)%Z && (micros ts <=? micros end_dt)%Z
  | None => false
  end.

(** Every timestamp of the store is a string, and those that parse are
    all aware or all naive, as [aw] says. *)
Definition comparable_store (aw : bool) (records : list message) : Prop :=
  Forall (fun r => (forall v, r !! "timestamp" = Some v -> exists s, v = VStr s) /\
                   (forall ts, record_time r = Some ts -> aware ts = aw)) records.

End with_api_runtime.

(** A parser for the examples: it reads [YYYY-MM-DDTHH:MM:SS], aware
    when [+00:00] follows and naive when nothing does, and counts every
    month as 31 days (which keeps the order of valid dates). *)
Fixpoint digits_value (s : string) (acc : Z) : option Z :=
  match s with
  | EmptyString => Some acc
  | String c rest =>
      if is_digit c
      then digits_value rest (10 * acc + (Z.of_N (N_of_ascii c) - 48))%Z
      else None
  end.

Definition field_at (s : string) (start len : nat) : option Z :=
  if Nat.eqb (String.length (substring start len s)) len
  then digits_value (substring start len s) 0
  else None.

Definition separator_at (s : string) (i : nat) (c : ascii) : bool :=
  match String.get i s with
  | Some c' => Ascii.eqb c c'
  | None => false
  end.

Definition sample_fromisoformat (s : string) : option datetime :=
  match field_at s 0 4, field_at s 5 2, field_at s 8 2,
        field_at s 11 2, field_at s 14 2, field_at s 17 2 with
  | Some y, Some mo, Some d, Some h, Some mi, Some sec =>
      if separator_at s 4 "-" && separator_at s 7 "-" && separator_at s 10 "T" &&
         separator_at s 13 ":" && separator_at s 16 ":"
      then
        let seconds := ((((((y * 12 + (mo - 1)) * 31 + (d - 1)) * 24 + h) * 60 + mi) * 60) + sec)%Z in
        let zone := substring 19 (String.length s - 19) s in
        if bool_decide (zone = "")
        then Some {| aware := false; micros := timedelta_seconds seconds |}
        else if bool_decide (zone = "+00:00")
        then Some {| aware := true; micros := timedelta_seconds seconds |}
        else None
      else None
  | _, _, _, _, _, _ => None
  end.

Definition sample_api_runtime : ApiRuntime := {| fromisoformat := sample_fromisoformat |}.

(** The default set of tokens, [test-token,valid-token]. *)
Definition DEFAULT_TOKENS : gset string := {[ "test-token"; "valid-token" ]}.

(** A request of the test client, with a valid token. *)
Definition sample_request (start end_ : option string) : Request :=
  {| authorization := Some "Bearer test-token";
     remote_addr := Some "127.0.0.1";
     arg_start := start;
     arg_end := end_ |}.

(** The application on a fresh broker. *)
Definition sample_app : App := (create_app new_broker).2.

(** The window of the rate limiter, in microseconds. *)
Definition window : Z := timedelta_seconds RATE_LIMIT_WINDOW_SECONDS.

(** What the tracker holds for a client: the admitted readings [acc] that
    were inside the window at the client's last request. *)
Definition tracks (app : App) (client : string) (acc : list Z) (last : Z) : Prop :=
  exists seen,
    (seen <= last)%Z /\
    default [] (_rate_tracker app !! client)
      = List.filter (fun t => (seen - window <? t)%Z) acc /\
    Forall (fun t => (t <= seen)%Z) acc /\
    (length (default [] (_rate_tracker app !! client)) <= RATE_LIMIT_MAX)%nat.

End rest_api_terms.

(** ** The wired pipeline *)

Section pipeline_terms.
Context {rt : PyRuntime} {srt : sensor.SensorRuntime}.
Import rabbitmq run_mock_server.

(** The Feature-A record of the first audio message of a fresh pipeline,
    and the Feature-B record derived from it. *)
Definition first_feature_a (t : string) (raw : list Z) : message :=
  feature_record (VStr (uuid4 1)) (VStr (uuid4 0)) (VStr "A") (VStr "load-test-sensor")
    (VStr t) (VStr (utcnow_isoformat 1)) (stage_a_features (seed_of raw)).

Definition first_feature_b (t : string) (derived : value) : message :=
  feature_record (VStr (uuid4 2)) (VStr (uuid4 1)) (VStr "B") (VStr "load-test-sensor")
    (VStr t) (VStr (utcnow_isoformat 2)) derived.

End pipeline_terms.

(** * Properties *)

(** ** Writer store: idempotent write and uniqueness *)

Section writer_store.
Import data_writer.

Lemma any_same_id_spec (rs : list message) (m : message) (s : string) :
  Forall has_string_id rs ->
  m !! "message_id" = Some (VStr s) ->
  exists b, any_same_id rs m = Ok b /\ (b = true <-> message_id m ∈ store_ids rs).
Proof.
  intros Hrs Hm. induction Hrs as [|r rs [t Hr] _ IH]; simpl.
  - exists false. split; [done|]. split; [done|]. intros H; inversion H.
  - unfold getitem. rewrite Hr, Hm. simpl.
    case_bool_decide as Hts.
    + exists true. split; [done|]. split; [|done]. intros _.
      unfold message_id. rewrite Hm, <- Hts, <- Hr. apply list_elem_of_here.
    + destruct IH as (b & Hb & Hiff). exists b. split; [done|].
      rewrite Hiff. unfold store_ids. simpl. rewrite elem_of_cons.
      split; [tauto|]. intros [Heq|H]; [|done].
      unfold message_id in Heq. rewrite Hm, Hr in Heq. congruence.
Qed.

(** One call of [_write] on a well-formed store. *)
Lemma _write_spec (w : DataWriter) (m : message) :
  Forall has_string_id (db w) -> has_string_id m ->
  ((message_id m ∉ store_ids (db w)) /\
   _write w m = ({| _inbox_a := _inbox_a w; _inbox_b := _inbox_b w; db := db w ++ [m] |}, Ok true))
  \/ (message_id m ∈ store_ids (db w) /\ _write w m = (w, Ok false)).
Proof.
  intros Hdb [s Hm].
  destruct (any_same_id_spec (db w) m s Hdb Hm) as (b & Hb & Hiff).
  unfold _write. rewrite Hb. unfold getitem. rewrite Hm. simpl.
  destruct b.
  - right. split; [by apply Hiff|done].
  - left. split; [|done]. intros Hin. apply Hiff in Hin. discriminate.
Qed.

Lemma _write_unique (w : DataWriter) (m : message) :
  unique_store (db w) -> has_string_id m -> unique_store (db (_write w m).1).
Proof.
  intros [Hall Hnd] Hm.
  destruct (_write_spec w m Hall Hm) as [[Hnot ->]|[_ ->]]; simpl; [|done].
  split.
  - apply Forall_app. split; [done|]. by apply Forall_singleton.
  - unfold store_ids. rewrite map_app. simpl. apply NoDup_app. split; [done|].
    split; [|apply NoDup_singleton].
    intros x Hx Hx'. apply list_elem_of_singleton in Hx'. subst x. by apply Hnot.
Qed.

Lemma write_all_unique (w : DataWriter) (ms : list message) :
  unique_store (db w) -> Forall has_string_id ms -> unique_store (db (write_all w ms).1).
Proof.
  intros Hw Hms. revert w Hw. induction Hms as [|m ms Hm _ IH]; intros w Hw; simpl; [done|].
  pose proof (_write_unique w m Hw Hm) as H1.
  destruct (_write w m) as [w1 r]. simpl in H1.
  specialize (IH w1 H1). destruct (write_all w1 ms) as [w2 rs]. done.
Qed.

Lemma store_ids_split (rs : list message) (x : option value) :
  NoDup (store_ids rs) -> x ∈ store_ids rs ->
  exists before r after,
    rs = before ++ r :: after /\ message_id r = x /\
    (x ∉ store_ids before) /\ (x ∉ store_ids after).
Proof.
  intros Hnd Hin. apply list_elem_of_fmap in Hin as (r & -> & Hr).
  apply list_elem_of_split in Hr as (before & after & ->).
  exists before, r, after. split; [done|]. split; [done|].
  unfold store_ids in *. rewrite map_app in Hnd. simpl in Hnd.
  apply NoDup_app in Hnd as (_ & Hdisj & Hnd').
  apply NoDup_cons in Hnd' as [Hafter _]. split; [|done].
  intros Hb. apply (Hdisj _ Hb). apply list_elem_of_here.
Qed.

(** C1.  After any sequence [ms] of writes into a store that holds the
    uniqueness invariant (the empty store of a fresh writer does), the store
    still holds it, and the next [_write] of a record [m] returns [True]
    exactly when no stored record has [m]'s [message_id], appending [m] in
    that case and changing nothing otherwise; the store after that write is
    again duplicate-free, a second [_write] of [m] returns [False] and
    changes nothing, and exactly one stored record carries [m]'s
    [message_id]. *)
Theorem write_idempotent_unique (w0 : DataWriter) (ms : list message) (m : message) :
  unique_store (db w0) -> Forall has_string_id ms -> has_string_id m ->
  let w := (write_all w0 ms).1 in
  let w1 := (_write w m).1 in
  unique_store (db w) /\
  (((_write w m).2 = Ok true /\ (message_id m ∉ store_ids (db w)) /\ db w1 = db w ++ [m])
   \/ ((_write w m).2 = Ok false /\ message_id m ∈ store_ids (db w) /\ w1 = w)) /\
  unique_store (db w1) /\
  _write w1 m = (w1, Ok false) /\
  exists before r after,
    db w1 = before ++ r :: after /\ message_id r = message_id m /\
    (message_id m ∉ store_ids before) /\ (message_id m ∉ store_ids after).
Proof.
  intros H0 Hms Hm w w1.
  assert (Hw : unique_store (db w)) by (by apply write_all_unique).
  assert (Hw1 : unique_store (db w1)) by (by apply _write_unique).
  assert (Hin : message_id m ∈ store_ids (db w1)).
  { subst w1. destruct (_write_spec w m (proj1 Hw) Hm) as [[_ ->]|[Hin ->]]; simpl; [|done].
    unfold store_ids. rewrite map_app. apply elem_of_app. right. apply list_elem_of_here. }
  split; [done|]. split.
  { subst w1. destruct (_write_spec w m (proj1 Hw) Hm) as [[Hnot ->]|[Hin' ->]]; simpl.
    - left. done.
    - right. done. }
  split; [done|]. split.
  { destruct (_write_spec w1 m (proj1 Hw1) Hm) as [[Hnot _]|[_ ->]]; [|done].
    by destruct Hnot. }
  apply store_ids_split; [apply Hw1|done].
Qed.

Lemma write_idempotent_unique_witness :
  let w0 := {| _inbox_a := 0; _inbox_b := 1; db := [] |} in
  let ms := [sample_record "id-1" "s1" "t1"; sample_record "id-1" "s1" "t1";
             sample_record "id-2" "s2" "t2"] in
  let m := sample_record "id-3" "s1" "t3" in
  unique_store (db w0) /\ Forall has_string_id ms /\ has_string_id m /\
  (write_all w0 ms).2 = [Ok true; Ok false; Ok true] /\
  _write (_write (write_all w0 ms).1 m).1 m = ((_write (write_all w0 ms).1 m).1, Ok false).
Proof.
  intros w0 ms m.
  assert (H0 : unique_store (db w0)) by (split; constructor).
  assert (Hms : Forall has_string_id ms)
    by (repeat constructor; eexists; reflexivity).
  assert (Hm : has_string_id m) by (eexists; reflexivity).
  split; [exact H0|]. split; [exact Hms|]. split; [exact Hm|].
  split; [vm_compute; reflexivity|].
  exact (proj1 (proj2 (proj2 (proj2 (write_idempotent_unique w0 ms m H0 Hms Hm))))).
Defined.

End writer_store.

(** ** Writer store: queries *)

Section writer_query.
Import data_writer.

Lemma py_eq_field (r : message) (k s : string) :
  py_eq (dict_get r k) (VStr s) = field_equals r k s.
Proof.
  unfold dict_get, field_equals. destruct (r !! k) as [v|]; [|done].
  by destruct v.
Qed.

Lemma filter_r_total {A} (p : A -> result bool) (q : A -> bool) (l : list A) :
  Forall (fun x => p x = Ok (q x)) l -> filter_r p l = Ok (List.filter q l).
Proof.
  induction 1 as [|x l Hx _ IH]; simpl; [done|].
  rewrite Hx, IH. simpl. by destruct (q x).
Qed.

Lemma filter_filter_and {A} (f g : A -> bool) (l : list A) :
  List.filter g (List.filter f l) = List.filter (fun x => f x && g x) l.
Proof.
  induction l as [|x l IH]; simpl; [done|].
  destruct (f x); simpl; [|done]. destruct (g x); by rewrite IH.
Qed.

Lemma Forall_list_filter {A} (P : A -> Prop) (f : A -> bool) (l : list A) :
  Forall P l -> Forall P (List.filter f l).
Proof.
  induction 1 as [|x l Hx _ IH]; simpl; [constructor|].
  destruct (f x); [by constructor|done].
Qed.

Lemma filter_true {A} (l : list A) : List.filter (fun _ => true) l = l.
Proof. induction l as [|x l IH]; simpl; by rewrite ?IH. Qed.

Lemma py_ge_timestamp (r : message) (lo : string) :
  (forall v, r !! "timestamp" = Some v -> exists t, v = VStr t) ->
  py_ge_str (dict_get_default r "timestamp" (VStr "")) lo = Ok (String.leb lo (timestamp_of r)).
Proof.
  intros H. unfold dict_get_default, timestamp_of.
  destruct (r !! "timestamp") as [v|] eqn:E; [|done].
  destruct (H v eq_refl) as [t ->]. done.
Qed.

Lemma py_le_timestamp (r : message) (hi : string) :
  (forall v, r !! "timestamp" = Some v -> exists t, v = VStr t) ->
  py_le_str (dict_get_default r "timestamp" (VStr "")) hi = Ok (String.leb (timestamp_of r) hi).
Proof.
  intros H. unfold dict_get_default, timestamp_of.
  destruct (r !! "timestamp") as [v|] eqn:E; [|done].
  destruct (H v eq_refl) as [t ->]. done.
Qed.

(** [query] on a store whose timestamps are strings: the stored records
    that satisfy every supplied filter, in the order they were stored. *)
Lemma query_filters (w : DataWriter) (feature_type sensor_id start end_ : option string) :
  timestamps_are_strings (db w) ->
  query w feature_type sensor_id start end_ =
  Ok (List.filter (satisfies (supplied feature_type) (supplied sensor_id)
                     (supplied start) (supplied end_)) (db w)).
Proof.
  intros Hts. unfold query.
  set (r1 := match supplied feature_type with Some _ => _ | None => _ end).
  assert (E1 : r1 = List.filter (fun r => from_option (field_equals r "feature_type") true
                                            (supplied feature_type)) (db w)).
  { subst r1. destruct (supplied feature_type); simpl; [|by rewrite filter_true].
    apply List.filter_ext. intros r. apply py_eq_field. }
  set (r2 := match supplied sensor_id with Some _ => _ | None => _ end).
  assert (E2 : r2 = List.filter (fun r => from_option (field_equals r "sensor_id") true
                                            (supplied sensor_id)) r1).
  { subst r2. destruct (supplied sensor_id); simpl; [|by rewrite filter_true].
    apply List.filter_ext. intros r. apply py_eq_field. }
  assert (H2 : timestamps_are_strings r2).
  { rewrite E2, E1. by do 2 apply Forall_list_filter. }
  set (o3 := match supplied start with Some _ => _ | None => _ end).
  assert (E3 : o3 = Ok (List.filter (fun r => from_option (fun lo => String.leb lo (timestamp_of r))
                                                 true (supplied start)) r2)).
  { subst o3. destruct (supplied start) as [lo|]; simpl; [|by rewrite filter_true].
    apply filter_r_total. eapply Forall_impl; [exact H2|].
    intros r Hr. by apply py_ge_timestamp. }
  rewrite E3. simpl.
  set (r3 := List.filter _ r2).
  assert (H3 : timestamps_are_strings r3) by (by apply Forall_list_filter).
  set (o4 := match supplied end_ with Some _ => _ | None => _ end).
  assert (E4 : o4 = Ok (List.filter (fun r => from_option (fun hi => String.leb (timestamp_of r) hi)
                                                 true (supplied end_)) r3)).
  { subst o4. destruct (supplied end_) as [hi|]; simpl; [|by rewrite filter_true].
    apply filter_r_total. eapply Forall_impl; [exact H3|].
    intros r Hr. by apply py_le_timestamp. }
  rewrite E4. simpl. f_equal. subst r3. rewrite E2, E1.
  rewrite !filter_filter_and. apply List.filter_ext. intros r. unfold satisfies.
  by rewrite !andb_assoc.
Qed.

(** With no filter at all nothing is compared: every stored record comes
    back, whatever the records hold. *)
Lemma query_no_filter (w : DataWriter) : query w None None None None = Ok (db w).
Proof. reflexivity. Qed.

Lemma elem_of_list_filter {A} (f : A -> bool) (l : list A) (x : A) :
  x ∈ List.filter f l <-> x ∈ l /\ f x = true.
Proof. rewrite !list_elem_of_In. apply filter_In. Qed.

Lemma supplied_nonempty (arg : option string) (s : string) :
  supplied arg = Some s -> s <> "".
Proof.
  destruct arg as [t|]; simpl; [|done]. case_bool_decide; [done|]. congruence.
Qed.

Lemma leb_empty_r (s : string) : s <> "" -> String.leb s "" = false.
Proof. by destruct s. Qed.

Lemma leb_empty_l (s : string) : String.leb "" s = true.
Proof. by destruct s. Qed.

Lemma field_equals_present (r : message) (k s : string) :
  field_equals r k s = true -> is_Some (r !! k).
Proof. unfold field_equals. destruct (r !! k); [eauto|done]. Qed.

Lemma timestamp_of_absent (r : message) : r !! "timestamp" = None -> timestamp_of r = "".
Proof. unfold timestamp_of. by intros ->. Qed.

(** C6.  The in-memory [query] evaluated on a store whose two records were
    written with the later timestamp first: the store is what two [_write]
    calls leave, the unfiltered query returns it as stored, and that result
    is not ascending by timestamp. *)
Theorem query_keeps_insertion_order :
  (write_all {| _inbox_a := 0; _inbox_b := 1; db := [] |} (db out_of_order_store)).1
    = out_of_order_store /\
  query out_of_order_store None None None None = Ok (db out_of_order_store) /\
  ascending (db out_of_order_store) = false.
Proof. split; [|split]; vm_compute; reflexivity. Qed.

(** C10.  On a store whose timestamps are strings: an empty-string argument
    is the same as no argument, for each of the four filters; the query
    returns, and every returned record has the field of each supplied
    [feature_type] or [sensor_id] filter and, under a supplied [start], a
    timestamp; a stored record without a timestamp is returned exactly when
    it passes the filters other than [end]. *)
Theorem query_filter_edge_cases (w : DataWriter) (feature_type sensor_id start end_ : option string) :
  timestamps_are_strings (db w) ->
  query w (Some "") sensor_id start end_ = query w None sensor_id start end_ /\
  query w feature_type (Some "") start end_ = query w feature_type None start end_ /\
  query w feature_type sensor_id (Some "") end_ = query w feature_type sensor_id None end_ /\
  query w feature_type sensor_id start (Some "") = query w feature_type sensor_id start None /\
  exists rs,
    query w feature_type sensor_id start end_ = Ok rs /\
    (forall r, r ∈ rs -> is_Some (supplied feature_type) -> is_Some (r !! "feature_type")) /\
    (forall r, r ∈ rs -> is_Some (supplied sensor_id) -> is_Some (r !! "sensor_id")) /\
    (forall r, r ∈ rs -> is_Some (supplied start) -> is_Some (r !! "timestamp")) /\
    (forall r, r ∈ db w -> r !! "timestamp" = None ->
       (r ∈ rs <-> satisfies (supplied feature_type) (supplied sensor_id)
                     (supplied start) None r = true)).
Proof.
  intros Hts. do 4 (split; [reflexivity|]).
  eexists. split; [by apply query_filters|].
  split; [|split; [|split]].
  - intros r [_ Hr]%elem_of_list_filter [s Hs]. rewrite Hs in Hr.
    unfold satisfies in Hr. simpl in Hr.
    apply andb_prop in Hr as [Hr _]. apply andb_prop in Hr as [Hr _].
    apply andb_prop in Hr as [Hr _]. by eapply field_equals_present.
  - intros r [_ Hr]%elem_of_list_filter [s Hs]. rewrite Hs in Hr.
    unfold satisfies in Hr. simpl in Hr.
    apply andb_prop in Hr as [Hr _]. apply andb_prop in Hr as [Hr _].
    apply andb_prop in Hr as [_ Hr]. by eapply field_equals_present.
  - intros r [_ Hr]%elem_of_list_filter [s Hs].
    pose proof (supplied_nonempty _ _ Hs) as Hne. rewrite Hs in Hr.
    unfold satisfies in Hr. simpl in Hr.
    apply andb_prop in Hr as [Hr _]. apply andb_prop in Hr as [_ Hr].
    destruct (r !! "timestamp") as [v|] eqn:E; [eauto|].
    rewrite (timestamp_of_absent r E), leb_empty_r in Hr; done.
  - intros r Hr E. rewrite elem_of_list_filter. unfold satisfies.
    rewrite (timestamp_of_absent r E).
    destruct (supplied end_) as [hi|]; simpl; rewrite ?leb_empty_l; tauto.
Qed.

Lemma query_filter_edge_cases_witness :
  let w := {| _inbox_a := 0; _inbox_b := 1;
              db := [sample_record "m-1" "s1" "2024-01-15T08:00:00+00:00";
                     {[ "message_id" := VStr "m-2"; "sensor_id" := VStr "s1" ]}] |} in
  timestamps_are_strings (db w) /\
  query w (Some "") (Some "s1") None (Some "2024-01-15T07:00:00+00:00")
    = Ok [{[ "message_id" := VStr "m-2"; "sensor_id" := VStr "s1" ]}] /\
  query w (Some "") (Some "s1") None (Some "2024-01-15T07:00:00+00:00")
    = query w None (Some "s1") None (Some "2024-01-15T07:00:00+00:00").
Proof.
  intros w.
  assert (Hts : timestamps_are_strings (db w)).
  { repeat constructor; intros v Hv; vm_compute in Hv; inversion Hv; eauto. }
  split; [exact Hts|]. split; [vm_compute; reflexivity|].
  exact (proj1 (query_filter_edge_cases w None (Some "s1") None
                  (Some "2024-01-15T07:00:00+00:00") Hts)).
Defined.

End writer_query.

(** ** Broker core: the store of queues *)

Section broker_core.
Import rabbitmq.

Lemma wf_new_broker : wf_broker new_broker.
Proof. split; simpl; intros *; rewrite ?lookup_empty; done. Qed.

Lemma contents_put_eq (h : list (list message)) (r : nat) (m : message) :
  (r < length h)%nat -> contents (put_nowait r m h) r = contents h r ++ [m].
Proof.
  intros Hr. unfold contents, put_nowait. rewrite list_lookup_alter_eq.
  destruct (lookup_lt_is_Some_2 h r Hr) as [q ->]. done.
Qed.

Lemma contents_put_ne (h : list (list message)) (r r' : nat) (m : message) :
  r <> r' -> contents (put_nowait r' m h) r = contents h r.
Proof.
  intros Hr. unfold contents, put_nowait. by rewrite list_lookup_alter_ne.
Qed.

Lemma length_put (h : list (list message)) (r : nat) (m : message) :
  length (put_nowait r m h) = length h.
Proof. apply length_alter. Qed.

Lemma contents_fresh (h : list (list message)) (r : nat) :
  contents (h ++ [[]]) r = contents h r.
Proof.
  unfold contents. destruct (decide (r < length h)%nat) as [Hlt|Hge].
  - by rewrite lookup_app_l.
  - rewrite lookup_app_r by lia. rewrite (lookup_ge_None_2 h r) by lia.
    by destruct (r - length h)%nat as [|[|n]].
Qed.

Lemma contents_insert_eq (h : list (list message)) (r : nat) (q : list message) :
  (r < length h)%nat -> contents (<[r := q]> h) r = q.
Proof. intros Hr. unfold contents. by rewrite list_lookup_insert_eq. Qed.

Lemma contents_insert_ne (h : list (list message)) (r r' : nat) (q : list message) :
  r <> r' -> contents (<[r' := q]> h) r = contents h r.
Proof. intros Hr. unfold contents. by rewrite list_lookup_insert_ne. Qed.

Lemma get_nowait_empty (h : list (list message)) (r : nat) :
  contents h r = [] -> get_nowait r h = (h, None).
Proof.
  unfold contents, get_nowait. destruct (h !! r) as [[|m q]|]; simpl; done.
Qed.

Lemma get_nowait_head (h : list (list message)) (r : nat) (m : message) (rest : list message) :
  contents h r = m :: rest -> get_nowait r h = (<[r := rest]> h, Some m).
Proof.
  unfold contents, get_nowait. destruct (h !! r) as [[|m' q]|]; simpl; [done| |done].
  by intros [= -> ->].
Qed.

Lemma contents_head_valid (h : list (list message)) (r : nat) (m : message) (rest : list message) :
  contents h r = m :: rest -> (r < length h)%nat.
Proof.
  unfold contents. intros H. apply lookup_lt_is_Some.
  destruct (h !! r); [eauto|done].
Qed.

(** What [publish_fanout]'s loop leaves in each queue of the store. *)
Lemma contents_fanout (rs : list nat) (m : message) (h : list (list message)) (r : nat) :
  NoDup rs -> (forall x, x ∈ rs -> (x < length h)%nat) ->
  contents (fold_left (fun h q => put_nowait q m h) rs h) r =
  if decide (r ∈ rs) then contents h r ++ [m] else contents h r.
Proof.
  intros Hnd. revert h. induction Hnd as [|x rs Hx Hnd IH]; intros h Hvalid; simpl.
  - done.
  - rewrite IH.
    2:{ intros y Hy. rewrite length_put. apply Hvalid. by right. }
    destruct (decide (r = x)) as [->|Hne].
    + rewrite contents_put_eq by (apply Hvalid; left).
      rewrite decide_False by done. rewrite decide_True by left. done.
    + rewrite contents_put_ne by done.
      destruct (decide (r ∈ rs)) as [Hin|Hnin].
      * rewrite decide_True by (by right). done.
      * rewrite decide_False; [done|]. rewrite elem_of_cons. tauto.
Qed.

Lemma length_fanout (rs : list nat) (m : message) (h : list (list message)) :
  length (fold_left (fun h q => put_nowait q m h) rs h) = length h.
Proof.
  revert h. induction rs as [|x rs IH]; intros h; simpl; [done|].
  by rewrite IH, length_put.
Qed.

(** Replacing the store by one of the same size keeps the tables well formed. *)
Lemma wf_same_length (b : InMemoryBroker) (h : list (list message)) :
  wf_broker b -> length h = length (heap b) ->
  wf_broker {| heap := h; _work_queues := _work_queues b; _fanout := _fanout b |}.
Proof.
  intros [H1 H2 H3 H4 H5 H6] Hlen. split; simpl; rewrite ?Hlen; eauto.
Qed.

Lemma wf_ensure (b : InMemoryBroker) (q : string) :
  wf_broker b -> wf_broker (ensure_work_queue b q).
Proof.
  intros Hwf. unfold ensure_work_queue.
  destruct (_work_queues b !! q) as [r|] eqn:E; [done|].
  destruct Hwf as [H1 H2 H3 H4 H5 H6]. split; simpl.
  - intros q' r'. rewrite length_app. simpl. rewrite lookup_insert.
    case_decide; [intros [= <-]; lia|]. intros H'%H1. lia.
  - intros t rs r' Ht Hr. rewrite length_app. simpl. pose proof (H2 _ _ _ Ht Hr). lia.
  - intros q1 q2 r'. rewrite !lookup_insert.
    repeat case_decide; subst; try done.
    + intros [= <-] H'%H1. lia.
    + intros H'%H1 [= <-]. lia.
    + eauto.
  - eauto.
  - eauto.
  - intros q' r' t rs. rewrite lookup_insert. case_decide.
    + intros [= <-] Ht Hin. pose proof (H2 _ _ _ Ht Hin). lia.
    + eauto.
Qed.

Lemma ensure_lookup (b : InMemoryBroker) (q : string) :
  exists r, _work_queues (ensure_work_queue b q) !! q = Some r.
Proof.
  unfold ensure_work_queue. destruct (_work_queues b !! q) as [r|] eqn:E; [eauto|].
  simpl. rewrite lookup_insert_eq. eauto.
Qed.

Lemma inbox_ensure (b : InMemoryBroker) (q : string) (r : nat) :
  inbox (ensure_work_queue b q) r = inbox b r.
Proof.
  unfold ensure_work_queue, inbox. destruct (_work_queues b !! q); [done|].
  simpl. apply contents_fresh.
Qed.

Lemma pending_ensure (b : InMemoryBroker) (q q' : string) :
  pending (ensure_work_queue b q) q' = pending b q'.
Proof.
  unfold pending, ensure_work_queue.
  destruct (_work_queues b !! q) as [r|] eqn:E; [done|].
  simpl. rewrite lookup_insert. case_decide as Hq.
  - subst q'. rewrite E. unfold inbox. simpl. rewrite contents_fresh.
    unfold contents. by rewrite lookup_ge_None_2.
  - destruct (_work_queues b !! q'); [|done]. unfold inbox. simpl. apply contents_fresh.
Qed.

Lemma fanout_ensure (b : InMemoryBroker) (q : string) :
  _fanout (ensure_work_queue b q) = _fanout b.
Proof. unfold ensure_work_queue. by destruct (_work_queues b !! q). Qed.

(** *** [publish_work] *)

Lemma publish_work_unfold (b : InMemoryBroker) (q : string) (m : message) :
  exists r0,
    _work_queues (ensure_work_queue b q) !! q = Some r0 /\
    publish_work b q m =
      {| heap := put_nowait r0 m (heap (ensure_work_queue b q));
         _work_queues := _work_queues (ensure_work_queue b q);
         _fanout := _fanout b |}.
Proof.
  destruct (ensure_lookup b q) as [r0 Hr0]. exists r0. split; [done|].
  unfold publish_work. simpl. rewrite Hr0. by rewrite fanout_ensure.
Qed.

Lemma wf_publish_work (b : InMemoryBroker) (q : string) (m : message) :
  wf_broker b -> wf_broker (publish_work b q m).
Proof.
  intros Hwf. destruct (publish_work_unfold b q m) as (r0 & _ & ->).
  rewrite <- (fanout_ensure b q).
  apply (wf_same_length (ensure_work_queue b q)); [by apply wf_ensure|apply length_put].
Qed.

Lemma pending_publish_work (b : InMemoryBroker) (q q' : string) (m : message) :
  wf_broker b ->
  pending (publish_work b q m) q' =
  if decide (q' = q) then pending b q ++ [m] else pending b q'.
Proof.
  intros Hwf. pose proof (wf_ensure b q Hwf) as Hwf1.
  destruct (publish_work_unfold b q m) as (r0 & Hr0 & ->).
  rewrite <- (pending_ensure b q q'), <- (pending_ensure b q q).
  unfold pending, inbox. simpl. case_decide as Hq.
  - subst q'. rewrite Hr0. apply contents_put_eq. by eapply wf_work_valid.
  - destruct (_work_queues (ensure_work_queue b q) !! q') as [r|] eqn:E; [|done].
    apply contents_put_ne. intros ->. apply Hq. by eapply (wf_work_inj _ Hwf1).
Qed.

Lemma subscribers_publish_work (b : InMemoryBroker) (q t : string) (m : message) :
  subscribers (publish_work b q m) t = subscribers b t.
Proof. by destruct (publish_work_unfold b q m) as (r0 & _ & ->). Qed.

Lemma inbox_publish_work (b : InMemoryBroker) (q t : string) (m : message) (r : nat) :
  wf_broker b -> r ∈ subscribers b t -> inbox (publish_work b q m) r = inbox b r.
Proof.
  intros Hwf Hr. pose proof (wf_ensure b q Hwf) as Hwf1.
  destruct (publish_work_unfold b q m) as (r0 & Hr0 & ->).
  rewrite <- (inbox_ensure b q r). unfold inbox. simpl.
  apply contents_put_ne. intros ->.
  unfold subscribers in Hr. rewrite <- (fanout_ensure b q) in Hr.
  destruct (_fanout (ensure_work_queue b q) !! t) as [rs|] eqn:E; [|inversion Hr].
  by eapply (wf_work_fan _ Hwf1).
Qed.

(** *** [consume_work] *)

Lemma consume_work_unfold (b : InMemoryBroker) (q : string) (timeout : num) :
  exists r0,
    _work_queues (ensure_work_queue b q) !! q = Some r0 /\
    consume_work b q timeout =
      ({| heap := (get_nowait r0 (heap (ensure_work_queue b q))).1;
          _work_queues := _work_queues (ensure_work_queue b q);
          _fanout := _fanout b |},
       (get_nowait r0 (heap (ensure_work_queue b q))).2).
Proof.
  destruct (ensure_lookup b q) as [r0 Hr0]. exists r0. split; [done|].
  unfold consume_work. simpl. rewrite Hr0, fanout_ensure.
  destruct (num_pos timeout); by destruct (get_nowait _ _).
Qed.

Lemma length_get_nowait (r : nat) (h : list (list message)) :
  length (get_nowait r h).1 = length h.
Proof.
  unfold get_nowait. destruct (h !! r) as [[|m q]|]; simpl; [done| |done].
  apply length_insert.
Qed.

Lemma contents_get_nowait_ne (r r' : nat) (h : list (list message)) :
  r <> r' -> contents (get_nowait r' h).1 r = contents h r.
Proof.
  intros Hne. unfold get_nowait. destruct (h !! r') as [[|m q]|]; simpl; [done| |done].
  by apply contents_insert_ne.
Qed.

Lemma wf_consume_work (b : InMemoryBroker) (q : string) (timeout : num) :
  wf_broker b -> wf_broker (consume_work b q timeout).1.
Proof.
  intros Hwf. destruct (consume_work_unfold b q timeout) as (r0 & _ & ->). simpl.
  rewrite <- (fanout_ensure b q).
  apply (wf_same_length (ensure_work_queue b q)); [by apply wf_ensure|apply length_get_nowait].
Qed.

(** The result of [consume_work] is the head of the queue, which it
    removes; on an empty queue it is [None] and nothing is pending after. *)
Lemma consume_work_head (b : InMemoryBroker) (q : string) (timeout : num) :
  wf_broker b ->
  match pending b q with
  | [] => (consume_work b q timeout).2 = None /\ pending (consume_work b q timeout).1 q = []
  | m :: rest =>
      (consume_work b q timeout).2 = Some m /\ pending (consume_work b q timeout).1 q = rest
  end.
Proof.
  intros Hwf. pose proof (wf_ensure b q Hwf) as Hwf1.
  destruct (consume_work_unfold b q timeout) as (r0 & Hr0 & ->). simpl.
  rewrite <- (pending_ensure b q q). unfold pending at 1. rewrite Hr0. unfold inbox.
  unfold pending. simpl. rewrite Hr0. unfold inbox. simpl.
  destruct (contents (heap (ensure_work_queue b q)) r0) as [|m rest] eqn:E.
  - rewrite (get_nowait_empty _ _ E). simpl. done.
  - rewrite (get_nowait_head _ _ _ _ E). simpl. split; [done|].
    apply contents_insert_eq. by eapply contents_head_valid.
Qed.

Lemma pending_consume_work_ne (b : InMemoryBroker) (q q' : string) (timeout : num) :
  wf_broker b -> q' <> q -> pending (consume_work b q timeout).1 q' = pending b q'.
Proof.
  intros Hwf Hq. pose proof (wf_ensure b q Hwf) as Hwf1.
  destruct (consume_work_unfold b q timeout) as (r0 & Hr0 & ->). simpl.
  rewrite <- (pending_ensure b q q'). unfold pending, inbox. simpl.
  destruct (_work_queues (ensure_work_queue b q) !! q') as [r|] eqn:E; [|done].
  apply contents_get_nowait_ne. intros ->. apply Hq. by eapply (wf_work_inj _ Hwf1).
Qed.

Lemma subscribers_consume_work (b : InMemoryBroker) (q t : string) (timeout : num) :
  subscribers (consume_work b q timeout).1 t = subscribers b t.
Proof. by destruct (consume_work_unfold b q timeout) as (r0 & _ & ->). Qed.

Lemma inbox_consume_work (b : InMemoryBroker) (q t : string) (timeout : num) (r : nat) :
  wf_broker b -> r ∈ subscribers b t -> inbox (consume_work b q timeout).1 r = inbox b r.
Proof.
  intros Hwf Hr. pose proof (wf_ensure b q Hwf) as Hwf1.
  destruct (consume_work_unfold b q timeout) as (r0 & Hr0 & ->). simpl.
  rewrite <- (inbox_ensure b q r). unfold inbox. simpl.
  apply contents_get_nowait_ne. intros ->.
  unfold subscribers in Hr. rewrite <- (fanout_ensure b q) in Hr.
  destruct (_fanout (ensure_work_queue b q) !! t) as [rs|] eqn:E; [|inversion Hr].
  by eapply (wf_work_fan _ Hwf1).
Qed.

(** *** Subscriptions *)

Lemma subscribers_nodup (b : InMemoryBroker) (t : string) :
  wf_broker b -> NoDup (subscribers b t).
Proof.
  intros Hwf. unfold subscribers. destruct (_fanout b !! t) as [rs|] eqn:E; simpl.
  - by eapply wf_fan_nodup.
  - constructor.
Qed.

Lemma subscribers_valid (b : InMemoryBroker) (t : string) (r : nat) :
  wf_broker b -> r ∈ subscribers b t -> (r < length (heap b))%nat.
Proof.
  intros Hwf. unfold subscribers. destruct (_fanout b !! t) as [rs|] eqn:E; simpl.
  - by eapply wf_fan_valid.
  - inversion 1.
Qed.

Lemma subscribers_disjoint (b : InMemoryBroker) (t1 t2 : string) (r : nat) :
  wf_broker b -> r ∈ subscribers b t1 -> r ∈ subscribers b t2 -> t1 = t2.
Proof.
  intros Hwf. unfold subscribers.
  destruct (_fanout b !! t1) as [rs1|] eqn:E1; simpl; [|inversion 1].
  destruct (_fanout b !! t2) as [rs2|] eqn:E2; simpl; [|inversion 2].
  by eapply wf_fan_disj.
Qed.

Lemma work_not_subscriber (b : InMemoryBroker) (q t : string) (r : nat) :
  wf_broker b -> _work_queues b !! q = Some r -> r ∉ subscribers b t.
Proof.
  intros Hwf Hq. unfold subscribers. destruct (_fanout b !! t) as [rs|] eqn:E; simpl.
  - by eapply wf_work_fan.
  - inversion 1.
Qed.

Lemma subscribers_subscribe (b : InMemoryBroker) (t t' : string) :
  subscribers (subscribe_fanout b t).1 t' =
  if decide (t' = t) then subscribers b t ++ [length (heap b)] else subscribers b t'.
Proof.
  unfold subscribers, subscribe_fanout. simpl. rewrite lookup_insert.
  case_decide as H1; case_decide as H2; simpl; congruence.
Qed.

Lemma inbox_subscribe (b : InMemoryBroker) (t : string) (r : nat) :
  inbox (subscribe_fanout b t).1 r = inbox b r.
Proof. apply contents_fresh. Qed.

Lemma pending_subscribe (b : InMemoryBroker) (t q : string) :
  pending (subscribe_fanout b t).1 q = pending b q.
Proof.
  unfold pending. simpl. destruct (_work_queues b !! q); [|done]. apply contents_fresh.
Qed.

Lemma wf_subscribe (b : InMemoryBroker) (t : string) :
  wf_broker b -> wf_broker (subscribe_fanout b t).1.
Proof.
  intros Hwf.
  assert (Hsub : forall t' rs, _fanout (subscribe_fanout b t).1 !! t' = Some rs ->
                  rs = subscribers (subscribe_fanout b t).1 t').
  { intros t' rs H. unfold subscribers. by rewrite H. }
  assert (Hin : forall t' r, r ∈ subscribers (subscribe_fanout b t).1 t' ->
                  r ∈ subscribers b t' \/ (t' = t /\ r = length (heap b))).
  { intros t' r. rewrite subscribers_subscribe. case_decide; [|tauto].
    subst t'. rewrite elem_of_app, list_elem_of_singleton. tauto. }
  split.
  - intros q r Hq. simpl in *. rewrite length_app. simpl.
    pose proof (wf_work_valid _ Hwf _ _ Hq). lia.
  - intros t' rs r Hrs Hr. rewrite (Hsub _ _ Hrs) in Hr.
    simpl. rewrite length_app. simpl.
    destruct (Hin _ _ Hr) as [Hold|[_ ->]]; [|lia].
    pose proof (subscribers_valid _ _ _ Hwf Hold). lia.
  - simpl. by eapply wf_work_inj.
  - intros t' rs Hrs. rewrite (Hsub _ _ Hrs), subscribers_subscribe.
    case_decide; [|by apply subscribers_nodup].
    apply NoDup_app. split; [by apply subscribers_nodup|].
    split; [|apply NoDup_singleton].
    intros r Hr ->%list_elem_of_singleton.
    pose proof (subscribers_valid _ _ _ Hwf Hr). lia.
  - intros t1 t2 rs1 rs2 r H1 H2 Hr1 Hr2.
    rewrite (Hsub _ _ H1) in Hr1. rewrite (Hsub _ _ H2) in Hr2.
    destruct (Hin _ _ Hr1) as [Ho1|[-> ->]], (Hin _ _ Hr2) as [Ho2|[E2 E2']].
    + by eapply subscribers_disjoint.
    + subst. pose proof (subscribers_valid _ _ _ Hwf Ho1). lia.
    + pose proof (subscribers_valid _ _ _ Hwf Ho2). lia.
    + done.
  - intros q r t' rs Hq Hrs Hr. rewrite (Hsub _ _ Hrs) in Hr. simpl in Hq.
    destruct (Hin _ _ Hr) as [Hold|[_ ->]].
    + by eapply work_not_subscriber.
    + pose proof (wf_work_valid _ Hwf _ _ Hq). lia.
Qed.

(** *** [publish_fanout] *)

Lemma wf_publish_fanout (b : InMemoryBroker) (t : string) (m : message) :
  wf_broker b -> wf_broker (publish_fanout b t m).
Proof. intros Hwf. apply wf_same_length; [done|apply length_fanout]. Qed.

(** Every inbox registered on the topic gets one copy at its tail; no
    other queue of the store changes. *)
Lemma inbox_publish_fanout (b : InMemoryBroker) (t : string) (m : message) (r : nat) :
  wf_broker b ->
  inbox (publish_fanout b t m) r =
  if decide (r ∈ subscribers b t) then inbox b r ++ [m] else inbox b r.
Proof.
  intros Hwf. unfold inbox, publish_fanout. simpl.
  apply contents_fanout; [by apply subscribers_nodup|].
  intros x. by apply subscribers_valid.
Qed.

Lemma subscribers_publish_fanout (b : InMemoryBroker) (t t' : string) (m : message) :
  subscribers (publish_fanout b t m) t' = subscribers b t'.
Proof. reflexivity. Qed.

Lemma pending_publish_fanout (b : InMemoryBroker) (t q : string) (m : message) :
  wf_broker b -> pending (publish_fanout b t m) q = pending b q.
Proof.
  intros Hwf. unfold pending. simpl.
  destruct (_work_queues b !! q) as [r|] eqn:E; [|done].
  rewrite inbox_publish_fanout by done.
  rewrite decide_False; [done|]. by eapply work_not_subscriber.
Qed.

End broker_core.

(** ** Broker core: histories of calls *)

Section broker_traces.
Import rabbitmq.


Lemma wf_step (b : InMemoryBroker) (c : call) : wf_broker b -> wf_broker (step b c).1.
Proof.
  intros Hwf. destruct c; simpl.
  - by apply wf_publish_work.
  - by apply wf_consume_work.
  - by apply wf_subscribe.
  - by apply wf_publish_fanout.
Qed.

Lemma wf_run (b : InMemoryBroker) (cs : list call) : wf_broker b -> wf_broker (run b cs).1.
Proof.
  revert b. induction cs as [|c cs IH]; intros b Hwf; simpl; [done|].
  apply IH. by apply wf_step.
Qed.

Lemma work_queue_depth_pending (b : InMemoryBroker) (q : string) :
  work_queue_depth b q = length (pending b q).
Proof. unfold work_queue_depth, pending. by destruct (_work_queues b !! q). Qed.







(** A subscriber's inbox after a history: what it held, then the
    messages published to its topic since, in order. *)
Lemma inbox_run (b : InMemoryBroker) (cs : list call) (t : string) (r : nat) :
  wf_broker b -> r ∈ subscribers b t ->
  inbox (run b cs).1 r = inbox b r ++ published_fanout t cs.
Proof.
  revert b. induction cs as [|c cs IH]; intros b Hwf Hr; simpl.
  - by rewrite app_nil_r.
  - assert (Hr' : r ∈ subscribers (step b c).1 t).
    { destruct c as [q' m|who q' timeout|t'|t' m]; unfold step; cbn [fst].
      - by rewrite subscribers_publish_work.
      - by rewrite subscribers_consume_work.
      - rewrite subscribers_subscribe. case_decide; [|done]. subst.
        apply elem_of_app. by left.
      - done. }
    rewrite (IH _ (wf_step b c Hwf) Hr'). unfold published_fanout. simpl.
    destruct c as [q' m|who q' timeout|t'|t' m]; unfold step; cbn [fst].
    + by rewrite (inbox_publish_work b q' t m r Hwf Hr).
    + by rewrite (inbox_consume_work b q' t timeout r Hwf Hr).
    + by rewrite inbox_subscribe.
    + rewrite inbox_publish_fanout by done.
      destruct (decide (t' = t)) as [->|Hne].
      * rewrite decide_True by done. simpl. by rewrite <- app_assoc.
      * rewrite decide_False; [done|]. intros Hr2. apply Hne.
        by eapply subscribers_disjoint.
Qed.

(** C5, as stated, fails: [purge_all] does not keep the subscriber count. *)
Lemma purge_all_keeps_subscriptions_fails :
  ~ (forall b t, wf_broker b ->
       fanout_subscriber_count (purge_all b) t = fanout_subscriber_count b t).
Proof.
  intros H.
  specialize (H (subscribe_fanout new_broker FEATURES_A).1 FEATURES_A
                (wf_subscribe _ _ wf_new_broker)).
  vm_compute in H. discriminate.
Qed.

Lemma wf_purge_all (b : InMemoryBroker) : wf_broker (purge_all b).
Proof. split; simpl; intros *; rewrite ?lookup_empty; done. Qed.

(** C5, amended.  After [purge_all], whatever the broker held: every work
    queue has depth 0 and every topic has 0 subscribers; the queue objects
    themselves keep their items; a later publish reaches none of them, so an
    inbox registered before the purge receives nothing more; and an inbox
    registered after the purge receives what is published after it. *)
Theorem purge_all_clears_queues_and_subscriptions (b : InMemoryBroker) (q t : string)
    (m : message) (r : nat) :
  work_queue_depth (purge_all b) q = 0%nat /\
  fanout_subscriber_count (purge_all b) t = 0%nat /\
  inbox (purge_all b) r = inbox b r /\
  publish_fanout (purge_all b) t m = purge_all b /\
  inbox (publish_fanout (subscribe_fanout (purge_all b) t).1 t m)
        (subscribe_fanout (purge_all b) t).2 = [m].
Proof.
  split; [reflexivity|]. split; [reflexivity|]. split; [reflexivity|].
  split; [reflexivity|].
  assert (Hr : (subscribe_fanout (purge_all b) t).2
                 ∈ subscribers (subscribe_fanout (purge_all b) t).1 t).
  { rewrite subscribers_subscribe, decide_True by done.
    apply elem_of_app. right. by apply list_elem_of_singleton. }
  rewrite inbox_publish_fanout by (apply wf_subscribe, wf_purge_all).
  rewrite decide_True by exact Hr.
  rewrite inbox_subscribe. unfold inbox, contents. simpl.
  by rewrite lookup_ge_None_2.
Qed.

Lemma wf_run_events (b : InMemoryBroker) (es : list event) :
  wf_broker b -> wf_broker (run_events b es).
Proof.
  revert b. induction es as [|[c|] es IH]; intros b Hwf; cbn [run_events]; [done| |].
  - apply IH. by apply wf_step.
  - apply IH. apply wf_purge_all.
Qed.

Lemma subscribers_step (b : InMemoryBroker) (c : call) (t : string) (r : nat) :
  r ∈ subscribers b t -> r ∈ subscribers (step b c).1 t.
Proof.
  intros Hr. destruct c as [q' m|who q' timeout|t'|t' m]; unfold step; cbn [fst].
  - by rewrite subscribers_publish_work.
  - by rewrite subscribers_consume_work.
  - rewrite subscribers_subscribe. case_decide; [|done]. subst.
    apply elem_of_app. by left.
  - done.
Qed.

Lemma detached_ensure (b : InMemoryBroker) (q : string) (r : nat) :
  detached b r -> detached (ensure_work_queue b q) r.
Proof.
  intros (Hlt & Hw & Hf). unfold ensure_work_queue.
  destruct (_work_queues b !! q) as [r0|] eqn:E; [done|].
  split; [|split]; cbn [heap _work_queues].
  - rewrite length_app. simpl. lia.
  - intros q'. rewrite lookup_insert. case_decide; [|apply Hw].
    intros [= Heq]. lia.
  - exact Hf.
Qed.

(** A call leaves a detached queue object detached and as it is. *)
Lemma detached_step (b : InMemoryBroker) (c : call) (r : nat) :
  wf_broker b -> detached b r ->
  detached (step b c).1 r /\ inbox (step b c).1 r = inbox b r.
Proof.
  intros Hwf Hd. pose proof Hd as (Hlt & Hw & Hf).
  destruct c as [q m|who q timeout|t|t m]; unfold step; cbn [fst].
  - pose proof (detached_ensure b q r Hd) as (Hlt1 & Hw1 & Hf1).
    destruct (publish_work_unfold b q m) as (r0 & Hr0 & ->).
    assert (Hne : r <> r0) by (intros ->; by apply (Hw1 q)).
    split.
    + split; [|split]; cbn [heap _work_queues].
      * by rewrite length_put.
      * exact Hw1.
      * exact Hf.
    + rewrite <- (inbox_ensure b q r). unfold inbox. cbn [heap].
      by apply contents_put_ne.
  - pose proof (detached_ensure b q r Hd) as (Hlt1 & Hw1 & Hf1).
    destruct (consume_work_unfold b q timeout) as (r0 & Hr0 & ->). cbn [fst].
    assert (Hne : r <> r0) by (intros ->; by apply (Hw1 q)).
    split.
    + split; [|split]; cbn [heap _work_queues].
      * by rewrite length_get_nowait.
      * exact Hw1.
      * exact Hf.
    + rewrite <- (inbox_ensure b q r). unfold inbox. cbn [heap].
      by apply contents_get_nowait_ne.
  - split; [|apply inbox_subscribe].
    split; [|split].
    + unfold subscribe_fanout. cbn [fst heap]. rewrite length_app. simpl. lia.
    + exact Hw.
    + intros t'. rewrite subscribers_subscribe. case_decide; [|apply Hf].
      intros [Hin|Hin%list_elem_of_singleton]%elem_of_app; [by apply (Hf t)|lia].
  - split.
    + split; [|split]; cbn [publish_fanout heap _work_queues].
      * by rewrite length_fanout.
      * exact Hw.
      * exact Hf.
    + rewrite (inbox_publish_fanout b t m r Hwf). rewrite decide_False; [done|apply Hf].
Qed.

(** Once detached, a queue object is never written to or read from again. *)
Lemma detached_run_events (b : InMemoryBroker) (es : list event) (r : nat) :
  wf_broker b -> detached b r -> inbox (run_events b es) r = inbox b r.
Proof.
  revert b. induction es as [|[c|] es IH]; intros b Hwf Hd; cbn [run_events]; [done| |].
  - destruct (detached_step b c r Hwf Hd) as [Hd' Hi].
    rewrite (IH _ (wf_step b c Hwf) Hd'). exact Hi.
  - destruct Hd as (Hlt & _ & _).
    rewrite (IH (purge_all b) (wf_purge_all b)); [done|].
    split; [exact Hlt|]. split.
    + intros q. cbn. by rewrite lookup_empty.
    + intros t. unfold subscribers. cbn. rewrite lookup_empty. cbn. by apply not_elem_of_nil.
Qed.

(** [purge_all] detaches every queue object of the store. *)
Lemma detached_purge_all (b : InMemoryBroker) (r : nat) :
  (r < length (heap b))%nat -> detached (purge_all b) r.
Proof.
  intros Hlt. split; [exact Hlt|]. split.
  - intros q. cbn. by rewrite lookup_empty.
  - intros t. unfold subscribers. cbn. rewrite lookup_empty. cbn. by apply not_elem_of_nil.
Qed.

(** A subscriber's inbox after a history: what it held, then the messages
    published to its topic up to the first [purge_all], in order. *)
Lemma inbox_run_events (b : InMemoryBroker) (es : list event) (t : string) (r : nat) :
  wf_broker b -> r ∈ subscribers b t ->
  inbox (run_events b es) r = inbox b r ++ published_fanout t (until_purge es).
Proof.
  revert b. induction es as [|[c|] es IH]; intros b Hwf Hr; cbn [run_events until_purge].
  - by rewrite app_nil_r.
  - rewrite (IH _ (wf_step b c Hwf) (subscribers_step b c t r Hr)).
    pose proof (inbox_run b [c] t r Hwf Hr) as H1. cbn [run fst] in H1. rewrite H1.
    rewrite <- app_assoc. f_equal. unfold published_fanout. simpl.
    destruct c as [q' m|who q' timeout|t'|t' m]; try done. by case_decide.
  - rewrite (detached_run_events (purge_all b) es r (wf_purge_all b)).
    + by rewrite app_nil_r.
    + apply detached_purge_all. by eapply subscribers_valid.
Qed.

(** C3, amended.  On a broker with well-formed tables, after any history
    [before] of calls and purges: an inbox registered on a topic holds,
    after any further history, exactly the messages published to that
    topic since the registration and before the next [purge_all], one copy
    each, in publication order, and nothing published before the
    registration or after that purge; one [publish_fanout] appends one
    copy to every inbox registered on the topic at that time and changes
    no other queue; and publishing to a topic without subscribers changes
    nothing. *)
Theorem fanout_delivery (b0 : InMemoryBroker) (before after : list event) (t : string) :
  wf_broker b0 ->
  let b := run_events b0 before in
  let r := (subscribe_fanout b t).2 in
  let b' := run_events (subscribe_fanout b t).1 after in
  inbox b' r = published_fanout t (until_purge after) /\
  (forall t' m r',
     inbox (publish_fanout b t' m) r' =
     if decide (r' ∈ subscribers b t') then inbox b r' ++ [m] else inbox b r') /\
  (forall t' m, fanout_subscriber_count b t' = 0%nat -> publish_fanout b t' m = b).
Proof.
  intros Hwf0 b r b'.
  assert (Hwf : wf_broker b) by (by apply wf_run_events).
  split; [|split].
  - subst b'. rewrite (inbox_run_events _ after t r).
    + rewrite inbox_subscribe. unfold inbox, contents, r. simpl.
      by rewrite lookup_ge_None_2.
    + by apply wf_subscribe.
    + rewrite subscribers_subscribe, decide_True by done.
      apply elem_of_app. right. by apply list_elem_of_singleton.
  - intros t' m r'. by apply inbox_publish_fanout.
  - intros t' m Hcount. unfold publish_fanout, fanout_subscriber_count in *.
    destruct (default [] (_fanout b !! t')); [|done]. simpl. by destruct b.
Qed.

Lemma fanout_delivery_witness :
  let m1 := sample_record "f-1" "s1" "t1" in
  let m2 := sample_record "f-2" "s1" "t2" in
  let m3 := sample_record "f-3" "s1" "t3" in
  let m4 := sample_record "f-4" "s1" "t4" in
  let b := run_events new_broker [Call (PublishFanout FEATURES_A m1)] in
  wf_broker new_broker /\
  inbox (run_events (subscribe_fanout b FEATURES_A).1
           [Call (PublishFanout FEATURES_A m2); Call (PublishFanout FEATURES_B m1);
            Call (PublishFanout FEATURES_A m3); PurgeAll;
            Call (PublishFanout FEATURES_A m4)])
        (subscribe_fanout b FEATURES_A).2 = [m2; m3].
Proof.
  intros m1 m2 m3 m4 b. split; [exact wf_new_broker|].
  exact (proj1 (fanout_delivery new_broker [Call (PublishFanout FEATURES_A m1)]
                  [Call (PublishFanout FEATURES_A m2); Call (PublishFanout FEATURES_B m1);
                   Call (PublishFanout FEATURES_A m3); PurgeAll;
                   Call (PublishFanout FEATURES_A m4)] FEATURES_A wf_new_broker)).
Defined.

(** C3, as stated, fails: a subscriber whose [subscribe_fanout] completed
    before a publish does not receive it when a [purge_all] came between. *)
Lemma fanout_delivery_lost_across_purge :
  ~ (forall (b0 : InMemoryBroker) (before after : list event) (t : string),
       wf_broker b0 ->
       inbox (run_events (subscribe_fanout (run_events b0 before) t).1 after)
             (subscribe_fanout (run_events b0 before) t).2
       = published_fanout t (calls_of after)).
Proof.
  intros H.
  specialize (H new_broker [] [PurgeAll; Call (PublishFanout FEATURES_A (sample_record "f-1" "s1" "t1"))] FEATURES_A
                wf_new_broker).
  vm_compute in H. discriminate.
Qed.

End broker_traces.

(** ** Stage processors: validation *)

Section stage_validation.
Context `{!PyRuntime}.

Lemma missing_fields_nil (required : list string) (m : message) :
  missing_fields required m = [] <-> ~ lacks_required required m.
Proof.
  unfold missing_fields, lacks_required, has_key. induction required as [|k ks IH]; simpl.
  - split; [|done]. intros _ (k & Hk & _). inversion Hk.
  - destruct (m !! k) as [v|] eqn:E; simpl.
    + rewrite IH. split.
      * intros Hn (k' & [->|Hk']%elem_of_cons & Hnone); [congruence|]. apply Hn. eauto.
      * intros Hn (k' & Hk' & Hnone). apply Hn. exists k'. split; [by right|done].
    + split; [done|]. intros Hn. destruct Hn. exists k. split; [by left|done].
Qed.

Lemma missing_fields_cons (required : list string) (m : message) :
  (exists k ks, missing_fields required m = k :: ks) <-> lacks_required required m.
Proof.
  pose proof (missing_fields_nil required m) as Hnil.
  destruct (missing_fields required m) as [|k ks] eqn:E.
  - split; [intros (? & ? & ?); done|]. intros Hl. by apply Hnil in Hl.
  - split; [|eauto]. intros _.
    unfold lacks_required. clear Hnil. revert E. unfold missing_fields, has_key.
    induction required as [|k' ks' IH]; simpl; [done|].
    destruct (m !! k') as [v|] eqn:E'; simpl.
    + intros (k'' & Hk'' & Hn)%IH. exists k''. split; [by right|done].
    + intros _. exists k'. split; [by left|done].
Qed.

Lemma lacks_required_dec (required : list string) (m : message) :
  lacks_required required m \/ ~ lacks_required required m.
Proof.
  destruct (missing_fields required m) as [|k ks] eqn:E.
  - right. by apply missing_fields_nil.
  - left. apply missing_fields_cons. eauto.
Qed.

Lemma py_eq_VStr (v : value) (s : string) : py_eq v (VStr s) = true <-> v = VStr s.
Proof.
  destruct v; simpl; try (split; [done|congruence]).
  rewrite bool_decide_eq_true. split; congruence.
Qed.

(** Stage A's validation, case by case. *)
Lemma validate_a_cases (m : message) :
  match algorithm_a._validate m with
  | Ok _ =>
      ~ lacks_required algorithm_a._REQUIRED_FIELDS m /\
      exists audio ts, m !! "audio_data" = Some audio /\ py_truthy audio = true /\
                       m !! "timestamp" = Some ts /\ algorithm_a.timestamp_ok ts = true
  | Raise e =>
      e = ValueError /\
      (lacks_required algorithm_a._REQUIRED_FIELDS m \/
       (exists audio, m !! "audio_data" = Some audio /\ py_truthy audio = false) \/
       (exists ts, m !! "timestamp" = Some ts /\ algorithm_a.timestamp_ok ts = false))
  end.
Proof.
  unfold algorithm_a._validate.
  destruct (missing_fields algorithm_a._REQUIRED_FIELDS m) as [|k ks] eqn:E.
  - apply missing_fields_nil in E as Hall.
    assert (Hkey : forall k, k ∈ algorithm_a._REQUIRED_FIELDS -> is_Some (m !! k)).
    { intros k Hk. destruct (m !! k) eqn:Ek; [eauto|]. destruct Hall. by exists k. }
    destruct (Hkey "audio_data") as [audio Ha]; [set_solver|].
    destruct (Hkey "timestamp") as [ts Ht]; [set_solver|].
    unfold getitem. rewrite Ha, Ht. simpl.
    destruct (py_truthy audio) eqn:Etruthy; simpl.
    + destruct (algorithm_a.timestamp_ok ts) eqn:Ets.
      * split; [done|]. eauto 10.
      * split; [done|]. right. right. eauto.
    + split; [done|]. right. left. eauto.
  - split; [done|]. left. apply missing_fields_cons. eauto.
Qed.

(** Stage B's validation, case by case. *)
Lemma validate_b_cases (m : message) :
  match algorithm_b._validate m with
  | Ok _ => ~ lacks_required algorithm_b._REQUIRED_FIELDS m /\
            m !! "feature_type" = Some (VStr "A")
  | Raise e =>
      (e = ValueError /\ lacks_required algorithm_b._REQUIRED_FIELDS m) \/
      (e = TypeError /\ ~ lacks_required algorithm_b._REQUIRED_FIELDS m /\
       m !! "feature_type" <> Some (VStr "A"))
  end.
Proof.
  unfold algorithm_b._validate.
  destruct (missing_fields algorithm_b._REQUIRED_FIELDS m) as [|k ks] eqn:E.
  - apply missing_fields_nil in E as Hall.
    assert (Hft : is_Some (m !! "feature_type")).
    { destruct (m !! "feature_type") eqn:Ek; [eauto|]. destruct Hall.
      exists "feature_type". split; [set_solver|done]. }
    destruct Hft as [ft Hft]. unfold dict_get. rewrite Hft. simpl.
    destruct (py_eq ft (VStr "A")) eqn:Eeq; simpl.
    + apply py_eq_VStr in Eeq. subst. done.
    + right. split; [done|]. split; [done|]. intros [= ->]. simpl in Eeq. done.
  - left. split; [done|]. apply missing_fields_cons. eauto.
Qed.

End stage_validation.

(** ** Stage processors: errors, frame and determinism *)

Section stage_process.
Context `{!PyRuntime}.

Lemma without_fresh_record (id source ft sensor ts now features : value) :
  without_fresh {[ "message_id" := id; "source_message_id" := source;
                   "feature_type" := ft; "sensor_id" := sensor; "timestamp" := ts;
                   "processed_at" := now; "features" := features ]}
  = {[ "source_message_id" := source; "feature_type" := ft; "sensor_id" := sensor;
       "timestamp" := ts; "features" := features ]}.
Proof.
  unfold without_fresh.
  rewrite !(delete_insert_ne _ "processed_at") by done.
  rewrite (delete_insert_eq _ "processed_at").
  rewrite (delete_singleton_ne "processed_at") by done.
  rewrite (delete_insert_eq _ "message_id").
  rewrite !(delete_insert_ne _ "message_id") by done.
  by rewrite (delete_singleton_ne "message_id").
Qed.

(** [process] raises whatever [_validate] raises, before any draw. *)
Lemma process_a_rejects (st : system) (m : message) (e : exn) :
  algorithm_a._validate m = Raise e -> algorithm_a.process st m = (st, Raise e).
Proof. intros Hv. unfold algorithm_a.process. by rewrite Hv. Qed.

Lemma process_b_rejects (st : system) (m : message) (e : exn) :
  algorithm_b._validate m = Raise e -> algorithm_b.process st m = (st, Raise e).
Proof. intros Hv. unfold algorithm_b.process. by rewrite Hv. Qed.

(** [process] never touches the broker or the writer. *)
Lemma process_a_frame (st : system) (m : message) :
  broker (algorithm_a.process st m).1 = broker st /\
  writer (algorithm_a.process st m).1 = writer st.
Proof. unfold algorithm_a.process. by destruct (algorithm_a._validate m). Qed.

Lemma process_b_frame (st : system) (m : message) :
  broker (algorithm_b.process st m).1 = broker st /\
  writer (algorithm_b.process st m).1 = writer st.
Proof. unfold algorithm_b.process. by destruct (algorithm_b._validate m). Qed.


(** C9.  Two calls of a stage's [process] on the same input, in any two
    states of the system (so with different identifiers and clock
    readings): both raise the same exception, or both return records that
    agree on every field but [message_id] and [processed_at]; in
    particular the [features] payloads are the same. *)
Theorem process_deterministic (st1 st2 : system) (m : message) :
  result_map without_fresh (algorithm_a.process st1 m).2
    = result_map without_fresh (algorithm_a.process st2 m).2 /\
  result_map (fun r : message => r !! "features") (algorithm_a.process st1 m).2
    = result_map (fun r : message => r !! "features") (algorithm_a.process st2 m).2 /\
  result_map without_fresh (algorithm_b.process st1 m).2
    = result_map without_fresh (algorithm_b.process st2 m).2 /\
  result_map (fun r : message => r !! "features") (algorithm_b.process st1 m).2
    = result_map (fun r : message => r !! "features") (algorithm_b.process st2 m).2.
Proof.
  unfold algorithm_a.process, algorithm_b.process.
  destruct (algorithm_a._validate m), (algorithm_b._validate m); simpl;
    repeat match goal with
           | |- context [getitem ?d ?k] => destruct (getitem d k); simpl
           | |- context [algorithm_a._extract_features ?v] =>
               destruct (algorithm_a._extract_features v); simpl
           | |- context [algorithm_b._derive_features ?v] =>
               destruct (algorithm_b._derive_features v); simpl
           end;
    rewrite ?without_fresh_record; done.
Qed.

End stage_process.

(** ** Stage processors: lineage *)

Section stage_lineage.
Context {rt : PyRuntime}.

Lemma extract_features_ok (s : string) (raw : list Z) :
  b64decode (s +:+ "==") = Ok raw ->
  algorithm_a._extract_features (VStr s) = Ok (stage_a_features (seed_of raw)).
Proof.
  intros Hraw. unfold algorithm_a._extract_features. cbn [mbind result_bind].
  by rewrite Hraw.
Qed.

Lemma validate_a_fields (m : message) :
  algorithm_a._validate m = Ok tt ->
  exists source sensor ts audio,
    m !! "message_id" = Some source /\ m !! "sensor_id" = Some sensor /\
    m !! "timestamp" = Some ts /\ m !! "audio_data" = Some audio.
Proof.
  intros Hv. pose proof (validate_a_cases m) as Hc. rewrite Hv in Hc.
  destruct Hc as [Hall _].
  assert (Hkey : forall k, k ∈ algorithm_a._REQUIRED_FIELDS -> is_Some (m !! k)).
  { intros k Hk. destruct (m !! k) eqn:Ek; [eauto|]. destruct Hall. by exists k. }
  destruct (Hkey "message_id") as [? ?]; [set_solver|].
  destruct (Hkey "sensor_id") as [? ?]; [set_solver|].
  destruct (Hkey "timestamp") as [? ?]; [set_solver|].
  destruct (Hkey "audio_data") as [? ?]; [set_solver|].
  eauto 10.
Qed.

(** What Stage A returns for a message it accepts. *)
Lemma process_a_accepts (st : system) (m : message) (audio features : value) :
  algorithm_a._validate m = Ok tt ->
  m !! "audio_data" = Some audio ->
  algorithm_a._extract_features audio = Ok features ->
  exists source sensor ts,
    m !! "message_id" = Some source /\ m !! "sensor_id" = Some sensor /\
    m !! "timestamp" = Some ts /\
    algorithm_a.process st m =
      ({| broker := broker st; writer := writer st; draws := S (draws st) |},
       Ok (feature_record (VStr (uuid4 (draws st))) source (VStr "A") sensor ts
             (VStr (utcnow_isoformat (draws st))) features)).
Proof.
  intros Hv Haudio Hf.
  destruct (validate_a_fields m Hv) as (source & sensor & ts & audio' & H1 & H2 & H3 & H4).
  exists source, sensor, ts. do 3 (split; [done|]).
  unfold algorithm_a.process. rewrite Hv. unfold getitem.
  rewrite H1, H2, H3, Haudio. cbn [mbind result_bind]. by rewrite Hf.
Qed.

Lemma validate_b_feature_record (id source sensor ts now features : value) :
  algorithm_b._validate (feature_record id source (VStr "A") sensor ts now features) = Ok tt.
Proof. reflexivity. Qed.

(** What Stage B returns for a Stage-A record whose payload it can derive from. *)
Lemma process_b_accepts (st : system) (id source sensor ts now features derived : value) :
  algorithm_b._derive_features
    (feature_record id source (VStr "A") sensor ts now features) = Ok derived ->
  algorithm_b.process st (feature_record id source (VStr "A") sensor ts now features) =
    ({| broker := broker st; writer := writer st; draws := S (draws st) |},
     Ok (feature_record (VStr (uuid4 (draws st))) id (VStr "B") sensor ts
           (VStr (utcnow_isoformat (draws st))) derived)).
Proof.
  intros Hd. unfold algorithm_b.process. rewrite validate_b_feature_record.
  rewrite Hd. reflexivity.
Qed.

Lemma omap_as_num_floats (xs : list spec_float) :
  omap as_num (map VFloat xs) = map NFloat xs.
Proof. induction xs as [|x xs IH]; [done|]. simpl. f_equal. exact IH. Qed.

Lemma sum_scan_floats (xs : list spec_float) :
  algorithm_b.sum_scan None (map VFloat xs) = Ok None.
Proof. induction xs as [|x xs IH]; [done|]. exact IH. Qed.

Lemma mean_of_floats (xs : list spec_float) :
  xs <> [] ->
  algorithm_b.mean_of (VList (map VFloat xs)) =
  Ok (NFloat (f_div (float_sum (map NFloat xs)) (float_of_Z (Z.of_nat (length xs))))).
Proof.
  intros Hne. destruct xs as [|x xs]; [done|].
  unfold algorithm_b.mean_of, algorithm_b.py_sum.
  simpl py_truthy. cbn [negb].
  change (algorithm_b.sum_scan (Some 0%Z) (map VFloat (x :: xs)))
    with (algorithm_b.sum_scan None (map VFloat xs)).
  rewrite sum_scan_floats. cbn [mbind result_bind].
  by rewrite omap_as_num_floats, length_map.
Qed.

Lemma int_of_float_finite (x : spec_float) :
  f_is_finite x = true -> exists z, int_of_float (SFabs x) = Ok z.
Proof. destruct x; simpl; [eauto|done|done|eauto]. Qed.

Lemma classification_defined (z : Z) :
  exists name,
    algorithm_b._CLASSIFICATIONS
      !! Z.to_nat (z mod Z.of_nat (length algorithm_b._CLASSIFICATIONS)) = Some name.
Proof.
  apply lookup_lt_is_Some_2. simpl.
  pose proof (Z.mod_pos_bound z 5 ltac:(lia)). lia.
Qed.

Lemma feature_record_features (id source ft sensor ts now features : value) :
  getitem (feature_record id source ft sensor ts now features) "features" = Ok features.
Proof. reflexivity. Qed.

Lemma payload_lookups (mfcc centroid zcr energy dflt : value) :
  let d : message := {[ "mfcc" := mfcc; "spectral_centroid" := centroid;
                        "zero_crossing_rate" := zcr; "rms_energy" := energy ]} in
  dict_get_default d "mfcc" dflt = mfcc /\
  dict_get_default d "spectral_centroid" dflt = centroid /\
  dict_get_default d "rms_energy" dflt = energy.
Proof. done. Qed.

(** Stage B derives a payload from every Stage-A payload whose class
    product is finite: all other steps of the derivation are total. *)
Lemma derive_stage_a (id source sensor ts now : value) (seed : Z) :
  f_is_finite (class_product seed) = true ->
  exists derived,
    algorithm_b._derive_features
      (feature_record id source (VStr "A") sensor ts now (stage_a_features seed)) = Ok derived.
Proof.
  intros Hfin. unfold algorithm_b._derive_features.
  rewrite feature_record_features. unfold stage_a_features. cbn [mbind result_bind].
  match goal with
  | |- context [dict_get_default ?d "mfcc" ?x] =>
      destruct (payload_lookups (VList (map VFloat (stage_a_mfcc seed)))
                  (VFloat (stage_a_centroid seed))
                  (VFloat (round_float (f_add (f_lit 5 100)
                     (f_div (float_of_Z (seed mod 50)) (float_of_Z 1000))) 4))
                  (VFloat (round_float (f_add (f_lit 1 10)
                     (f_div (float_of_Z (seed mod 100)) (float_of_Z 1000))) 4)) x) as (E1 & _ & _)
  end.
  rewrite E1. clear E1.
  match goal with
  | |- context [dict_get_default ?d "spectral_centroid" ?x] =>
      destruct (payload_lookups (VList (map VFloat (stage_a_mfcc seed)))
                  (VFloat (stage_a_centroid seed))
                  (VFloat (round_float (f_add (f_lit 5 100)
                     (f_div (float_of_Z (seed mod 50)) (float_of_Z 1000))) 4))
                  (VFloat (round_float (f_add (f_lit 1 10)
                     (f_div (float_of_Z (seed mod 100)) (float_of_Z 1000))) 4)) x) as (_ & E2 & _)
  end.
  rewrite E2. clear E2.
  match goal with
  | |- context [dict_get_default ?d "rms_energy" ?x] =>
      destruct (payload_lookups (VList (map VFloat (stage_a_mfcc seed)))
                  (VFloat (stage_a_centroid seed))
                  (VFloat (round_float (f_add (f_lit 5 100)
                     (f_div (float_of_Z (seed mod 50)) (float_of_Z 1000))) 4))
                  (VFloat (round_float (f_add (f_lit 1 10)
                     (f_div (float_of_Z (seed mod 100)) (float_of_Z 1000))) 4)) x) as (_ & _ & E3)
  end.
  rewrite E3. clear E3.
  rewrite mean_of_floats by done.
  cbn [mbind result_bind algorithm_b.number as_num num_mul float_of_num num_abs int_of_num].
  change (Z.of_nat (length (stage_a_mfcc seed))) with 13%Z.
  fold (class_product seed).
  destruct (int_of_float_finite _ Hfin) as [z ->]. cbn [mbind result_bind].
  destruct (classification_defined z) as [name ->]. cbn [mbind result_bind].
  change (float_of_int 10) with (Ok (A := spec_float) (float_of_Z 10)).
  cbn [mbind result_bind]. eauto.
Qed.

(** C8.  For an Audio message that passes Stage A's validation and whose
    [audio_data] is a string the base64 decoder accepts, Stage A returns a
    record with [feature_type] ["A"], the input's [message_id] as
    [source_message_id], and the input's [sensor_id] and [timestamp];
    Stage B, in any state of the system, returns for that record a record
    with [feature_type] ["B"], the Stage-A record's [message_id] as
    [source_message_id], and the same [sensor_id] and [timestamp].  The
    float library is a parameter: Stage B's [int(...)] needs the class
    product of the payload to be finite, which is assumed of it. *)
Theorem lineage_propagation (st st' : system) (m : message) (s : string) (raw : list Z) :
  algorithm_a._validate m = Ok tt ->
  m !! "audio_data" = Some (VStr s) ->
  b64decode (s +:+ "==") = Ok raw ->
  f_is_finite (class_product (seed_of raw)) = true ->
  exists ra rb,
    (algorithm_a.process st m).2 = Ok ra /\
    ra !! "feature_type" = Some (VStr "A") /\
    ra !! "source_message_id" = m !! "message_id" /\
    ra !! "sensor_id" = m !! "sensor_id" /\
    ra !! "timestamp" = m !! "timestamp" /\
    (algorithm_b.process st' ra).2 = Ok rb /\
    rb !! "feature_type" = Some (VStr "B") /\
    rb !! "source_message_id" = ra !! "message_id" /\
    rb !! "sensor_id" = m !! "sensor_id" /\
    rb !! "timestamp" = m !! "timestamp".
Proof.
  intros Hv Haudio Hraw Hfin.
  destruct (process_a_accepts st m _ _ Hv Haudio (extract_features_ok s raw Hraw))
    as (source & sensor & ts & H1 & H2 & H3 & Hpa).
  destruct (derive_stage_a (VStr (uuid4 (draws st))) source sensor ts
              (VStr (utcnow_isoformat (draws st))) (seed_of raw) Hfin) as [derived Hd].
  pose proof (process_b_accepts st' _ _ _ _ _ _ _ Hd) as Hpb.
  eexists _, _. rewrite Hpa, Hpb, H1, H2, H3. cbn [snd].
  repeat split; reflexivity.
Qed.

End stage_lineage.

Lemma lineage_propagation_witness :
  let m := sample_audio "audio-1" in
  @algorithm_a._validate sample_runtime m = Ok tt /\
  f_is_finite (@class_product sample_runtime
                 (seed_of [116; 101; 115; 116; 97; 117; 100; 105; 111; 100; 97; 116; 97]%Z))
    = true /\
  exists ra rb,
    (@algorithm_a.process sample_runtime empty_system m).2 = Ok ra /\
    (@algorithm_b.process sample_runtime empty_system ra).2 = Ok rb /\
    rb !! "source_message_id" = ra !! "message_id" /\
    rb !! "sensor_id" = Some (VStr "sensor-01").
Proof.
  intros m.
  assert (Hv : @algorithm_a._validate sample_runtime m = Ok tt) by (vm_compute; reflexivity).
  assert (Hfin : f_is_finite (@class_product sample_runtime
                   (seed_of [116; 101; 115; 116; 97; 117; 100; 105; 111; 100; 97; 116; 97]%Z))
                 = true) by (vm_compute; reflexivity).
  split; [exact Hv|]. split; [exact Hfin|].
  destruct (@lineage_propagation sample_runtime empty_system empty_system m
              "dGVzdGF1ZGlvZGF0YQ=="
              [116; 101; 115; 116; 97; 117; 100; 105; 111; 100; 97; 116; 97]%Z
              Hv ltac:(vm_compute; reflexivity) ltac:(vm_compute; reflexivity) Hfin)
    as (ra & rb & Ha & _ & _ & _ & _ & Hb & _ & Hsrc & Hsensor & _).
  exists ra, rb. split; [exact Ha|]. split; [exact Hb|]. split; [exact Hsrc|].
  rewrite Hsensor. vm_compute. reflexivity.
Defined.


(** ** Stage processors: [process_one] and [process_all] *)

Section stage_loops.
Context {rt : PyRuntime}.
Import rabbitmq.

(** A record returned by Stage A, and the input it came from. *)
Lemma process_a_ok_inv (st : system) (m out : message) :
  (algorithm_a.process st m).2 = Ok out ->
  is_Some (m !! "message_id") /\
  is_Some (out !! "message_id") /\ is_Some (out !! "sensor_id").
Proof.
  unfold algorithm_a.process.
  destruct (algorithm_a._validate m) as [[]|e] eqn:Hv; [|done].
  destruct (validate_a_fields m Hv) as (source & sensor & ts & audio & H1 & H2 & H3 & H4).
  unfold getitem. rewrite H1, H2, H3, H4. cbn [snd mbind result_bind].
  destruct (algorithm_a._extract_features audio) as [f|e]; [|done].
  cbn [mbind result_bind]. intros [= <-]. split; [eauto|]. split; by eexists.
Qed.

Lemma process_one_a_empty (self : algorithm_a.AlgorithmA) (st : system) :
  wf_broker (broker st) -> pending (broker st) AUDIO_STREAM = [] ->
  exists st',
    algorithm_a.process_one self st = (self, st', Ok None) /\
    wf_broker (broker st') /\ pending (broker st') AUDIO_STREAM = [].
Proof.
  intros Hwf Hp. unfold algorithm_a.process_one.
  pose proof (consume_work_head (broker st) AUDIO_STREAM (NInt 0) Hwf) as Hc.
  pose proof (wf_consume_work (broker st) AUDIO_STREAM (NInt 0) Hwf) as Hwf1.
  rewrite Hp in Hc. destruct Hc as [Hres Hrest].
  destruct (consume_work (broker st) AUDIO_STREAM (NInt 0)) as [b1 res].
  simpl in *. subst res. eexists. split; [reflexivity|]. done.
Qed.

Lemma process_one_a_head (self : algorithm_a.AlgorithmA) (st : system)
    (m : message) (rest : list message) :
  wf_broker (broker st) -> pending (broker st) AUDIO_STREAM = m :: rest ->
  exists st1 st',
    wf_broker (broker st') /\ pending (broker st') AUDIO_STREAM = rest /\
    match (algorithm_a.process st1 m).2 with
    | Ok out =>
        algorithm_a.process_one self st =
          ({| algorithm_a.processed_count := S (algorithm_a.processed_count self) |},
           st', Ok (Some out))
    | Raise e => algorithm_a.process_one self st = (self, st', Raise e)
    end.
Proof.
  intros Hwf Hp. unfold algorithm_a.process_one.
  pose proof (consume_work_head (broker st) AUDIO_STREAM (NInt 0) Hwf) as Hc.
  pose proof (wf_consume_work (broker st) AUDIO_STREAM (NInt 0) Hwf) as Hwf1.
  rewrite Hp in Hc. destruct Hc as [Hres Hrest].
  destruct (consume_work (broker st) AUDIO_STREAM (NInt 0)) as [b1 res].
  simpl in Hres, Hrest, Hwf1. subst res.
  exists (set_broker st b1).
  pose proof (process_a_frame (set_broker st b1) m) as [Hb Hw].
  pose proof (process_a_ok_inv (set_broker st b1) m) as Hinv.
  destruct (algorithm_a.process (set_broker st b1) m) as [st2 r]. simpl in Hb, Hw, Hinv.
  destruct r as [out|e]; cbn [snd].
  - destruct (Hinv out eq_refl) as ([x1 H1] & [x2 H2] & [x3 H3]).
    eexists. split; [|split; [|unfold getitem; rewrite H1, H2, H3; reflexivity]].
    + simpl. rewrite Hb. by apply wf_publish_fanout.
    + simpl. rewrite Hb. by rewrite pending_publish_fanout.
  - exists st2. rewrite Hb. done.
Qed.

(** The loop of Stage A's [process_all], over a queue that starts with
    accepted messages. *)
Lemma process_all_loop_a (goods tail : list message) (e : exn) :
  Forall accepted_a goods ->
  match tail with
  | [] => True
  | bad :: _ => rejected_a bad e
  end ->
  forall fuel self st count,
    (length goods < fuel)%nat ->
    wf_broker (broker st) -> pending (broker st) AUDIO_STREAM = goods ++ tail ->
    exists st',
      algorithm_a.process_all_loop fuel self st count =
        Some ({| algorithm_a.processed_count :=
                   algorithm_a.processed_count self + length goods |}, st',
              match tail with
              | [] => Ok (count + length goods)%nat
              | _ :: _ => Raise e
              end) /\
      wf_broker (broker st') /\
      pending (broker st') AUDIO_STREAM = tl tail.
Proof.
  intros Hgoods Htail. induction Hgoods as [|m goods Hm _ IH];
    intros fuel self st count Hfuel Hwf Hp.
  - destruct fuel as [|fuel]; [simpl in Hfuel; lia|]. simpl in Hp. simpl.
    destruct tail as [|bad rest].
    + destruct (process_one_a_empty self st Hwf Hp) as (st' & -> & Hwf' & Hp').
      exists st'. rewrite !Nat.add_0_r. by destruct self.
    + destruct (process_one_a_head self st bad rest Hwf Hp) as (st1 & st' & Hwf' & Hp' & Hone).
      rewrite (Htail st1) in Hone. rewrite Hone.
      exists st'. rewrite Nat.add_0_r. by destruct self.
  - destruct fuel as [|fuel]; [simpl in Hfuel; lia|]. simpl in Hp, Hfuel. simpl.
    destruct (process_one_a_head self st m (goods ++ tail) Hwf Hp)
      as (st1 & st' & Hwf' & Hp' & Hone).
    destruct (Hm st1) as [out Hout]. rewrite Hout in Hone. rewrite Hone.
    destruct (IH fuel {| algorithm_a.processed_count := S (algorithm_a.processed_count self) |}
                st' (S count) ltac:(lia) Hwf' Hp') as (st'' & -> & Hwf'' & Hp'').
    exists st''. simpl. split; [|done].
    repeat f_equal; try lia. destruct tail; f_equal; lia.
Qed.

(** The payload Stage B derives is a dict with a [classification]. *)
Lemma derive_features_shape (m : message) (f : value) :
  algorithm_b._derive_features m = Ok f ->
  exists d, f = VDict d /\ is_Some (d !! "classification").
Proof.
  unfold algorithm_b._derive_features.
  repeat match goal with
         | |- context [mbind ?k ?x] =>
             let E := fresh "E" in destruct x eqn:E; cbn [mbind result_bind]; try done
         end.
  intros [= <-]. eexists. split; [reflexivity|]. by eexists.
Qed.

Lemma validate_b_fields (m : message) :
  algorithm_b._validate m = Ok tt ->
  exists source sensor ts,
    m !! "message_id" = Some source /\ m !! "sensor_id" = Some sensor /\
    m !! "timestamp" = Some ts.
Proof.
  intros Hv. pose proof (validate_b_cases m) as Hc. rewrite Hv in Hc.
  destruct Hc as [Hall _].
  assert (Hkey : forall k, k ∈ algorithm_b._REQUIRED_FIELDS -> is_Some (m !! k)).
  { intros k Hk. destruct (m !! k) eqn:Ek; [eauto|]. destruct Hall. by exists k. }
  destruct (Hkey "message_id") as [? ?]; [set_solver|].
  destruct (Hkey "sensor_id") as [? ?]; [set_solver|].
  destruct (Hkey "timestamp") as [? ?]; [set_solver|].
  eauto 10.
Qed.

Lemma process_b_ok_inv (st : system) (m out : message) :
  (algorithm_b.process st m).2 = Ok out ->
  is_Some (m !! "message_id") /\ is_Some (out !! "message_id") /\
  exists d, out !! "features" = Some (VDict d) /\ is_Some (d !! "classification").
Proof.
  unfold algorithm_b.process.
  destruct (algorithm_b._validate m) as [[]|e] eqn:Hv; [|done].
  destruct (validate_b_fields m Hv) as (source & sensor & ts & H1 & H2 & H3).
  unfold getitem. rewrite H1, H2, H3. cbn [snd mbind result_bind].
  destruct (algorithm_b._derive_features m) as [f|e] eqn:Hd; [|done].
  cbn [mbind result_bind]. intros [= <-].
  destruct (derive_features_shape m f Hd) as (d & -> & Hcls).
  split; [eauto|]. split; [by eexists|]. exists d. split; [reflexivity|done].
Qed.

Lemma features_b_not_a (b : InMemoryBroker) (r : nat) :
  wf_broker b -> r ∈ subscribers b FEATURES_A -> r ∉ subscribers b FEATURES_B.
Proof.
  intros Hwf Ha Hb. by pose proof (subscribers_disjoint b _ _ r Hwf Ha Hb).
Qed.

Lemma process_one_b_empty (self : algorithm_b.AlgorithmB) (st : system) :
  wf_broker (broker st) ->
  algorithm_b._inbox self ∈ subscribers (broker st) FEATURES_A ->
  inbox (broker st) (algorithm_b._inbox self) = [] ->
  exists st',
    algorithm_b.process_one self st = (self, st', Ok None) /\
    wf_broker (broker st') /\
    algorithm_b._inbox self ∈ subscribers (broker st') FEATURES_A /\
    inbox (broker st') (algorithm_b._inbox self) = [].
Proof.
  intros Hwf Hsub Hp. unfold algorithm_b.process_one.
  rewrite (get_nowait_empty _ _ Hp).
  eexists. split; [reflexivity|]. simpl. split; [|done].
  by apply wf_same_length.
Qed.

Lemma process_one_b_head (self : algorithm_b.AlgorithmB) (st : system)
    (m : message) (rest : list message) :
  wf_broker (broker st) ->
  algorithm_b._inbox self ∈ subscribers (broker st) FEATURES_A ->
  inbox (broker st) (algorithm_b._inbox self) = m :: rest ->
  exists st1 st',
    wf_broker (broker st') /\
    algorithm_b._inbox self ∈ subscribers (broker st') FEATURES_A /\
    inbox (broker st') (algorithm_b._inbox self) = rest /\
    match (algorithm_b.process st1 m).2 with
    | Ok out =>
        algorithm_b.process_one self st =
          ({| algorithm_b._inbox := algorithm_b._inbox self;
              algorithm_b.processed_count := S (algorithm_b.processed_count self) |},
           st', Ok (Some out))
    | Raise e => algorithm_b.process_one self st = (self, st', Raise e)
    end.
Proof.
  intros Hwf Hsub Hp. unfold algorithm_b.process_one.
  rewrite (get_nowait_head _ _ _ _ Hp).
  set (b1 := {| heap := <[algorithm_b._inbox self := rest]> (heap (broker st));
                _work_queues := _work_queues (broker st);
                _fanout := _fanout (broker st) |}).
  assert (Hwf1 : wf_broker b1) by (apply wf_same_length; [done|apply length_insert]).
  assert (Hsub1 : algorithm_b._inbox self ∈ subscribers b1 FEATURES_A) by done.
  assert (Hp1 : inbox b1 (algorithm_b._inbox self) = rest).
  { unfold inbox, b1. simpl. apply contents_insert_eq. by eapply contents_head_valid. }
  exists (set_broker st b1).
  pose proof (process_b_frame (set_broker st b1) m) as [Hb Hw].
  pose proof (process_b_ok_inv (set_broker st b1) m) as Hinv.
  destruct (algorithm_b.process (set_broker st b1) m) as [st2 r]. simpl in Hb, Hw, Hinv.
  destruct r as [out|e]; cbn [snd].
  - destruct (Hinv out eq_refl) as ([x1 H1] & [x2 H2] & d & Hf & [x3 H3]).
    eexists. split; [|split; [|split]].
    4:{ unfold getitem. rewrite H1, H2, Hf. cbn [mbind result_bind].
        rewrite H3. reflexivity. }
    + simpl. rewrite Hb. by apply wf_publish_fanout.
    + simpl. by rewrite Hb.
    + simpl. rewrite Hb. rewrite inbox_publish_fanout by done.
      rewrite decide_False; [done|]. by apply features_b_not_a.
  - exists st2. rewrite Hb. done.
Qed.

(** The loop of Stage B's [process_all], over an inbox that starts with
    accepted messages. *)
Lemma process_all_loop_b (goods tail : list message) (e : exn) :
  Forall accepted_b goods ->
  match tail with
  | [] => True
  | bad :: _ => rejected_b bad e
  end ->
  forall fuel self st count,
    (length goods < fuel)%nat ->
    wf_broker (broker st) ->
    algorithm_b._inbox self ∈ subscribers (broker st) FEATURES_A ->
    inbox (broker st) (algorithm_b._inbox self) = goods ++ tail ->
    exists st',
      algorithm_b.process_all_loop fuel self st count =
        Some ({| algorithm_b._inbox := algorithm_b._inbox self;
                 algorithm_b.processed_count :=
                   algorithm_b.processed_count self + length goods |}, st',
              match tail with
              | [] => Ok (count + length goods)%nat
              | _ :: _ => Raise e
              end) /\
      wf_broker (broker st') /\
      algorithm_b._inbox self ∈ subscribers (broker st') FEATURES_A /\
      inbox (broker st') (algorithm_b._inbox self) = tl tail.
Proof.
  intros Hgoods Htail. induction Hgoods as [|m goods Hm _ IH];
    intros fuel self st count Hfuel Hwf Hsub Hp.
  - destruct fuel as [|fuel]; [simpl in Hfuel; lia|]. simpl in Hp. simpl.
    destruct tail as [|bad rest].
    + destruct (process_one_b_empty self st Hwf Hsub Hp) as (st' & -> & Hwf' & Hsub' & Hp').
      exists st'. rewrite !Nat.add_0_r. by destruct self.
    + destruct (process_one_b_head self st bad rest Hwf Hsub Hp)
        as (st1 & st' & Hwf' & Hsub' & Hp' & Hone).
      rewrite (Htail st1) in Hone. rewrite Hone.
      exists st'. rewrite Nat.add_0_r. by destruct self.
  - destruct fuel as [|fuel]; [simpl in Hfuel; lia|]. simpl in Hp, Hfuel. simpl.
    destruct (process_one_b_head self st m (goods ++ tail) Hwf Hsub Hp)
      as (st1 & st' & Hwf' & Hsub' & Hp' & Hone).
    destruct (Hm st1) as [out Hout]. rewrite Hout in Hone. rewrite Hone.
    destruct (IH fuel {| algorithm_b._inbox := algorithm_b._inbox self;
                         algorithm_b.processed_count := S (algorithm_b.processed_count self) |}
                st' (S count) ltac:(lia) Hwf' Hsub' Hp') as (st'' & -> & Hwf'' & Hsub'' & Hp'').
    exists st''. simpl. split; [|done].
    repeat f_equal; try lia. destruct tail; f_equal; lia.
Qed.

(** C2.  What [process_all] does, on a broker with well-formed tables,
    for Stage A over its work queue and for Stage B over its inbox: when
    every pending message is accepted by [process], [process_all] returns
    their number, counts them, and leaves the source empty, as the claim
    says; when the pending messages are accepted ones followed by one that
    [process] rejects with [e], [process_all] does not drain the source:
    it processes and counts the accepted ones, consumes the rejected one,
    and raises [e] to its caller instead of returning a count, leaving in
    the source, unprocessed, every message behind the rejected one. *)
Theorem process_all_until_first_failure (st : system) (goods rest : list message)
    (bad : message) (e : exn) :
  wf_broker (broker st) ->
  (forall self : algorithm_a.AlgorithmA,
     Forall accepted_a goods ->
     (pending (broker st) AUDIO_STREAM = goods ->
      exists st',
        algorithm_a.process_all self st =
          Some ({| algorithm_a.processed_count :=
                     algorithm_a.processed_count self + length goods |}, st',
                Ok (length goods)) /\
        work_queue_depth (broker st') AUDIO_STREAM = 0%nat) /\
     (rejected_a bad e ->
      pending (broker st) AUDIO_STREAM = goods ++ bad :: rest ->
      exists st',
        algorithm_a.process_all self st =
          Some ({| algorithm_a.processed_count :=
                     algorithm_a.processed_count self + length goods |}, st',
                Raise e) /\
        pending (broker st') AUDIO_STREAM = rest /\
        wf_broker (broker st'))) /\
  (forall self : algorithm_b.AlgorithmB,
     algorithm_b._inbox self ∈ subscribers (broker st) FEATURES_A ->
     Forall accepted_b goods ->
     (inbox (broker st) (algorithm_b._inbox self) = goods ->
      exists st',
        algorithm_b.process_all self st =
          Some ({| algorithm_b._inbox := algorithm_b._inbox self;
                   algorithm_b.processed_count :=
                     algorithm_b.processed_count self + length goods |}, st',
                Ok (length goods)) /\
        inbox (broker st') (algorithm_b._inbox self) = []) /\
     (rejected_b bad e ->
      inbox (broker st) (algorithm_b._inbox self) = goods ++ bad :: rest ->
      exists st',
        algorithm_b.process_all self st =
          Some ({| algorithm_b._inbox := algorithm_b._inbox self;
                   algorithm_b.processed_count :=
                     algorithm_b.processed_count self + length goods |}, st',
                Raise e) /\
        inbox (broker st') (algorithm_b._inbox self) = rest /\
        wf_broker (broker st') /\
        algorithm_b._inbox self ∈ subscribers (broker st') FEATURES_A)).
Proof.
  intros Hwf. split.
  - intros self Hgoods. split.
    + intros Hp. unfold algorithm_a.process_all.
      rewrite work_queue_depth_pending, Hp.
      destruct (process_all_loop_a goods [] e Hgoods I (S (length goods)) self st 0%nat)
        as (st' & Hrun & Hwf' & Hp'); [lia|done|by rewrite app_nil_r|].
      exists st'. split; [exact Hrun|]. by rewrite work_queue_depth_pending, Hp'.
    + intros Hbad Hp. unfold algorithm_a.process_all.
      rewrite work_queue_depth_pending, Hp.
      destruct (process_all_loop_a goods (bad :: rest) e Hgoods Hbad
                  (S (length (goods ++ bad :: rest))) self st 0%nat)
        as (st' & Hrun & Hwf' & Hp'); [rewrite length_app; lia|done|done|].
      exists st'. done.
  - intros self Hsub Hgoods. split.
    + intros Hp. unfold algorithm_b.process_all.
      change (qsize (algorithm_b._inbox self) (heap (broker st)))
        with (length (inbox (broker st) (algorithm_b._inbox self))).
      rewrite Hp.
      destruct (process_all_loop_b goods [] e Hgoods I (S (length goods)) self st 0%nat)
        as (st' & Hrun & Hwf' & Hsub' & Hp'); [lia|done|done|by rewrite app_nil_r|].
      exists st'. done.
    + intros Hbad Hp. unfold algorithm_b.process_all.
      change (qsize (algorithm_b._inbox self) (heap (broker st)))
        with (length (inbox (broker st) (algorithm_b._inbox self))).
      rewrite Hp.
      destruct (process_all_loop_b goods (bad :: rest) e Hgoods Hbad
                  (S (length (goods ++ bad :: rest))) self st 0%nat)
        as (st' & Hrun & Hwf' & Hsub' & Hp'); [rewrite length_app; lia|done|done|done|].
      exists st'. done.
Qed.

End stage_loops.

(** C2 fails of the code: with a malformed message ahead of two valid
    ones, Stage A's [process_all] raises instead of returning the number of
    successes, and the two valid messages stay in the queue. *)
Lemma process_all_raises_on_invalid_message :
  match @algorithm_a.process_all sample_runtime algorithm_a.new_algorithm
          (system_with_audio [malformed_audio; sample_audio "a-1"; sample_audio "a-2"]) with
  | Some (self', st', r) =>
      r = Raise ValueError /\
      algorithm_a.processed_count self' = 0%nat /\
      rabbitmq.work_queue_depth (broker st') rabbitmq.AUDIO_STREAM = 2%nat
  | None => False
  end.
Proof. vm_compute. repeat split; reflexivity. Qed.

Lemma sample_audio_accepted (id : string) : @accepted_a sample_runtime (sample_audio id).
Proof.
  intros st.
  assert (Hf : exists f, @algorithm_a._extract_features sample_runtime
                           (VStr "dGVzdGF1ZGlvZGF0YQ==") = Ok f)
    by (vm_compute; eexists; reflexivity).
  destruct Hf as [f Hf].
  destruct (@process_a_accepts sample_runtime st (sample_audio id) _ f
              ltac:(reflexivity) ltac:(reflexivity) Hf) as (? & ? & ? & _ & _ & _ & ->).
  eexists. reflexivity.
Qed.

Lemma malformed_audio_rejected : @rejected_a sample_runtime malformed_audio ValueError.
Proof.
  intros st. by rewrite (@process_a_rejects sample_runtime st malformed_audio ValueError).
Qed.

Lemma process_all_until_first_failure_witness :
  let st := system_with_audio [sample_audio "a-1"; malformed_audio; sample_audio "a-2"] in
  wf_broker (broker st) /\
  exists st',
    @algorithm_a.process_all sample_runtime algorithm_a.new_algorithm st =
      Some ({| algorithm_a.processed_count := 1 |}, st', Raise ValueError) /\
    pending (broker st') rabbitmq.AUDIO_STREAM = [sample_audio "a-2"] /\
    wf_broker (broker st').
Proof.
  intros st.
  assert (Hwf : wf_broker (broker st)) by (apply wf_run, wf_new_broker).
  split; [exact Hwf|].
  exact (proj2 (proj1 (@process_all_until_first_failure sample_runtime st
                         [sample_audio "a-1"] [sample_audio "a-2"] malformed_audio ValueError Hwf)
                  algorithm_a.new_algorithm
                  ltac:(repeat constructor; apply sample_audio_accepted))
           malformed_audio_rejected ltac:(vm_compute; reflexivity)).
Defined.

(** ** Writer: [flush] *)

Section writer_flush.
Import rabbitmq data_writer.

Lemma ids_agree (rs : list message) (m : message) :
  Forall has_string_id rs -> has_string_id m ->
  message_id m ∈ store_ids rs <-> id_string m ∈ map id_string rs.
Proof.
  intros Hrs [s Hs]. unfold store_ids, message_id, id_string. rewrite Hs.
  induction Hrs as [|r rs [t Ht] _ IH]; simpl.
  - split; intros Hin; inversion Hin.
  - rewrite Ht, !elem_of_cons, IH. split; (intros [Heq | Hin]; [left | right]); try done.
    + by inversion Heq.
    + by rewrite Heq.
Qed.

Lemma new_records_stored (seen : list string) (ms : list message) :
  Forall (fun m => id_string m ∈ seen) ms -> new_records seen ms = [].
Proof.
  induction 1 as [|m ms Hm _ IH]; simpl; [done|].
  by rewrite decide_True.
Qed.

Lemma new_records_ids (seen : list string) (ms : list message) :
  Forall (fun m => id_string m ∈ seen ++ map id_string (new_records seen ms)) ms.
Proof.
  revert seen. induction ms as [|m ms IH]; intros seen; simpl; [constructor|].
  destruct (decide (id_string m ∈ seen)) as [Hin | Hout].
  - constructor; [set_solver | apply IH].
  - constructor.
    + simpl. set_solver.
    + specialize (IH (seen ++ [id_string m])). simpl.
      eapply Forall_impl; [exact IH|]. intros x Hx. simpl in Hx.
      rewrite <- app_assoc in Hx. exact Hx.
Qed.

Lemma new_records_nodup (seen : list string) (ms : list message) :
  NoDup seen -> NoDup (seen ++ map id_string (new_records seen ms)).
Proof.
  revert seen. induction ms as [|m ms IH]; intros seen Hnd; simpl.
  - by rewrite app_nil_r.
  - destruct (decide (id_string m ∈ seen)) as [Hin | Hout]; [by apply IH|].
    simpl. specialize (IH (seen ++ [id_string m])).
    rewrite <- app_assoc in IH. apply IH.
    apply NoDup_app. split; [done|]. split; [|apply NoDup_singleton].
    intros x Hx Hx'. apply list_elem_of_singleton in Hx'. by subst.
Qed.

Lemma new_records_sublist (seen : list string) (ms : list message) :
  sublist (new_records seen ms) ms.
Proof.
  revert seen. induction ms as [|m ms IH]; intros seen; simpl; [constructor|].
  destruct (decide (id_string m ∈ seen)).
  - by apply sublist_cons.
  - by apply sublist_skip.
Qed.

(** One inbox drained: every pending record goes through [_write], in
    queue order. *)
Lemma flush_inbox_drains (fuel r : nat) (h : list (list message)) (w : DataWriter) (n : nat) :
  Forall has_string_id (db w) -> Forall has_string_id (contents h r) ->
  (length (contents h r) < fuel)%nat ->
  exists h' w',
    flush_inbox fuel r h w n
      = Some (h', w', Ok (n + length (new_records (map id_string (db w)) (contents h r)))%nat) /\
    db w' = db w ++ new_records (map id_string (db w)) (contents h r) /\
    _inbox_a w' = _inbox_a w /\ _inbox_b w' = _inbox_b w /\
    contents h' r = [] /\
    (forall r', r' <> r -> contents h' r' = contents h r') /\
    length h' = length h.
Proof.
  revert h w n. induction fuel as [|fuel IH]; intros h w n Hdb Hq Hfuel; [lia|].
  destruct (contents h r) as [|m rest] eqn:Hc.
  - exists h, w. simpl. rewrite (get_nowait_empty _ _ Hc). simpl.
    rewrite Nat.add_0_r, app_nil_r. done.
  - simpl. rewrite (get_nowait_head _ _ _ _ Hc).
    pose proof (contents_head_valid _ _ _ _ Hc) as Hvalid.
    apply Forall_cons in Hq as [Hm Hrest].
    assert (Hc' : contents (<[r := rest]> h) r = rest) by by apply contents_insert_eq.
    assert (Hne : forall r', r' <> r -> contents (<[r := rest]> h) r' = contents h r')
      by (intros r' Hr'; by apply contents_insert_ne).
    destruct (_write_spec w m Hdb Hm) as [[Hnew Hw] | [Hold Hw]]; rewrite Hw.
    + rewrite (ids_agree _ _ Hdb Hm) in Hnew. rewrite decide_False by done.
      set (w1 := {| _inbox_a := _inbox_a w; _inbox_b := _inbox_b w; db := db w ++ [m] |}).
      destruct (IH (<[r := rest]> h) w1 (S n)) as (h' & w' & Hrun & Hdb' & Ha & Hb & He & Ho & Hl).
      * simpl. apply Forall_app. split; [done | by constructor].
      * by rewrite Hc'.
      * rewrite Hc'. simpl in Hfuel. lia.
      * exists h', w'. rewrite Hc' in Hrun, Hdb'. simpl in Hrun, Hdb'.
        rewrite map_app in Hrun, Hdb'. simpl in Hrun, Hdb'.
        rewrite Hrun, Hdb'. simpl. rewrite <- app_assoc. simpl.
        repeat split; try done.
        -- do 3 f_equal. lia.
        -- intros r' Hr'. rewrite Ho by done. by apply Hne.
        -- by rewrite Hl, length_insert.
    + rewrite (ids_agree _ _ Hdb Hm) in Hold. rewrite decide_True by done.
      destruct (IH (<[r := rest]> h) w n) as (h' & w' & Hrun & Hdb' & Ha & Hb & He & Ho & Hl).
      * done.
      * by rewrite Hc'.
      * rewrite Hc'. simpl in Hfuel. lia.
      * exists h', w'. rewrite Hc' in Hrun, Hdb'. rewrite Hrun, Hdb'.
        repeat split; try done.
        -- intros r' Hr'. rewrite Ho by done. by apply Hne.
        -- by rewrite Hl, length_insert.
Qed.

Lemma new_records_app (seen : list string) (xs ys : list message) :
  new_records seen (xs ++ ys) =
  new_records seen xs ++ new_records (seen ++ map id_string (new_records seen xs)) ys.
Proof.
  revert seen. induction xs as [|x xs IH]; intros seen; simpl.
  - by rewrite app_nil_r.
  - destruct (decide (id_string x ∈ seen)); [apply IH|].
    simpl. rewrite IH. by rewrite <- app_assoc.
Qed.

Lemma has_string_id_sublist (xs ys : list message) :
  sublist xs ys -> Forall has_string_id ys -> Forall has_string_id xs.
Proof.
  intros Hs Hys. apply Forall_forall. intros x Hx.
  rewrite Forall_forall in Hys. apply Hys. by eapply elem_of_sublist.
Qed.

(** [flush] as a function of the store and of the two inboxes. *)
Lemma flush_spec (b : InMemoryBroker) (w : DataWriter) :
  Forall has_string_id (db w) ->
  Forall has_string_id (inbox b (_inbox_a w)) ->
  Forall has_string_id (inbox b (_inbox_b w)) ->
  let pending_records :=
    inbox b (_inbox_a w) ++
    (if decide (_inbox_b w = _inbox_a w) then [] else inbox b (_inbox_b w)) in
  let new := new_records (map id_string (db w)) pending_records in
  exists b' w',
    flush b w = Some (b', w', Ok (length new)) /\
    db w' = db w ++ new /\
    _inbox_a w' = _inbox_a w /\ _inbox_b w' = _inbox_b w /\
    _work_queues b' = _work_queues b /\ _fanout b' = _fanout b /\
    length (heap b') = length (heap b) /\
    inbox b' (_inbox_a w) = [] /\ inbox b' (_inbox_b w) = [] /\
    (forall r, r <> _inbox_a w -> r <> _inbox_b w -> inbox b' r = inbox b r).
Proof.
  intros Hdb Ha Hb. unfold inbox in *. cbv zeta.
  destruct (flush_inbox_drains (S (qsize (_inbox_a w) (heap b))) (_inbox_a w) (heap b) w 0 Hdb Ha)
    as (h1 & w1 & Hrun1 & Hdb1 & Ha1 & Hb1 & He1 & Ho1 & Hl1).
  { unfold qsize, contents. lia. }
  set (qa := contents (heap b) (_inbox_a w)) in *.
  set (qb := if decide (_inbox_b w = _inbox_a w) then [] else contents (heap b) (_inbox_b w)).
  assert (Hqb : contents h1 (_inbox_b w) = qb).
  { unfold qb. destruct (decide (_inbox_b w = _inbox_a w)) as [-> | Hne]; [done|].
    by apply Ho1. }
  assert (Hqb_ids : Forall has_string_id qb).
  { unfold qb. destruct (decide _); [constructor | done]. }
  destruct (flush_inbox_drains (S (qsize (_inbox_b w) h1)) (_inbox_b w) h1 w1
              (0 + length (new_records (map id_string (db w)) qa))) as
    (h2 & w2 & Hrun2 & Hdb2 & Ha2 & Hb2 & He2 & Ho2 & Hl2).
  { rewrite Hdb1. apply Forall_app. split; [done|].
    eapply has_string_id_sublist; [apply new_records_sublist | done]. }
  { by rewrite Hqb. }
  { unfold qsize, contents. lia. }
  exists {| heap := h2; _work_queues := _work_queues b; _fanout := _fanout b |}, w2.
  unfold flush. rewrite Hrun1. rewrite Hrun2. simpl.
  rewrite Hqb, Hdb1, map_app in Hrun2, Hdb2.
  rewrite new_records_app, length_app. rewrite Hdb2, <- app_assoc.
  repeat split; try done; try congruence.
  - do 3 f_equal. rewrite Hqb, Hdb1, map_app. done.
  - destruct (decide (_inbox_a w = _inbox_b w)) as [Heq | Hne].
    + rewrite Heq. done.
    + rewrite Ho2 by done. done.
  - intros r Hra Hrb. rewrite Ho2 by done. by apply Ho1.
Qed.

Lemma store_ids_strings (rs : list message) :
  Forall has_string_id rs ->
  store_ids rs = map (fun s => Some (VStr s)) (map id_string rs).
Proof.
  induction 1 as [|r rs [s Hs] _ IH]; simpl; [done|].
  rewrite <- IH. unfold message_id, id_string. by rewrite Hs.
Qed.

Lemma flush_empty_inboxes (b : InMemoryBroker) (w : DataWriter) :
  inbox b (_inbox_a w) = [] -> inbox b (_inbox_b w) = [] ->
  flush b w = Some (b, w, Ok 0).
Proof.
  intros Ha Hb. unfold flush. simpl.
  rewrite (get_nowait_empty _ _ Ha). simpl.
  rewrite (get_nowait_empty _ _ Hb). by destruct b.
Qed.

Lemma wf_new_writer (b : InMemoryBroker) :
  wf_broker b -> wf_broker (new_writer b).1.
Proof.
  intros Hwf. unfold new_writer. cbn.
  exact (wf_subscribe _ FEATURES_B (wf_subscribe _ FEATURES_A Hwf)).
Qed.

(** X1: [flush] writes the pending records of the Feature-A inbox and then
    those of the Feature-B inbox, skips every record whose identifier is
    stored already, and returns the number of records it wrote. *)
Theorem flush_writes_new_records (b : InMemoryBroker) (w : DataWriter) :
  _inbox_a w <> _inbox_b w ->
  Forall has_string_id (db w) ->
  Forall has_string_id (inbox b (_inbox_a w) ++ inbox b (_inbox_b w)) ->
  exists b' w',
    flush b w = Some (b', w',
                      Ok (length (new_records (map id_string (db w))
                                    (inbox b (_inbox_a w) ++ inbox b (_inbox_b w))))) /\
    db w' = db w ++ new_records (map id_string (db w))
                      (inbox b (_inbox_a w) ++ inbox b (_inbox_b w)) /\
    _inbox_a w' = _inbox_a w /\ _inbox_b w' = _inbox_b w.
Proof.
  intros Hne Hdb Hq. apply Forall_app in Hq as [Ha Hb].
  destruct (flush_spec b w Hdb Ha Hb) as (b' & w' & Hrun & Hdb' & Hia & Hib & _).
  rewrite decide_False in Hrun, Hdb' by congruence.
  exists b', w'. by rewrite Hrun, Hdb'.
Qed.

(** Publishing a list of messages to a topic, one call each, appends the
    list to every inbox registered on the topic. *)
Lemma run_publish_fanout (b : InMemoryBroker) (t : string) (ms : list message) :
  wf_broker b ->
  wf_broker (run b (map (PublishFanout t) ms)).1 /\
  (forall t', subscribers (run b (map (PublishFanout t) ms)).1 t' = subscribers b t') /\
  (forall r, inbox (run b (map (PublishFanout t) ms)).1 r =
             if decide (r ∈ subscribers b t) then inbox b r ++ ms else inbox b r).
Proof.
  revert b. induction ms as [|m ms IH]; intros b Hwf.
  - split; [done|]. split; [done|]. intros r. cbn [map run fst].
    case_decide; [by rewrite app_nil_r | done].
  - destruct (IH (publish_fanout b t m) (wf_publish_fanout b t m Hwf)) as (Hwf' & Hs & Hi).
    cbn [map run step fst]. split; [exact Hwf'|]. split.
    + intros t'. by rewrite Hs.
    + intros r. rewrite Hi, subscribers_publish_fanout, (inbox_publish_fanout b t m r Hwf).
      case_decide; [|done]. by rewrite <- app_assoc.
Qed.

Lemma run_app (b : InMemoryBroker) (cs1 cs2 : list call) :
  (run b (cs1 ++ cs2)).1 = (run (run b cs1).1 cs2).1.
Proof.
  revert b. induction cs1 as [|c cs1 IH]; intros b; [done|].
  cbn [List.app run fst]. apply IH.
Qed.

(** What [writer_with_pending] leaves in the two inboxes of its writer. *)
Lemma writer_with_pending_inboxes (on_a on_b : list message) :
  inbox (writer_with_pending on_a on_b).1 (_inbox_a (writer_with_pending on_a on_b).2) = on_a /\
  inbox (writer_with_pending on_a on_b).1 (_inbox_b (writer_with_pending on_a on_b).2) = on_b.
Proof.
  unfold writer_with_pending. cbn [fst snd]. rewrite run_app.
  pose proof (wf_new_writer new_broker wf_new_broker) as Hwf.
  destruct (run_publish_fanout (new_writer new_broker).1 FEATURES_A on_a Hwf)
    as (Hwf1 & Hs1 & Hi1).
  destruct (run_publish_fanout _ FEATURES_B on_b Hwf1) as (_ & _ & Hi2).
  assert (Ha : _inbox_a (new_writer new_broker).2 = 0) by reflexivity.
  assert (Hb : _inbox_b (new_writer new_broker).2 = 1) by reflexivity.
  assert (Hsa : subscribers (new_writer new_broker).1 FEATURES_A = [0])
    by (vm_compute; reflexivity).
  assert (Hsb : subscribers (new_writer new_broker).1 FEATURES_B = [1])
    by (vm_compute; reflexivity).
  assert (Hea : inbox (new_writer new_broker).1 0 = []) by reflexivity.
  assert (Heb : inbox (new_writer new_broker).1 1 = []) by reflexivity.
  rewrite Ha, Hb. split; rewrite Hi2, Hs1, Hi1, Hsa, Hsb.
  - rewrite decide_False by (by intros ?%list_elem_of_singleton).
    rewrite decide_True by constructor. by rewrite Hea.
  - rewrite decide_True by constructor.
    rewrite decide_False by (by intros ?%list_elem_of_singleton). by rewrite Heb.
Qed.

Lemma sample_record_has_string_id (id sensor ts : string) :
  has_string_id (sample_record id sensor ts).
Proof. by exists id. Qed.

Lemma flush_writes_new_records_witness :
  let bw := writer_with_pending
              [sample_record "a-1" "s1" "t1"; sample_record "a-1" "s1" "t1"]
              [sample_record "b-1" "s1" "t1"; sample_record "a-1" "s1" "t1"] in
  exists b' w',
    flush bw.1 bw.2 = Some (b', w', Ok 2) /\
    db w' = [sample_record "a-1" "s1" "t1"; sample_record "b-1" "s1" "t1"].
Proof.
  intros bw.
  destruct (flush_writes_new_records bw.1 bw.2) as (b' & w' & Hrun & Hdb & _).
  - vm_compute. discriminate.
  - constructor.
  - unfold bw.
    match goal with
    | |- context [writer_with_pending ?on_a ?on_b] =>
        destruct (writer_with_pending_inboxes on_a on_b) as [-> ->]
    end.
    repeat constructor; apply sample_record_has_string_id.
  - exists b', w'. split; [exact Hrun | exact Hdb].
Defined.

(** X2: when the stored and the pending records all carry a string
    [message_id] and the writer's inboxes are registered on their topics
    in a broker with well-formed tables, [flush] returns, leaves both
    inboxes of the writer empty and touches nothing else of the broker:
    the work queues, the subscriptions and the inboxes of the other
    subscribers are as before. *)
Theorem flush_drains_only_its_inboxes (b : InMemoryBroker) (w : DataWriter) :
  wf_broker b ->
  _inbox_a w ∈ subscribers b FEATURES_A -> _inbox_b w ∈ subscribers b FEATURES_B ->
  Forall has_string_id (db w) ->
  Forall has_string_id (inbox b (_inbox_a w) ++ inbox b (_inbox_b w)) ->
  exists b' w' n,
    flush b w = Some (b', w', Ok n) /\
    inbox b' (_inbox_a w) = [] /\ inbox b' (_inbox_b w) = [] /\
    wf_broker b' /\
    (forall q, pending b' q = pending b q) /\
    (forall t, subscribers b' t = subscribers b t) /\
    (forall r, r <> _inbox_a w -> r <> _inbox_b w -> inbox b' r = inbox b r).
Proof.
  intros Hwf Hsa Hsb Hdb Hq. apply Forall_app in Hq as [Ha Hb].
  destruct (flush_spec b w Hdb Ha Hb)
    as (b' & w' & Hrun & _ & _ & _ & Hwq & Hfan & Hlen & Hea & Heb & Hother).
  eexists b', w', _. split; [exact Hrun|].
  split; [exact Hea|]. split; [exact Heb|].
  assert (Hwf' : wf_broker b').
  { destruct b' as [h' wq' fan']. simpl in Hwq, Hfan, Hlen. subst wq' fan'.
    by apply wf_same_length. }
  split; [exact Hwf'|]. split; [|split; [|exact Hother]].
  - intros q. unfold pending. rewrite Hwq.
    destruct (_work_queues b !! q) as [r|] eqn:Hr; [|done].
    apply Hother; intros ->.
    + by apply (work_not_subscriber b q FEATURES_A (_inbox_a w)).
    + by apply (work_not_subscriber b q FEATURES_B (_inbox_b w)).
  - intros t. unfold subscribers. by rewrite Hfan.
Qed.

Lemma flush_drains_only_its_inboxes_witness :
  let bw := writer_with_pending [sample_record "a-1" "s1" "t1"] [sample_record "b-1" "s1" "t1"] in
  exists b' w' n,
    flush bw.1 bw.2 = Some (b', w', Ok n) /\
    inbox b' (_inbox_a bw.2) = [] /\ inbox b' (_inbox_b bw.2) = [].
Proof.
  intros bw.
  destruct (flush_drains_only_its_inboxes bw.1 bw.2)
    as (b' & w' & n & Hrun & Ha & Hb & _).
  - apply wf_run, wf_new_writer, wf_new_broker.
  - vm_compute. repeat constructor.
  - vm_compute. repeat constructor.
  - constructor.
  - unfold bw.
    match goal with
    | |- context [writer_with_pending ?on_a ?on_b] =>
        destruct (writer_with_pending_inboxes on_a on_b) as [-> ->]
    end.
    repeat constructor; apply sample_record_has_string_id.
  - exists b', w', n. split; [exact Hrun|]. split; [exact Ha | exact Hb].
Defined.

(** X3: when the store is free of duplicates (each record with a string
    [message_id]) and every pending record carries a string [message_id],
    [flush] returns, and after it the store is still free of duplicates,
    has grown by exactly the number returned, keeps what it held, and
    holds the identifier of every record that was pending. *)
Theorem flush_keeps_store_unique (b : InMemoryBroker) (w : DataWriter) :
  unique_store (db w) ->
  Forall has_string_id (inbox b (_inbox_a w) ++ inbox b (_inbox_b w)) ->
  exists b' w' n,
    flush b w = Some (b', w', Ok n) /\
    unique_store (db w') /\
    length (db w') = (length (db w) + n)%nat /\
    (exists new, db w' = db w ++ new) /\
    (forall m, m ∈ inbox b (_inbox_a w) ++ inbox b (_inbox_b w) ->
               message_id m ∈ store_ids (db w')).
Proof.
  intros [Hdb Hnd] Hq. pose proof Hq as Hq0. apply Forall_app in Hq as [Ha Hb].
  destruct (flush_spec b w Hdb Ha Hb) as (b' & w' & Hrun & Hdb' & _).
  cbv zeta in Hrun, Hdb'.
  set (qs := inbox b (_inbox_a w) ++
             (if decide (_inbox_b w = _inbox_a w) then [] else inbox b (_inbox_b w))) in *.
  set (new := new_records (map id_string (db w)) qs) in *.
  assert (Hqs : Forall has_string_id qs).
  { unfold qs. apply Forall_app. split; [done|]. destruct (decide _); [constructor | done]. }
  assert (Hnew : Forall has_string_id new)
    by (eapply has_string_id_sublist; [apply new_records_sublist | done]).
  assert (Hall : Forall has_string_id (db w')).
  { rewrite Hdb'. apply Forall_app. by split. }
  exists b', w', (length new). split; [exact Hrun|].
  split; [|split; [|split]].
  - split; [exact Hall|].
    rewrite (store_ids_strings _ Hall), Hdb', map_app.
    assert (Hinj : Inj (=) (=) (fun s : string => Some (VStr s)))
      by (intros s1 s2 Heq; by inversion Heq).
    apply (NoDup_fmap_2 _). apply new_records_nodup.
    rewrite (store_ids_strings _ Hdb) in Hnd.
    eapply (NoDup_fmap_1 (fun s => Some (VStr s))). exact Hnd.
  - by rewrite Hdb', length_app.
  - by exists new.
  - intros m Hm.
    assert (Hin : m ∈ qs).
    { unfold qs. destruct (decide (_inbox_b w = _inbox_a w)) as [Heq | Hne]; [|done].
      rewrite Heq in Hm. rewrite app_nil_r.
      by apply elem_of_app in Hm as [Hm | Hm]. }
    rewrite Forall_forall in Hq0.
    rewrite (ids_agree _ _ Hall (Hq0 m Hm)), Hdb', map_app.
    pose proof (new_records_ids (map id_string (db w)) qs) as Hids.
    rewrite Forall_forall in Hids. by apply Hids.
Qed.

Lemma flush_keeps_store_unique_witness :
  let bw := writer_with_pending
              [sample_record "a-1" "s1" "t1"; sample_record "a-1" "s1" "t1"]
              [sample_record "b-1" "s1" "t1"] in
  exists b' w' n,
    flush bw.1 bw.2 = Some (b', w', Ok n) /\
    unique_store (db w') /\ length (db w') = n.
Proof.
  intros bw.
  destruct (flush_keeps_store_unique bw.1 bw.2)
    as (b' & w' & n & Hrun & Hu & Hlen & _).
  - split; constructor.
  - unfold bw.
    match goal with
    | |- context [writer_with_pending ?on_a ?on_b] =>
        destruct (writer_with_pending_inboxes on_a on_b) as [-> ->]
    end.
    repeat constructor; apply sample_record_has_string_id.
  - exists b', w', n. split; [exact Hrun|]. split; [exact Hu | exact Hlen].
Defined.

(** X4: when the stored and the pending records all carry a string
    [message_id], a second [flush] right after the first finds nothing to
    write: it returns 0 and leaves the store and the broker as they are. *)
Theorem flush_again_writes_nothing (b : InMemoryBroker) (w : DataWriter) :
  Forall has_string_id (db w) ->
  Forall has_string_id (inbox b (_inbox_a w) ++ inbox b (_inbox_b w)) ->
  exists b' w' n,
    flush b w = Some (b', w', Ok n) /\
    flush b' w' = Some (b', w', Ok 0).
Proof.
  intros Hdb Hq. apply Forall_app in Hq as [Ha Hb].
  destruct (flush_spec b w Hdb Ha Hb)
    as (b' & w' & Hrun & _ & Hia & Hib & _ & _ & _ & Hea & Heb & _).
  eexists b', w', _. split; [exact Hrun|].
  apply flush_empty_inboxes; congruence.
Qed.

Lemma flush_again_writes_nothing_witness :
  let bw := writer_with_pending [sample_record "a-1" "s1" "t1"] [sample_record "b-1" "s1" "t1"] in
  exists b' w' n,
    flush bw.1 bw.2 = Some (b', w', Ok n) /\ flush b' w' = Some (b', w', Ok 0).
Proof.
  intros bw. apply (flush_again_writes_nothing bw.1 bw.2).
  - constructor.
  - unfold bw.
    match goal with
    | |- context [writer_with_pending ?on_a ?on_b] =>
        destruct (writer_with_pending_inboxes on_a on_b) as [-> ->]
    end.
    repeat constructor; apply sample_record_has_string_id.
Defined.

Lemma write_unidentified_first (w : DataWriter) (r0 m : message) (rest : list message) :
  db w = r0 :: rest -> unidentified r0 -> _write w m = (w, Raise KeyError).
Proof.
  intros Hdb Hr0. unfold _write. rewrite Hdb. simpl.
  unfold getitem. by rewrite Hr0.
Qed.

(** X5: a record without [message_id] taken from an inbox by [flush] while
    the store is empty is appended to the store although the call raises
    [KeyError]; the record is gone from the inbox, the records behind it
    stay pending, and from then on every [_write] raises [KeyError] and
    stores nothing. *)
Theorem flush_unidentified_record (b : InMemoryBroker) (w : DataWriter)
    (m : message) (rest : list message) :
  db w = [] -> inbox b (_inbox_a w) = m :: rest -> unidentified m ->
  exists b' w',
    flush b w = Some (b', w', Raise KeyError) /\
    db w' = [m] /\
    inbox b' (_inbox_a w) = rest /\
    (forall m', _write w' m' = (w', Raise KeyError)).
Proof.
  intros Hdb Hq Hm. unfold inbox in Hq.
  exists {| heap := <[_inbox_a w := rest]> (heap b);
            _work_queues := _work_queues b; _fanout := _fanout b |},
         {| _inbox_a := _inbox_a w; _inbox_b := _inbox_b w; db := [m] |}.
  split; [|split; [done|split]].
  - unfold flush. simpl. rewrite (get_nowait_head _ _ _ _ Hq).
    unfold _write. rewrite Hdb. simpl. unfold getitem. by rewrite Hm.
  - unfold inbox. simpl. apply contents_insert_eq. by eapply contents_head_valid.
  - intros m'. by eapply write_unidentified_first.
Qed.

Lemma flush_unidentified_record_witness :
  let bad : message := {[ "sensor_id" := VStr "s1" ]} in
  let bw := writer_with_pending [bad; sample_record "a-1" "s1" "t1"] [] in
  exists b' w',
    flush bw.1 bw.2 = Some (b', w', Raise KeyError) /\
    db w' = [bad] /\
    inbox b' (_inbox_a bw.2) = [sample_record "a-1" "s1" "t1"].
Proof.
  intros bad bw.
  destruct (flush_unidentified_record bw.1 bw.2 bad [sample_record "a-1" "s1" "t1"])
    as (b' & w' & Hrun & Hdb & Hq & _).
  - reflexivity.
  - vm_compute. reflexivity.
  - reflexivity.
  - exists b', w'. split; [exact Hrun|]. split; [exact Hdb | exact Hq].
Defined.

End writer_flush.

(** ** Broker: sharing, counting and isolation *)

Section broker_frame.
Import rabbitmq.

(** X6: whatever the components call, in whatever order, and also across
    a [purge_all], the broker's tables stay well formed: every reference
    points to a queue object, and no queue object is registered twice. *)
Theorem broker_never_shares_a_queue (before after : list call) :
  wf_broker (run new_broker before).1 /\
  wf_broker (run (purge_all (run new_broker before).1) after).1.
Proof.
  split.
  - apply wf_run. exact wf_new_broker.
  - apply wf_run. apply wf_purge_all.
Qed.

Lemma subscriber_count_step (b : InMemoryBroker) (c : call) (t : string) :
  fanout_subscriber_count (step b c).1 t = (fanout_subscriber_count b t + subscriptions t [c])%nat.
Proof.
  change (length (subscribers (step b c).1 t) = (length (subscribers b t) + subscriptions t [c])%nat).
  destruct c as [q m | who q timeout | t' | t' m]; unfold step; cbn [fst].
  - rewrite subscribers_publish_work. unfold subscriptions. simpl. lia.
  - rewrite subscribers_consume_work. unfold subscriptions. simpl. lia.
  - rewrite subscribers_subscribe. unfold subscriptions. simpl.
    destruct (decide (t = t')) as [-> | Hne].
    + rewrite bool_decide_eq_true_2 by done. rewrite length_app. simpl. lia.
    + rewrite bool_decide_eq_false_2 by congruence. simpl. lia.
  - rewrite subscribers_publish_fanout. unfold subscriptions. simpl. lia.
Qed.

Lemma subscriptions_cons (t : string) (c : call) (cs : list call) :
  subscriptions t (c :: cs) = (subscriptions t [c] + subscriptions t cs)%nat.
Proof.
  unfold subscriptions. simpl.
  destruct (match c with SubscribeFanout t' => bool_decide (t' = t) | _ => false end);
    simpl; lia.
Qed.

(** X7: the subscriber count of a topic after any history of calls and
    purges is the number of [subscribe_fanout] calls made on it since the
    last [purge_all]; when the history holds no purge, it is the count
    before plus the number of those calls.  No publish and no consume
    changes it, and only [purge_all] removes a subscription. *)
Theorem subscriber_count_counts_subscriptions (b : InMemoryBroker) (es : list event) (t : string) :
  fanout_subscriber_count (run_events b es) t
    = ((if purges es then 0 else fanout_subscriber_count b t)
       + subscriptions t (since_purge es))%nat.
Proof.
  revert b. induction es as [|[c|] es IH]; intros b; cbn [run_events purges since_purge].
  - unfold subscriptions. simpl. lia.
  - rewrite IH. destruct (purges es); [done|].
    rewrite (subscriptions_cons t c (since_purge es)), subscriber_count_step. lia.
  - rewrite IH. destruct (purges es); [done|].
    change (fanout_subscriber_count (purge_all b) t) with 0%nat. done.
Qed.

(** X8: the two delivery mechanisms are isolated.  A call on a work queue
    changes no other work queue and no subscriber's inbox; a subscription
    changes no queue and no existing inbox; a publish on a topic changes
    no work queue and no inbox of another topic. *)
Theorem broker_calls_are_isolated (b : InMemoryBroker) (c : call) :
  wf_broker b ->
  match c with
  | PublishWork q _ | ConsumeWork _ q _ =>
      (forall q', q' <> q -> pending (step b c).1 q' = pending b q') /\
      (forall t r, r ∈ subscribers b t -> inbox (step b c).1 r = inbox b r)
  | SubscribeFanout _ =>
      (forall q, pending (step b c).1 q = pending b q) /\
      (forall t r, r ∈ subscribers b t -> inbox (step b c).1 r = inbox b r)
  | PublishFanout t _ =>
      (forall q, pending (step b c).1 q = pending b q) /\
      (forall t' r, t' <> t -> r ∈ subscribers b t' -> inbox (step b c).1 r = inbox b r)
  end.
Proof.
  intros Hwf. destruct c as [q m | who q timeout | t | t m]; unfold step; cbn [fst].
  - split.
    + intros q' Hq'. rewrite pending_publish_work by done. by rewrite decide_False.
    + intros t r Hr. by eapply inbox_publish_work.
  - split.
    + intros q' Hq'. by apply pending_consume_work_ne.
    + intros t r Hr. by eapply inbox_consume_work.
  - split.
    + intros q. apply pending_subscribe.
    + intros t' r _. apply inbox_subscribe.
  - split.
    + intros q. by apply pending_publish_fanout.
    + intros t' r Hne Hr. rewrite inbox_publish_fanout by done.
      rewrite decide_False; [done|]. intros Hr'.
      apply Hne. by eapply subscribers_disjoint.
Qed.

Lemma broker_calls_are_isolated_witness :
  let b := (run new_broker [SubscribeFanout FEATURES_A;
                            PublishWork AUDIO_STREAM (sample_record "a-1" "s1" "t1")]).1 in
  wf_broker b /\
  pending (publish_fanout b FEATURES_A (sample_record "f-1" "s1" "t1")) AUDIO_STREAM
    = pending b AUDIO_STREAM.
Proof.
  intros b.
  assert (Hwf : wf_broker b) by (apply wf_run; exact wf_new_broker).
  split; [exact Hwf|].
  exact (proj1 (broker_calls_are_isolated b
                  (PublishFanout FEATURES_A (sample_record "f-1" "s1" "t1")) Hwf) AUDIO_STREAM).
Defined.

Lemma subscribe_fanout_fresh (b : InMemoryBroker) (t : string) :
  wf_broker b ->
  wf_broker (subscribe_fanout b t).1 /\
  (forall t', (subscribe_fanout b t).2 ∉ subscribers b t') /\
  inbox (subscribe_fanout b t).1 (subscribe_fanout b t).2 = [] /\
  subscribers (subscribe_fanout b t).1 t = subscribers b t ++ [(subscribe_fanout b t).2] /\
  (forall t', t' <> t -> subscribers (subscribe_fanout b t).1 t' = subscribers b t') /\
  (forall r, inbox (subscribe_fanout b t).1 r = inbox b r) /\
  (forall q, pending (subscribe_fanout b t).1 q = pending b q).
Proof.
  intros Hwf. split; [by apply wf_subscribe|]. split; [|split; [|split; [|split; [|split]]]].
  - intros t' Hin. apply (subscribers_valid b t' _ Hwf) in Hin. simpl in Hin. lia.
  - rewrite inbox_subscribe. unfold inbox, contents. simpl.
    by rewrite lookup_ge_None_2.
  - rewrite subscribers_subscribe. by rewrite decide_True.
  - intros t' Hne. rewrite subscribers_subscribe. by rewrite decide_False.
  - intros r. apply inbox_subscribe.
  - intros q. apply pending_subscribe.
Qed.

(** Two subscriptions in a row, as [DataWriter] and [create_app] make them. *)
Lemma subscribe_both_topics (b : InMemoryBroker) :
  wf_broker b ->
  let b1 := (subscribe_fanout b FEATURES_A).1 in
  let qa := (subscribe_fanout b FEATURES_A).2 in
  let b2 := (subscribe_fanout b1 FEATURES_B).1 in
  let qb := (subscribe_fanout b1 FEATURES_B).2 in
  wf_broker b2 /\
  subscribers b2 FEATURES_A = subscribers b FEATURES_A ++ [qa] /\
  subscribers b2 FEATURES_B = subscribers b FEATURES_B ++ [qb] /\
  qa <> qb /\
  (forall t', qa ∉ subscribers b t') /\ (forall t', qb ∉ subscribers b t') /\
  inbox b2 qa = [] /\ inbox b2 qb = [] /\
  (forall r, inbox b2 r = inbox b r) /\
  (forall q, pending b2 q = pending b q).
Proof.
  intros Hwf b1 qa b2 qb.
  destruct (subscribe_fanout_fresh b FEATURES_A Hwf) as (Hwf1 & Hf1 & He1 & Hs1 & Ho1 & Hi1 & Hp1).
  destruct (subscribe_fanout_fresh b1 FEATURES_B Hwf1) as (Hwf2 & Hf2 & He2 & Hs2 & Ho2 & Hi2 & Hp2).
  fold b1 qa in He1, Hs1, Hf1. fold b2 qb in He2, Hs2, Hf2.
  split; [exact Hwf2|]. split; [|split; [|split; [|split; [|split; [|split; [|split; [|split]]]]]]].
  - unfold b2. rewrite Ho2 by done. exact Hs1.
  - rewrite Hs2. f_equal. unfold b1. by apply Ho1.
  - unfold qa, qb. simpl. rewrite length_app. simpl. lia.
  - exact Hf1.
  - intros t' Hin. apply (subscribers_valid b t' _ Hwf) in Hin.
    unfold qb in Hin. simpl in Hin. rewrite length_app in Hin. simpl in Hin. lia.
  - unfold b2. rewrite Hi2. exact He1.
  - exact He2.
  - intros r. unfold b2. rewrite Hi2. apply Hi1.
  - intros q. unfold b2. rewrite Hp2. apply Hp1.
Qed.

(** X9: the three subscribing components register at construction.  Each
    inbox is a fresh queue object, appended to the subscribers of its
    topic and empty; the broker stays well formed, and no work queue and
    no existing inbox is changed.  The writer starts with an empty store
    and the application with an empty cache and an empty rate tracker. *)
Theorem components_subscribe_at_construction (b : InMemoryBroker) :
  wf_broker b ->
  (wf_broker (data_writer.new_writer b).1 /\
   subscribers (data_writer.new_writer b).1 FEATURES_A
     = subscribers b FEATURES_A ++ [data_writer._inbox_a (data_writer.new_writer b).2] /\
   subscribers (data_writer.new_writer b).1 FEATURES_B
     = subscribers b FEATURES_B ++ [data_writer._inbox_b (data_writer.new_writer b).2] /\
   data_writer._inbox_a (data_writer.new_writer b).2
     <> data_writer._inbox_b (data_writer.new_writer b).2 /\
   data_writer.db (data_writer.new_writer b).2 = [] /\
   (forall r, inbox (data_writer.new_writer b).1 r = inbox b r) /\
   (forall q, pending (data_writer.new_writer b).1 q = pending b q)) /\
  (wf_broker (algorithm_b.new_algorithm b).1 /\
   subscribers (algorithm_b.new_algorithm b).1 FEATURES_A
     = subscribers b FEATURES_A ++ [algorithm_b._inbox (algorithm_b.new_algorithm b).2] /\
   subscribers (algorithm_b.new_algorithm b).1 FEATURES_B = subscribers b FEATURES_B /\
   algorithm_b.processed_count (algorithm_b.new_algorithm b).2 = 0%nat /\
   (forall r, inbox (algorithm_b.new_algorithm b).1 r = inbox b r) /\
   (forall q, pending (algorithm_b.new_algorithm b).1 q = pending b q)) /\
  (wf_broker (rest_api.create_app b).1 /\
   subscribers (rest_api.create_app b).1 FEATURES_A
     = subscribers b FEATURES_A ++ [rest_api._inbox_a (rest_api.create_app b).2] /\
   subscribers (rest_api.create_app b).1 FEATURES_B
     = subscribers b FEATURES_B ++ [rest_api._inbox_b (rest_api.create_app b).2] /\
   rest_api._inbox_a (rest_api.create_app b).2 <> rest_api._inbox_b (rest_api.create_app b).2 /\
   rest_api._cache (rest_api.create_app b).2 = [] /\
   rest_api._rate_tracker (rest_api.create_app b).2 = ∅ /\
   (forall r, inbox (rest_api.create_app b).1 r = inbox b r) /\
   (forall q, pending (rest_api.create_app b).1 q = pending b q)).
Proof.
  intros Hwf.
  destruct (subscribe_both_topics b Hwf) as (H1 & H2 & H3 & H4 & _ & _ & _ & _ & H5 & H6).
  destruct (subscribe_fanout_fresh b FEATURES_A Hwf) as (G1 & _ & _ & G2 & G3 & G4 & G5).
  split; [|split].
  - unfold data_writer.new_writer. cbn. done.
  - change (algorithm_b.new_algorithm b).1 with (subscribe_fanout b FEATURES_A).1.
    change (algorithm_b._inbox (algorithm_b.new_algorithm b).2)
      with (subscribe_fanout b FEATURES_A).2.
    split; [exact G1|]. split; [exact G2|]. split; [by apply G3|].
    split; [done|]. split; [exact G4 | exact G5].
  - unfold rest_api.create_app. cbn. done.
Qed.

Lemma components_subscribe_at_construction_witness :
  let b := (algorithm_b.new_algorithm new_broker).1 in
  subscribers (data_writer.new_writer b).1 FEATURES_A = [0; 1]%nat /\
  subscribers (data_writer.new_writer b).1 FEATURES_B = [2]%nat.
Proof.
  intros b.
  destruct (components_subscribe_at_construction b) as ((_ & Ha & Hb & _) & _).
  - exact (wf_subscribe new_broker FEATURES_A wf_new_broker).
  - split; [rewrite Ha | rewrite Hb]; vm_compute; reflexivity.
Defined.

End broker_frame.

(** ** Stage processors: one step and the records produced *)

Section stage_effects.
Context {rt : PyRuntime}.
Import rabbitmq.

Lemma process_a_on_broker (st : system) (b1 : InMemoryBroker) (m : message) :
  (algorithm_a.process (set_broker st b1) m).2 = (algorithm_a.process st m).2 /\
  broker (algorithm_a.process (set_broker st b1) m).1 = b1 /\
  writer (algorithm_a.process (set_broker st b1) m).1 = writer st.
Proof. unfold algorithm_a.process. by destruct (algorithm_a._validate m) as [[]|e]. Qed.

Lemma process_b_on_broker (st : system) (b1 : InMemoryBroker) (m : message) :
  (algorithm_b.process (set_broker st b1) m).2 = (algorithm_b.process st m).2 /\
  broker (algorithm_b.process (set_broker st b1) m).1 = b1 /\
  writer (algorithm_b.process (set_broker st b1) m).1 = writer st.
Proof. unfold algorithm_b.process. by destruct (algorithm_b._validate m) as [[]|e]. Qed.

Lemma process_a_ok_draws (st : system) (m out : message) :
  (algorithm_a.process st m).2 = Ok out ->
  draws (algorithm_a.process st m).1 = S (draws st).
Proof. unfold algorithm_a.process. by destruct (algorithm_a._validate m) as [[]|e]. Qed.

Lemma process_b_ok_draws (st : system) (m out : message) :
  (algorithm_b.process st m).2 = Ok out ->
  draws (algorithm_b.process st m).1 = S (draws st).
Proof. unfold algorithm_b.process. by destruct (algorithm_b._validate m) as [[]|e]. Qed.

(** One [process_one] of Stage A on a queue that is not empty. *)
Lemma process_one_a_step (self : algorithm_a.AlgorithmA) (st : system)
    (m : message) (rest : list message) :
  wf_broker (broker st) -> pending (broker st) AUDIO_STREAM = m :: rest ->
  exists st',
    wf_broker (broker st') /\
    pending (broker st') AUDIO_STREAM = rest /\
    (forall q, q <> AUDIO_STREAM -> pending (broker st') q = pending (broker st) q) /\
    (forall t, subscribers (broker st') t = subscribers (broker st) t) /\
    writer st' = writer st /\
    match (algorithm_a.process st m).2 with
    | Ok out =>
        algorithm_a.process_one self st =
          ({| algorithm_a.processed_count := S (algorithm_a.processed_count self) |},
           st', Ok (Some out)) /\
        draws st' = S (draws st) /\
        (forall t r, r ∈ subscribers (broker st) t ->
           inbox (broker st') r =
           if decide (t = FEATURES_A) then inbox (broker st) r ++ [out]
           else inbox (broker st) r)
    | Raise e =>
        algorithm_a.process_one self st = (self, st', Raise e) /\
        (forall t r, r ∈ subscribers (broker st) t ->
           inbox (broker st') r = inbox (broker st) r)
    end.
Proof.
  intros Hwf Hp.
  pose proof (consume_work_head (broker st) AUDIO_STREAM (NInt 0) Hwf) as Hc.
  rewrite Hp in Hc. destruct Hc as [Hres Hrest].
  pose proof (wf_consume_work (broker st) AUDIO_STREAM (NInt 0) Hwf) as Hwf1.
  assert (Hsub1 : forall t, subscribers (consume_work (broker st) AUDIO_STREAM (NInt 0)).1 t
                            = subscribers (broker st) t)
    by (intros t; apply subscribers_consume_work).
  assert (Hin1 : forall t r, r ∈ subscribers (broker st) t ->
                   inbox (consume_work (broker st) AUDIO_STREAM (NInt 0)).1 r
                   = inbox (broker st) r)
    by (intros t r Hr; by eapply inbox_consume_work).
  assert (Hp1 : forall q, q <> AUDIO_STREAM ->
                  pending (consume_work (broker st) AUDIO_STREAM (NInt 0)).1 q
                  = pending (broker st) q)
    by (intros q Hq; by apply pending_consume_work_ne).
  unfold algorithm_a.process_one.
  destruct (consume_work (broker st) AUDIO_STREAM (NInt 0)) as [b1 res].
  cbn [fst snd] in Hres, Hrest, Hwf1, Hsub1, Hin1, Hp1. subst res.
  destruct (process_a_on_broker st b1 m) as (Hr & Hb & Hw).
  pose proof (process_a_ok_inv (set_broker st b1) m) as Hinv.
  pose proof (process_a_ok_draws (set_broker st b1) m) as Hd.
  destruct (algorithm_a.process (set_broker st b1) m) as [st2 r].
  cbn [fst snd] in Hr, Hb, Hw, Hinv, Hd. rewrite <- Hr. destruct r as [out|e].
  - destruct (Hinv out eq_refl) as ([x1 H1] & [x2 H2] & [x3 H3]).
    exists (set_broker st2 (publish_fanout (broker st2) FEATURES_A out)).
    cbn [broker writer draws set_broker]. rewrite Hb.
    split; [by apply wf_publish_fanout|].
    split; [by rewrite pending_publish_fanout|].
    split; [intros q Hq; rewrite pending_publish_fanout by done; by apply Hp1|].
    split; [intros t; by rewrite subscribers_publish_fanout|].
    split; [exact Hw|].
    split; [|split].
    + unfold getitem. rewrite H1, H2, H3. reflexivity.
    + exact (Hd out eq_refl).
    + intros t r Hr'. rewrite inbox_publish_fanout by done. rewrite Hsub1.
      rewrite (Hin1 t r Hr').
      destruct (decide (t = FEATURES_A)) as [-> | Hne].
      * by rewrite decide_True.
      * rewrite decide_False; [done|]. intros Hr''.
        exact (Hne (subscribers_disjoint (broker st) t FEATURES_A r Hwf Hr' Hr'')).
  - exists st2. rewrite Hb. done.
Qed.

(** One [process_one] of Stage B on an inbox that is not empty. *)
Lemma process_one_b_step (self : algorithm_b.AlgorithmB) (st : system)
    (m : message) (rest : list message) :
  wf_broker (broker st) ->
  algorithm_b._inbox self ∈ subscribers (broker st) FEATURES_A ->
  inbox (broker st) (algorithm_b._inbox self) = m :: rest ->
  exists st',
    wf_broker (broker st') /\
    inbox (broker st') (algorithm_b._inbox self) = rest /\
    (forall q, pending (broker st') q = pending (broker st) q) /\
    (forall t, subscribers (broker st') t = subscribers (broker st) t) /\
    writer st' = writer st /\
    match (algorithm_b.process st m).2 with
    | Ok out =>
        algorithm_b.process_one self st =
          ({| algorithm_b._inbox := algorithm_b._inbox self;
              algorithm_b.processed_count := S (algorithm_b.processed_count self) |},
           st', Ok (Some out)) /\
        draws st' = S (draws st) /\
        (forall t r, r ∈ subscribers (broker st) t -> r <> algorithm_b._inbox self ->
           inbox (broker st') r =
           if decide (t = FEATURES_B) then inbox (broker st) r ++ [out]
           else inbox (broker st) r)
    | Raise e =>
        algorithm_b.process_one self st = (self, st', Raise e) /\
        (forall t r, r ∈ subscribers (broker st) t -> r <> algorithm_b._inbox self ->
           inbox (broker st') r = inbox (broker st) r)
    end.
Proof.
  intros Hwf Hsub Hp. unfold inbox in Hp.
  set (q := algorithm_b._inbox self) in *.
  set (b1 := {| heap := <[q := rest]> (heap (broker st));
                _work_queues := _work_queues (broker st);
                _fanout := _fanout (broker st) |}).
  assert (Hwf1 : wf_broker b1) by (apply wf_same_length; [done | by rewrite length_insert]).
  assert (Hq1 : inbox b1 q = rest)
    by (apply contents_insert_eq; by eapply contents_head_valid).
  assert (Hin1 : forall r, r <> q -> inbox b1 r = inbox (broker st) r)
    by (intros r Hr; by apply contents_insert_ne).
  assert (Hp1 : forall w, pending b1 w = pending (broker st) w).
  { intros w. unfold pending. cbn [_work_queues b1].
    destruct (_work_queues (broker st) !! w) as [r|] eqn:Hr; [|done].
    apply Hin1. intros ->. by apply (work_not_subscriber (broker st) w FEATURES_A q). }
  assert (HqB : q ∉ subscribers b1 FEATURES_B).
  { intros Hin. by pose proof (subscribers_disjoint (broker st) _ _ q Hwf Hsub Hin). }
  unfold algorithm_b.process_one. fold q.
  rewrite (get_nowait_head _ _ _ _ Hp). fold b1.
  destruct (process_b_on_broker st b1 m) as (Hr & Hb & Hw).
  pose proof (process_b_ok_inv (set_broker st b1) m) as Hinv.
  pose proof (process_b_ok_draws (set_broker st b1) m) as Hd.
  destruct (algorithm_b.process (set_broker st b1) m) as [st2 r].
  cbn [fst snd] in Hr, Hb, Hw, Hinv, Hd. rewrite <- Hr. destruct r as [out|e].
  - destruct (Hinv out eq_refl) as ([x1 H1] & [x2 H2] & (d & H3 & [x4 H4])).
    exists (set_broker st2 (publish_fanout (broker st2) FEATURES_B out)).
    cbn [broker writer draws set_broker]. rewrite Hb.
    split; [by apply wf_publish_fanout|].
    split; [rewrite inbox_publish_fanout by done; by rewrite decide_False|].
    split; [intros w; rewrite pending_publish_fanout by done; by apply Hp1|].
    split; [intros t; by rewrite subscribers_publish_fanout|].
    split; [exact Hw|].
    split; [|split].
    + unfold getitem. rewrite H1, H2, H3. cbn [mbind result_bind]. rewrite H4. reflexivity.
    + exact (Hd out eq_refl).
    + intros t r Hr' Hrq. rewrite inbox_publish_fanout by done.
      change (subscribers b1 FEATURES_B) with (subscribers (broker st) FEATURES_B).
      rewrite (Hin1 r Hrq).
      destruct (decide (t = FEATURES_B)) as [-> | Hne].
      * by rewrite decide_True.
      * rewrite decide_False; [done|]. intros Hr''.
        exact (Hne (subscribers_disjoint (broker st) t FEATURES_B r Hwf Hr' Hr'')).
  - exists st2. rewrite Hb. split; [done|]. split; [done|]. split; [done|].
    split; [done|]. split; [done|]. split; [done|].
    intros t r _ Hrq. by apply Hin1.
Qed.

(** X10: one [process_one] of Stage A takes exactly the head of the audio
    queue.  When [process] returns a record, that record is appended once
    to the inbox of every [features_a] subscriber and to no other inbox,
    and the counter goes up by one; when [process] raises, the message is
    gone from the queue, nothing is published and the counter stays. *)
Theorem process_one_a_consumes_and_publishes (self : algorithm_a.AlgorithmA) (st : system)
    (m : message) (rest : list message) :
  wf_broker (broker st) -> pending (broker st) AUDIO_STREAM = m :: rest ->
  (forall out, (algorithm_a.process st m).2 = Ok out ->
     exists st',
       algorithm_a.process_one self st =
         ({| algorithm_a.processed_count := S (algorithm_a.processed_count self) |},
          st', Ok (Some out)) /\
       pending (broker st') AUDIO_STREAM = rest /\
       (forall t r, r ∈ subscribers (broker st) t ->
          inbox (broker st') r =
          if decide (t = FEATURES_A) then inbox (broker st) r ++ [out]
          else inbox (broker st) r)) /\
  (forall e, (algorithm_a.process st m).2 = Raise e ->
     exists st',
       algorithm_a.process_one self st = (self, st', Raise e) /\
       pending (broker st') AUDIO_STREAM = rest /\
       (forall t r, r ∈ subscribers (broker st) t ->
          inbox (broker st') r = inbox (broker st) r)).
Proof.
  intros Hwf Hp.
  destruct (process_one_a_step self st m rest Hwf Hp) as (st' & _ & Hrest & _ & _ & _ & Hcase).
  split.
  - intros out Hout. rewrite Hout in Hcase. destruct Hcase as (Hrun & _ & Hin).
    by exists st'.
  - intros e He. rewrite He in Hcase. destruct Hcase as (Hrun & Hin).
    by exists st'.
Qed.

(** X11: one [process_one] of Stage B takes exactly the head of its own
    inbox.  When [process] returns a record, that record is appended once
    to the inbox of every [features_b] subscriber and to no other inbox,
    and the counter goes up by one; when [process] raises, the message is
    gone from the inbox, nothing is published and the counter stays.  No
    work queue is touched either way. *)
Theorem process_one_b_consumes_and_publishes (self : algorithm_b.AlgorithmB) (st : system)
    (m : message) (rest : list message) :
  wf_broker (broker st) ->
  algorithm_b._inbox self ∈ subscribers (broker st) FEATURES_A ->
  inbox (broker st) (algorithm_b._inbox self) = m :: rest ->
  (forall out, (algorithm_b.process st m).2 = Ok out ->
     exists st',
       algorithm_b.process_one self st =
         ({| algorithm_b._inbox := algorithm_b._inbox self;
             algorithm_b.processed_count := S (algorithm_b.processed_count self) |},
          st', Ok (Some out)) /\
       inbox (broker st') (algorithm_b._inbox self) = rest /\
       (forall q, pending (broker st') q = pending (broker st) q) /\
       (forall t r, r ∈ subscribers (broker st) t -> r <> algorithm_b._inbox self ->
          inbox (broker st') r =
          if decide (t = FEATURES_B) then inbox (broker st) r ++ [out]
          else inbox (broker st) r)) /\
  (forall e, (algorithm_b.process st m).2 = Raise e ->
     exists st',
       algorithm_b.process_one self st = (self, st', Raise e) /\
       inbox (broker st') (algorithm_b._inbox self) = rest /\
       (forall q, pending (broker st') q = pending (broker st) q) /\
       (forall t r, r ∈ subscribers (broker st) t -> r <> algorithm_b._inbox self ->
          inbox (broker st') r = inbox (broker st) r)).
Proof.
  intros Hwf Hsub Hp.
  destruct (process_one_b_step self st m rest Hwf Hsub Hp)
    as (st' & _ & Hrest & Hpend & _ & _ & Hcase).
  split.
  - intros out Hout. rewrite Hout in Hcase. destruct Hcase as (Hrun & _ & Hin).
    by exists st'.
  - intros e He. rewrite He in Hcase. destruct Hcase as (Hrun & Hin).
    by exists st'.
Qed.

End stage_effects.

Lemma sample_feature_a_derives (id ts : string) :
  exists f, @algorithm_b._derive_features sample_runtime (sample_feature_a id ts) = Ok f.
Proof. vm_compute. eexists. reflexivity. Qed.

Lemma sample_feature_a_accepted (id ts : string) :
  @accepted_b sample_runtime (sample_feature_a id ts).
Proof.
  intros st. destruct (sample_feature_a_derives id ts) as [f Hf].
  change (sample_feature_a id ts)
    with (feature_record (VStr id) (VStr "audio-0") (VStr "A") (VStr "sensor-01") (VStr ts)
            (VStr "2024-01-15T10:00:01+00:00")
            (VDict {[ "mfcc" := VList (map (fun i => VFloat (f_lit i 10)) (seqZ 0 13));
                      "spectral_centroid" := VFloat (float_of_Z 540);
                      "zero_crossing_rate" := VFloat (f_lit 55 1000);
                      "rms_energy" := VFloat (f_lit 11 100) ]})) in *.
  rewrite (@process_b_accepts sample_runtime st _ _ _ _ _ _ f Hf).
  eexists. reflexivity.
Qed.

Lemma process_one_a_consumes_and_publishes_witness :
  let st := system_with_audio [sample_audio "a-1"; sample_audio "a-2"] in
  wf_broker (broker st) /\
  exists st' out,
    @algorithm_a.process_one sample_runtime algorithm_a.new_algorithm st
      = ({| algorithm_a.processed_count := 1 |}, st', Ok (Some out)) /\
    pending (broker st') rabbitmq.AUDIO_STREAM = [sample_audio "a-2"].
Proof.
  intros st.
  assert (Hwf : wf_broker (broker st)) by (apply wf_run, wf_new_broker).
  split; [exact Hwf|].
  destruct (sample_audio_accepted "a-1" st) as [out Hout].
  destruct (proj1 (@process_one_a_consumes_and_publishes sample_runtime
                     algorithm_a.new_algorithm st
                     (sample_audio "a-1") [sample_audio "a-2"] Hwf ltac:(vm_compute; reflexivity))
              out Hout)
    as (st' & Hrun & Hp & _).
  exists st', out. split; [exact Hrun | exact Hp].
Defined.

Lemma process_one_b_consumes_and_publishes_witness :
  let bs := algorithm_b.new_algorithm rabbitmq.new_broker in
  let st := set_broker empty_system
              (rabbitmq.publish_fanout bs.1 rabbitmq.FEATURES_A
                 (sample_feature_a "fa-1" "2024-01-15T10:00:00+00:00")) in
  wf_broker (broker st) /\
  exists st' out,
    @algorithm_b.process_one sample_runtime bs.2 st
      = ({| algorithm_b._inbox := 0; algorithm_b.processed_count := 1 |}, st', Ok (Some out)) /\
    inbox (broker st') (algorithm_b._inbox bs.2) = [].
Proof.
  intros bs st.
  assert (Hwf : wf_broker (broker st))
    by (apply wf_publish_fanout; exact (wf_subscribe _ rabbitmq.FEATURES_A wf_new_broker)).
  split; [exact Hwf|].
  destruct (sample_feature_a_accepted "fa-1" "2024-01-15T10:00:00+00:00" st) as [out Hout].
  destruct (proj1 (@process_one_b_consumes_and_publishes sample_runtime bs.2 st
                     (sample_feature_a "fa-1" "2024-01-15T10:00:00+00:00") [] Hwf
                     ltac:(vm_compute; repeat constructor) ltac:(vm_compute; reflexivity))
              out Hout)
    as (st' & Hrun & Hp & _).
  exists st', out. split; [exact Hrun | exact Hp].
Defined.

Section stage_records.
Context {rt : PyRuntime}.

Lemma process_a_ok_record (st : system) (m out : message) :
  (algorithm_a.process st m).2 = Ok out ->
  exists source sensor ts features,
    out = feature_record (VStr (uuid4 (draws st))) source (VStr "A") sensor ts
            (VStr (utcnow_isoformat (draws st))) features /\
    m !! "message_id" = Some source /\ m !! "sensor_id" = Some sensor /\
    m !! "timestamp" = Some ts.
Proof.
  unfold algorithm_a.process.
  destruct (algorithm_a._validate m) as [[]|e] eqn:Hv; [|done].
  destruct (validate_a_fields m Hv) as (source & sensor & ts & audio & H1 & H2 & H3 & H4).
  unfold getitem. rewrite H1, H2, H3, H4. cbn [snd mbind result_bind].
  destruct (algorithm_a._extract_features audio) as [f|e]; [|done].
  cbn [mbind result_bind]. intros [= <-]. by exists source, sensor, ts, f.
Qed.

Lemma process_b_ok_record (st : system) (m out : message) :
  (algorithm_b.process st m).2 = Ok out ->
  exists source sensor ts features,
    out = feature_record (VStr (uuid4 (draws st))) source (VStr "B") sensor ts
            (VStr (utcnow_isoformat (draws st))) features /\
    m !! "message_id" = Some source /\ m !! "sensor_id" = Some sensor /\
    m !! "timestamp" = Some ts /\
    algorithm_b._derive_features m = Ok features.
Proof.
  unfold algorithm_b.process.
  destruct (algorithm_b._validate m) as [[]|e] eqn:Hv; [|done].
  destruct (validate_b_fields m Hv) as (source & sensor & ts & H1 & H2 & H3).
  unfold getitem. rewrite H1, H2, H3. cbn [snd mbind result_bind].
  destruct (algorithm_b._derive_features m) as [f|e] eqn:Hd; [|done].
  cbn [mbind result_bind]. intros [= <-]. by exists source, sensor, ts, f.
Qed.

(** X12: a record returned by Stage A has exactly the seven fields of a
    feature record, passes Stage B's validation, and is refused by Stage A
    itself (it has no [audio_data]). *)
Theorem stage_a_record_is_stage_b_input (st st' : system) (m out : message) :
  (algorithm_a.process st m).2 = Ok out ->
  dom out = ({["message_id"; "source_message_id"; "feature_type"; "sensor_id";
               "timestamp"; "processed_at"; "features"]} : gset string) /\
  out !! "feature_type" = Some (VStr "A") /\
  algorithm_b._validate out = Ok tt /\
  algorithm_a.process st' out = (st', Raise ValueError).
Proof.
  intros Hout.
  destruct (process_a_ok_record st m out Hout) as (source & sensor & ts & f & -> & _).
  split; [|split; [reflexivity|split; [reflexivity|]]].
  - unfold feature_record. rewrite !dom_insert_L, dom_singleton_L. set_solver.
  - by apply process_a_rejects.
Qed.

(** X13: a record returned by Stage B is final: Stage B refuses it with
    [TypeError] (its [feature_type] is ["B"]) and Stage A with
    [ValueError], so no record is processed twice by feeding it back. *)
Theorem stage_b_record_is_final (st st' : system) (m out : message) :
  (algorithm_b.process st m).2 = Ok out ->
  out !! "feature_type" = Some (VStr "B") /\
  out !! "source_message_id" = m !! "message_id" /\
  algorithm_b.process st' out = (st', Raise TypeError) /\
  algorithm_a.process st' out = (st', Raise ValueError).
Proof.
  intros Hout.
  destruct (process_b_ok_record st m out Hout) as (source & sensor & ts & f & -> & Hs & _).
  split; [reflexivity|]. split; [by rewrite Hs|]. split.
  - by apply process_b_rejects.
  - by apply process_a_rejects.
Qed.

Lemma byte_sum_permutation (raw1 raw2 : list Z) (a : Z) :
  raw1 ≡ₚ raw2 -> fold_left Z.add raw1 a = fold_left Z.add raw2 a.
Proof.
  intros Hp. revert a.
  induction Hp as [|x l1 l2 _ IH|x y l|l1 l2 l3 _ IH1 _ IH2]; intros a; simpl.
  - done.
  - apply IH.
  - f_equal. lia.
  - by rewrite IH1.
Qed.

(** X14: the Feature-A payload depends on the audio only through the sum of
    its bytes modulo 1000: two payloads with the same residue, such as two
    orderings of the same bytes, give the same features.  The payload has
    the four feature fields and thirteen MFCC coefficients. *)
Theorem extract_features_depends_on_byte_sum (s1 s2 : string) (raw1 raw2 : list Z) :
  b64decode (s1 +:+ "==") = Ok raw1 -> b64decode (s2 +:+ "==") = Ok raw2 ->
  seed_of raw1 = seed_of raw2 \/ raw1 ≡ₚ raw2 ->
  algorithm_a._extract_features (VStr s1) = algorithm_a._extract_features (VStr s2) /\
  exists d mfcc,
    algorithm_a._extract_features (VStr s1) = Ok (VDict d) /\
    dom d = ({["mfcc"; "spectral_centroid"; "zero_crossing_rate"; "rms_energy"]} : gset string) /\
    d !! "mfcc" = Some (VList mfcc) /\ length mfcc = 13.
Proof.
  intros H1 H2 Hseed.
  assert (Hs : seed_of raw1 = seed_of raw2).
  { destruct Hseed as [Hs | Hp]; [done|]. unfold seed_of. by rewrite (byte_sum_permutation _ _ _ Hp). }
  rewrite (extract_features_ok s1 raw1 H1), (extract_features_ok s2 raw2 H2), Hs.
  split; [done|]. unfold stage_a_features.
  eexists _, _. split; [reflexivity|]. split; [|split; [reflexivity|]].
  - rewrite !dom_insert_L, dom_singleton_L. set_solver.
  - rewrite length_map. unfold stage_a_mfcc. by rewrite length_map, length_seqZ.
Qed.

(** X15: whenever Stage B derives features, the classification is one of the
    five labels, the confidence is a float and the three derived metrics
    are numbers. *)
Theorem derive_features_labels (m : message) (f : value) :
  algorithm_b._derive_features m = Ok f ->
  exists name confidence mean spread activity,
    f = VDict {[ "classification" := VStr name;
                 "confidence" := VFloat confidence;
                 "derived_metrics" := VDict {[ "mfcc_mean" := mean;
                                               "spectral_spread" := spread;
                                               "activity_score" := activity ]} ]} /\
    name ∈ algorithm_b._CLASSIFICATIONS /\
    is_Some (as_num mean) /\ is_Some (as_num spread) /\ is_Some (as_num activity).
Proof.
  unfold algorithm_b._derive_features.
  repeat match goal with
         | |- context [mbind ?k ?x] =>
             let E := fresh "E" in destruct x eqn:E; cbn [mbind result_bind]; try done
         end.
  intros [= <-]. eexists _, _, _, _, _. split; [reflexivity|].
  split.
  - match goal with
    | E : match algorithm_b._CLASSIFICATIONS !! ?i with _ => _ end = Ok ?a |- ?a ∈ _ =>
        destruct (algorithm_b._CLASSIFICATIONS !! i) eqn:El; [|done];
        injection E as <-; by eapply list_elem_of_lookup_2
    end.
  - repeat split;
      match goal with
      | |- is_Some (as_num (algorithm_b.py_round ?n _)) => destruct n; by eexists
      end.
Qed.

(** X16: what [_derive_features] does at the edges of its input.  Without a
    [features] field it raises [KeyError]; with one that is no dict it
    raises [AttributeError]; with a dict that has none of the fields it
    reads, the defaults apply and the classification is ["speech"]. *)
Theorem derive_features_defaults (m : message) :
  (m !! "features" = None -> algorithm_b._derive_features m = Raise KeyError) /\
  (forall v, m !! "features" = Some v -> (forall d, v <> VDict d) ->
     algorithm_b._derive_features m = Raise AttributeError) /\
  (forall d, m !! "features" = Some (VDict d) ->
     d !! "mfcc" = None -> d !! "spectral_centroid" = None -> d !! "rms_energy" = None ->
     exists d',
       algorithm_b._derive_features m = Ok (VDict d') /\
       d' !! "classification" = Some (VStr "speech")).
Proof.
  unfold algorithm_b._derive_features, getitem. split; [|split].
  - by intros ->.
  - intros v -> Hv. destruct v; try done. by destruct (Hv d).
  - intros d -> H1 H2 H3. cbn [mbind result_bind].
    unfold dict_get_default. rewrite H1, H2, H3. cbn [default].
    assert (Hmean : algorithm_b.mean_of (VList [VInt 0]) = Ok (NFloat (S754_zero false)))
      by (vm_compute; reflexivity).
    rewrite Hmean. cbn [mbind result_bind].
    change (algorithm_b.number (VFloat (float_of_Z 440))) with (Ok (NFloat (float_of_Z 440))).
    cbn [mbind result_bind].
    assert (Hprod : num_mul (NFloat (S754_zero false)) (NFloat (float_of_Z 440))
                    = Ok (NFloat (S754_zero false))) by (vm_compute; reflexivity).
    rewrite Hprod. cbn [mbind result_bind].
    change (int_of_num (num_abs (NFloat (S754_zero false)))) with (Ok 0%Z).
    cbn [mbind result_bind].
    change (algorithm_b._CLASSIFICATIONS
              !! Z.to_nat (0 mod Z.of_nat (length algorithm_b._CLASSIFICATIONS)))
      with (Some "speech").
    cbn [mbind result_bind].
    change (float_of_num (NFloat (S754_zero false))) with (Ok (S754_zero false)).
    cbn [mbind result_bind].
    change (algorithm_b.number (VFloat (f_lit 1 10))) with (Ok (NFloat (f_lit 1 10))).
    cbn [mbind result_bind].
    change (float_of_num (NFloat (f_lit 1 10))) with (Ok (f_lit 1 10)).
    cbn [mbind result_bind].
    change (num_mul (NFloat (float_of_Z 440)) (NFloat (f_lit 1 10)))
      with (Ok (NFloat (f_mul (float_of_Z 440) (f_lit 1 10)))).
    cbn [mbind result_bind].
    assert (Hten : num_mul (NFloat (f_lit 1 10)) (NInt 10)
                   = Ok (NFloat (f_mul (f_lit 1 10) (float_of_Z 10))))
      by (vm_compute; reflexivity).
    rewrite Hten. cbn [mbind result_bind].
    eexists. split; [reflexivity|]. reflexivity.
Qed.

End stage_records.

Lemma stage_a_record_is_stage_b_input_witness :
  exists out,
    (@algorithm_a.process sample_runtime empty_system (sample_audio "a-1")).2 = Ok out /\
    @algorithm_b._validate out = Ok tt.
Proof.
  destruct (sample_audio_accepted "a-1" empty_system) as [out Hout].
  exists out. split; [exact Hout|].
  exact (proj1 (proj2 (proj2
    (@stage_a_record_is_stage_b_input sample_runtime empty_system empty_system
       (sample_audio "a-1") out Hout)))).
Defined.

Lemma stage_b_record_is_final_witness :
  exists out,
    (@algorithm_b.process sample_runtime empty_system
       (sample_feature_a "fa-1" "2024-01-15T10:00:00+00:00")).2 = Ok out /\
    @algorithm_b.process sample_runtime empty_system out = (empty_system, Raise TypeError).
Proof.
  destruct (sample_feature_a_accepted "fa-1" "2024-01-15T10:00:00+00:00" empty_system)
    as [out Hout].
  exists out. split; [exact Hout|].
  exact (proj1 (proj2 (proj2
    (@stage_b_record_is_final sample_runtime empty_system empty_system _ out Hout)))).
Defined.

Lemma extract_features_depends_on_byte_sum_witness :
  @algorithm_a._extract_features sample_runtime (VStr "dGVzdGF1ZGlvZGF0YQ==")
  = @algorithm_a._extract_features sample_runtime (VStr "YXRhZG9pZHVhdHNldA==").
Proof.
  refine (proj1 (@extract_features_depends_on_byte_sum sample_runtime
            "dGVzdGF1ZGlvZGF0YQ==" "YXRhZG9pZHVhdHNldA=="
            [116; 101; 115; 116; 97; 117; 100; 105; 111; 100; 97; 116; 97]%Z
            [97; 116; 97; 100; 111; 105; 100; 117; 97; 116; 115; 101; 116]%Z
            _ _ _)).
  - vm_compute. reflexivity.
  - vm_compute. reflexivity.
  - left. vm_compute. reflexivity.
Defined.

Lemma derive_features_labels_witness :
  exists f name,
    @algorithm_b._derive_features sample_runtime
      (sample_feature_a "fa-1" "2024-01-15T10:00:00+00:00") = Ok f /\
    name ∈ algorithm_b._CLASSIFICATIONS.
Proof.
  destruct (sample_feature_a_derives "fa-1" "2024-01-15T10:00:00+00:00") as [f Hf].
  destruct (@derive_features_labels sample_runtime _ f Hf) as (name & _ & _ & _ & _ & _ & Hn & _).
  exists f, name. split; [exact Hf | exact Hn].
Defined.

(** ** Sensor *)

Section sensor_publish.
Context {rt : PyRuntime} {srt : sensor.SensorRuntime}.
Import rabbitmq sensor.

(** The message [publish_audio] builds, by its four fields. *)
Lemma publish_audio_message (self : Sensor) (st : system) (audio_data timestamp : option string) :
  exists n a t,
    (publish_audio self st audio_data timestamp).2
      = {[ "message_id" := VStr (uuid4 n); "sensor_id" := VStr (sensor_id self);
           "timestamp" := VStr t; "audio_data" := VStr a ]} /\
    (publish_audio self st audio_data timestamp).1
      = {| broker := publish_work (broker st) AUDIO_STREAM
                       (publish_audio self st audio_data timestamp).2;
           writer := writer st; draws := S n |} /\
    (draws st <= n)%nat /\
    match audio_data with
    | Some a' => a = a' /\ n = draws st
    | None => a = b64encode (SYNTHETIC_PREFIX ++ uuid4_bytes (draws st)) /\ n = S (draws st)
    end /\
    match data_writer.supplied timestamp with
    | Some t' => t = t'
    | None => t = utcnow_isoformat n
    end.
Proof.
  unfold publish_audio.
  destruct audio_data as [a|]; destruct (data_writer.supplied timestamp) as [t|];
    eexists _, _, _; (split; [reflexivity|]); (split; [reflexivity|]);
    (split; [simpl; lia|]); done.
Qed.

(** X17: [publish_audio] appends the message it returns at the tail of the
    audio queue and changes nothing else of the broker and nothing of the
    writer.  The message has exactly the four fields Stage A requires and
    carries the sensor's identifier. *)
Theorem publish_audio_enqueues (self : Sensor) (st : system) (audio_data timestamp : option string) :
  wf_broker (broker st) ->
  pending (broker (publish_audio self st audio_data timestamp).1) AUDIO_STREAM
    = pending (broker st) AUDIO_STREAM ++ [(publish_audio self st audio_data timestamp).2] /\
  wf_broker (broker (publish_audio self st audio_data timestamp).1) /\
  (forall q, q <> AUDIO_STREAM ->
     pending (broker (publish_audio self st audio_data timestamp).1) q = pending (broker st) q) /\
  (forall t r, r ∈ subscribers (broker st) t ->
     inbox (broker (publish_audio self st audio_data timestamp).1) r = inbox (broker st) r) /\
  writer (publish_audio self st audio_data timestamp).1 = writer st /\
  (draws st < draws (publish_audio self st audio_data timestamp).1)%nat /\
  dom (publish_audio self st audio_data timestamp).2
    = ({["message_id"; "sensor_id"; "timestamp"; "audio_data"]} : gset string) /\
  (publish_audio self st audio_data timestamp).2 !! "sensor_id" = Some (VStr (sensor_id self)) /\
  missing_fields algorithm_a._REQUIRED_FIELDS (publish_audio self st audio_data timestamp).2 = [].
Proof.
  intros Hwf.
  destruct (publish_audio_message self st audio_data timestamp)
    as (n & a & t & Hmsg & Hst & Hn & _).
  rewrite Hst. cbn [broker writer draws]. rewrite Hmsg.
  split; [|split; [|split; [|split; [|split; [|split; [|split; [|split]]]]]]].
  - rewrite pending_publish_work by done. by rewrite decide_True.
  - by apply wf_publish_work.
  - intros q Hq. rewrite pending_publish_work by done. by rewrite decide_False.
  - intros t' r Hr. by eapply inbox_publish_work.
  - done.
  - lia.
  - rewrite !dom_insert_L, dom_singleton_L. set_solver.
  - reflexivity.
  - reflexivity.
Qed.

(** X18: the two optional arguments of [publish_audio] are not treated
    alike.  An empty [timestamp] is replaced by the clock reading, as a
    missing one is; an empty [audio_data] is published as it is, and Stage A
    refuses that message ([audio_data cannot be empty]). *)
Theorem publish_audio_empty_arguments (self : Sensor) (st st' : system)
    (audio_data timestamp : option string) :
  publish_audio self st audio_data (Some "") = publish_audio self st audio_data None /\
  (publish_audio self st (Some "") timestamp).2 !! "audio_data" = Some (VStr "") /\
  algorithm_a.process st' (publish_audio self st (Some "") timestamp).2
    = (st', Raise ValueError).
Proof.
  split; [reflexivity|].
  destruct (publish_audio_message self st (Some "") timestamp)
    as (n & a & t & Hmsg & _ & _ & [-> ->] & _).
  rewrite Hmsg. split; [reflexivity|].
  by apply process_a_rejects.
Qed.

(** What Stage A makes of a message published with audio that decodes
    and a timestamp that parses. *)
Lemma publish_audio_accepted (self : Sensor) (st : system) (a t : string) (raw : list Z) :
  a <> "" -> t <> "" ->
  b64decode (a +:+ "==") = Ok raw -> fromisoformat_ok (replace_Z t) = true ->
  (publish_audio self st (Some a) (Some t)).1
    = {| broker := publish_work (broker st) AUDIO_STREAM
                     (publish_audio self st (Some a) (Some t)).2;
         writer := writer st; draws := S (draws st) |} /\
  forall st',
    algorithm_a.process st' (publish_audio self st (Some a) (Some t)).2
    = ({| broker := broker st'; writer := writer st'; draws := S (draws st') |},
       Ok (feature_record (VStr (uuid4 (draws st'))) (VStr (uuid4 (draws st)))
             (VStr "A") (VStr (sensor_id self)) (VStr t)
             (VStr (utcnow_isoformat (draws st')))
             (stage_a_features (seed_of raw)))).
Proof.
  intros Ha Ht Hraw Hts.
  set (msg := (publish_audio self st (Some a) (Some t)).2).
  assert (Hmsg : msg = {[ "message_id" := VStr (uuid4 (draws st));
                          "sensor_id" := VStr (sensor_id self);
                          "timestamp" := VStr t; "audio_data" := VStr a ]}).
  { unfold msg, publish_audio, data_writer.supplied. cbn.
    by rewrite bool_decide_eq_false_2. }
  split; [reflexivity|]. intros st'.
  assert (H1 : msg !! "message_id" = Some (VStr (uuid4 (draws st)))) by (by rewrite Hmsg).
  assert (H2 : msg !! "sensor_id" = Some (VStr (sensor_id self))) by (by rewrite Hmsg).
  assert (H3 : msg !! "timestamp" = Some (VStr t)) by (by rewrite Hmsg).
  assert (H4 : msg !! "audio_data" = Some (VStr a)) by (by rewrite Hmsg).
  assert (Hv : algorithm_a._validate msg = Ok tt).
  { unfold algorithm_a._validate, missing_fields, has_key, getitem,
      algorithm_a._REQUIRED_FIELDS.
    cbn [List.filter]. rewrite H1, H2, H3, H4. cbn.
    rewrite bool_decide_eq_false_2 by done. cbn. by rewrite Hts. }
  destruct (process_a_accepts st' msg (VStr a) _ Hv H4 (extract_features_ok a raw Hraw))
    as (source & sensor & ts & Hsrc & Hsen & Htsv & Hproc).
  rewrite H1 in Hsrc. rewrite H2 in Hsen. rewrite H3 in Htsv.
  injection Hsrc as <-. injection Hsen as <-. injection Htsv as <-.
  exact Hproc.
Qed.

(** X19: a message published by a sensor into an empty audio queue is what
    the next [process_one] of Stage A takes.  When the audio decodes and
    the timestamp parses, the Feature-A record names the sensor's message
    as its source, carries the sensor's identifier and timestamp, and is
    delivered to every [features_a] subscriber; the audio queue is empty
    again. *)
Theorem sensor_message_reaches_stage_a (self : Sensor) (algo : algorithm_a.AlgorithmA)
    (st : system) (a t : string) (raw : list Z) :
  wf_broker (broker st) -> pending (broker st) AUDIO_STREAM = [] ->
  a <> "" -> t <> "" ->
  b64decode (a +:+ "==") = Ok raw -> fromisoformat_ok (replace_Z t) = true ->
  exists st2,
    algorithm_a.process_one algo (publish_audio self st (Some a) (Some t)).1
      = ({| algorithm_a.processed_count := S (algorithm_a.processed_count algo) |}, st2,
         Ok (Some (feature_record (VStr (uuid4 (S (draws st)))) (VStr (uuid4 (draws st)))
                     (VStr "A") (VStr (sensor_id self)) (VStr t)
                     (VStr (utcnow_isoformat (S (draws st))))
                     (stage_a_features (seed_of raw))))) /\
    pending (broker st2) AUDIO_STREAM = [] /\
    (forall r, r ∈ subscribers (broker st) FEATURES_A ->
       inbox (broker st2) r
       = inbox (broker st) r ++
         [feature_record (VStr (uuid4 (S (draws st)))) (VStr (uuid4 (draws st)))
            (VStr "A") (VStr (sensor_id self)) (VStr t)
            (VStr (utcnow_isoformat (S (draws st))))
            (stage_a_features (seed_of raw))]).
Proof.
  intros Hwf Hempty Ha Ht Hraw Hts.
  destruct (publish_audio_accepted self st a t raw Ha Ht Hraw Hts) as [Hst1 Hproc].
  set (st1 := (publish_audio self st (Some a) (Some t)).1) in *.
  set (msg := (publish_audio self st (Some a) (Some t)).2) in *.
  assert (Hwf1 : wf_broker (broker st1)) by (rewrite Hst1; by apply wf_publish_work).
  assert (Hp1 : pending (broker st1) AUDIO_STREAM = [msg]).
  { rewrite Hst1. cbn [broker]. rewrite pending_publish_work by done.
    by rewrite decide_True, Hempty. }
  assert (Hsub1 : forall t', subscribers (broker st1) t' = subscribers (broker st) t')
    by (intros t'; rewrite Hst1; apply subscribers_publish_work).
  assert (Hin1 : forall t' r, r ∈ subscribers (broker st) t' ->
                   inbox (broker st1) r = inbox (broker st) r)
    by (intros t' r Hr; rewrite Hst1; by eapply inbox_publish_work).
  destruct (process_one_a_step algo st1 msg [] Hwf1 Hp1)
    as (st2 & _ & Hrest & _ & _ & _ & Hcase).
  rewrite (Hproc st1) in Hcase. cbn [snd] in Hcase.
  destruct Hcase as (Hrun & _ & Hin).
  assert (Hd1 : draws st1 = S (draws st)) by (by rewrite Hst1).
  rewrite Hd1 in Hrun, Hin.
  exists st2. split; [exact Hrun|]. split; [exact Hrest|].
  intros r Hr. rewrite <- Hsub1 in Hr. rewrite (Hin FEATURES_A r Hr).
  rewrite decide_True by done. rewrite Hsub1 in Hr. by rewrite (Hin1 FEATURES_A r Hr).
Qed.

(** X20: a sensor keeps the identifier it is given; without one (or with an
    empty one) it takes the name [sensor-] followed by at most eight
    characters of a fresh UUID, and only then draws from the generator. *)
Theorem new_sensor_identifier (st : system) (id : option string) :
  (forall s, id = Some s -> s <> "" ->
     new_sensor st id = (st, {| sensor_id := s |})) /\
  (id = None \/ id = Some "" ->
     exists suffix,
       sensor_id (new_sensor st id).2 = "sensor-" +:+ suffix /\
       (String.length suffix <= 8)%nat /\
       String.prefix suffix (uuid4_hex (draws st)) = true /\
       draws (new_sensor st id).1 = S (draws st) /\
       broker (new_sensor st id).1 = broker st).
Proof.
  split.
  - intros s -> Hs. unfold new_sensor, data_writer.supplied.
    by rewrite bool_decide_eq_false_2.
  - intros Hid.
    assert (Hsup : data_writer.supplied id = None) by (by destruct Hid as [-> | ->]).
    unfold new_sensor. rewrite Hsup. cbn [fst snd sensor_id draws broker].
    exists (substring 0 8 (uuid4_hex (draws st))).
    split; [done|]. split; [|split; [|done]].
    + generalize (uuid4_hex (draws st)) 8%nat. intros s n. revert n.
      induction s as [|c s IH]; intros [|n]; simpl; try lia.
      specialize (IH n). lia.
    + generalize (uuid4_hex (draws st)) 8%nat. intros s n. revert n.
      induction s as [|c s IH]; intros [|n]; simpl; try done.
      rewrite IH. by destruct (Ascii.ascii_dec c c).
Qed.

End sensor_publish.

Lemma publish_audio_enqueues_witness :
  let self := {| sensor.sensor_id := "sensor-test" |} in
  wf_broker (broker empty_system) /\
  pending (broker (@sensor.publish_audio sample_runtime sample_sensor_runtime
                     self empty_system None None).1) rabbitmq.AUDIO_STREAM
    = [(@sensor.publish_audio sample_runtime sample_sensor_runtime
          self empty_system None None).2].
Proof.
  intros self. split; [exact wf_new_broker|].
  exact (proj1 (@publish_audio_enqueues sample_runtime sample_sensor_runtime
                  self empty_system None None wf_new_broker)).
Defined.

Lemma sensor_message_reaches_stage_a_witness :
  let self := {| sensor.sensor_id := "sensor-test" |} in
  exists st2 out,
    @algorithm_a.process_one sample_runtime algorithm_a.new_algorithm
      (@sensor.publish_audio sample_runtime sample_sensor_runtime self empty_system
         (Some "dGVzdGF1ZGlvZGF0YQ==") (Some "2024-01-15T10:00:00Z")).1
      = ({| algorithm_a.processed_count := 1 |}, st2, Ok (Some out)) /\
    out !! "sensor_id" = Some (VStr "sensor-test") /\
    out !! "source_message_id" = Some (VStr "uuid-0").
Proof.
  intros self.
  destruct (@sensor_message_reaches_stage_a sample_runtime sample_sensor_runtime
              self algorithm_a.new_algorithm empty_system
              "dGVzdGF1ZGlvZGF0YQ==" "2024-01-15T10:00:00Z"
              [116; 101; 115; 116; 97; 117; 100; 105; 111; 100; 97; 116; 97]%Z
              wf_new_broker ltac:(reflexivity) ltac:(discriminate) ltac:(discriminate)
              ltac:(vm_compute; reflexivity) ltac:(vm_compute; reflexivity))
    as (st2 & Hrun & _).
  eexists st2, _. split; [exact Hrun|]. split; reflexivity.
Defined.

(** ** REST API *)

Section rest_api_auth.
Import rabbitmq rest_api.
Variable VALID_TOKENS : gset string.




End rest_api_auth.

Section rest_api_limit.
Import rabbitmq rest_api.

Lemma window_positive : (0 < window)%Z.
Proof. reflexivity. Qed.

Lemma filter_filter_later (lo1 lo2 : Z) (ts : list Z) :
  (lo1 <= lo2)%Z ->
  List.filter (fun t => (lo2 <? t)%Z) (List.filter (fun t => (lo1 <? t)%Z) ts)
  = List.filter (fun t => (lo2 <? t)%Z) ts.
Proof.
  intros Hlo. induction ts as [|t ts IH]; simpl; [done|].
  destruct (lo1 <? t)%Z eqn:H1; simpl.
  - by rewrite IH.
  - rewrite IH. destruct (lo2 <? t)%Z eqn:H2; [lia | done].
Qed.

Lemma filter_length_le {A} (f : A -> bool) (l : list A) :
  (length (List.filter f l) <= length l)%nat.
Proof. induction l as [|x l IH]; simpl; [lia|]. destruct (f x); simpl; lia. Qed.

Lemma filter_length_mono {A} (f g : A -> bool) (l : list A) :
  (forall x, f x = true -> g x = true) ->
  (length (List.filter f l) <= length (List.filter g l))%nat.
Proof.
  intros Hfg. induction l as [|x l IH]; simpl; [lia|].
  destruct (f x) eqn:Hf.
  - rewrite (Hfg x Hf). simpl. lia.
  - destruct (g x); simpl; lia.
Qed.

Lemma tracks_other (app : App) (req : Request) (now : Z) (client : string)
    (acc : list Z) (last : Z) :
  client_of req <> client -> (last <= now)%Z ->
  tracks app client acc last -> tracks (_rate_limit_ok app req now).1 client acc now.
Proof.
  intros Hne Hle (seen & Hseen & Hh & Hacc & Hlen).
  exists seen. unfold _rate_limit_ok.
  destruct (RATE_LIMIT_MAX <=? _)%nat; cbn [fst _rate_tracker];
    rewrite lookup_insert_ne by done; (split; [lia | done]).
Qed.

Lemma tracks_same (app : App) (req : Request) (now : Z) (acc : list Z) (last : Z) :
  (last <= now)%Z ->
  tracks app (client_of req) acc last ->
  (_rate_limit_ok app req now).2
    = (length (List.filter (fun t => (now - window <? t)%Z) acc) <? RATE_LIMIT_MAX)%nat /\
  tracks (_rate_limit_ok app req now).1 (client_of req)
         (if (_rate_limit_ok app req now).2 then acc ++ [now] else acc) now.
Proof.
  intros Hle (seen & Hseen & Hh & Hacc & Hlen).
  unfold _rate_limit_ok. rewrite Hh.
  fold window. rewrite filter_filter_later by lia.
  set (pruned := List.filter (fun t => (now - window <? t)%Z) acc).
  assert (Hpl : (length pruned <= RATE_LIMIT_MAX)%nat).
  { rewrite Hh in Hlen. etrans; [|exact Hlen].
    apply filter_length_mono. intros x Hx. apply Z.ltb_lt in Hx. apply Z.ltb_lt. lia. }
  destruct (RATE_LIMIT_MAX <=? length pruned)%nat eqn:Hfull; cbn [fst snd].
  - apply Nat.leb_le in Hfull. split; [symmetry; apply Nat.ltb_ge; lia|].
    exists now. cbn [_rate_tracker]. rewrite lookup_insert_eq. cbn [default from_option id].
    split; [lia|]. split; [done|]. split; [|done].
    eapply Forall_impl; [exact Hacc|]. intros t Ht. simpl in Ht. lia.
  - apply Nat.leb_gt in Hfull. split; [symmetry; apply Nat.ltb_lt; lia|].
    exists now. cbn [_rate_tracker]. rewrite lookup_insert_eq. cbn [default from_option id].
    split; [lia|]. split; [|split].
    + rewrite List.filter_app. simpl.
      assert (Hnow : (now - window <? now)%Z = true)
        by (apply Z.ltb_lt; pose proof window_positive; lia).
      by rewrite Hnow.
    + apply Forall_app. split.
      * eapply Forall_impl; [exact Hacc|]. intros t Ht. simpl in Ht. lia.
      * by constructor.
    + rewrite length_app. simpl. lia.
Qed.

Lemma within_window_app (T : Z) (xs ys : list Z) :
  within_window T (xs ++ ys) = within_window T xs ++ within_window T ys.
Proof. apply List.filter_app. Qed.

Lemma within_window_recent (T now : Z) (acc : list Z) :
  (now <= T)%Z ->
  (length (within_window T acc)
   <= length (List.filter (fun t => (now - window <? t)%Z) acc))%nat.
Proof.
  intros Hle. apply filter_length_mono. intros t Ht.
  apply andb_prop in Ht as [Ht _]. apply Z.ltb_lt in Ht. apply Z.ltb_lt.
  fold window in Ht. lia.
Qed.

Lemma within_window_all (now : Z) (acc : list Z) :
  Forall (fun t => (t <= now)%Z) acc ->
  within_window now acc = List.filter (fun t => (now - window <? t)%Z) acc.
Proof.
  induction 1 as [|t acc Ht _ IH]; [done|].
  unfold within_window in *. simpl. fold window in *. rewrite IH.
  assert (Hle : (t <=? now)%Z = true) by by apply Z.leb_le.
  by rewrite Hle, andb_true_r.
Qed.

Lemma last_nonempty (x : Z) (l : list Z) (d d' : Z) :
  List.last (x :: l) d = List.last (x :: l) d'.
Proof.
  revert x. induction l as [|y l IH]; intros x; [done|].
  change (List.last (y :: l) d = List.last (y :: l) d'). apply IH.
Qed.

Lemma last_cons (x : Z) (l : list Z) (d : Z) : List.last (x :: l) d = List.last l x.
Proof.
  destruct l as [|y l]; [done|].
  change (List.last (y :: l) d = List.last (y :: l) x). apply last_nonempty.
Qed.

Lemma sorted_snoc (l : list Z) (now : Z) :
  Sorted Z.le (l ++ [now]) -> Sorted Z.le l /\ (List.last l now <= now)%Z.
Proof.
  induction l as [|x l IH]; intros Hs.
  - split; [constructor | simpl; lia].
  - simpl in Hs. apply Sorted_inv in Hs as [Hs Hhd].
    destruct (IH Hs) as [Hl Hlast]. split.
    + constructor; [done|]. destruct l; [constructor|].
      simpl in Hhd. apply HdRel_inv in Hhd. by constructor.
    + rewrite last_cons. destruct l as [|y l].
      * simpl in *. by apply HdRel_inv in Hhd.
      * rewrite (last_nonempty y l x now). exact Hlast.
Qed.

(** The run of the limiter, for one client: what the tracker holds
    afterwards, and the bound on every window. *)
Lemma limit_all_inv (client : string) (calls : list (Request * Z)) :
  forall (app : App) (acc : list Z) (last : Z),
    Sorted Z.le (last :: map snd calls) ->
    tracks app client acc last ->
    (forall T, (length (within_window T acc) <= RATE_LIMIT_MAX)%nat) ->
    tracks (limit_all app calls).1 client
           (acc ++ admitted_times client calls (limit_all app calls).2)
           (List.last (map snd calls) last) /\
    (forall T, (length (within_window T
                  (acc ++ admitted_times client calls (limit_all app calls).2))
                <= RATE_LIMIT_MAX)%nat).
Proof.
  induction calls as [|[req now] calls IH]; intros app acc last Hsorted Htr Hwin.
  - simpl. by rewrite app_nil_r.
  - apply Sorted_inv in Hsorted as [Hsorted Hhd]. apply HdRel_inv in Hhd.
    cbn [snd] in Hhd.
    change (map snd ((req, now) :: calls)) with (now :: map snd calls) in *.
    rewrite last_cons. cbn [limit_all fst snd admitted_times].
    destruct (decide (client_of req = client)) as [<- | Hne].
    + rewrite bool_decide_eq_true_2 by done. rewrite andb_true_r.
      destruct (tracks_same app req now acc last Hhd Htr) as [Hans Htr1].
      destruct (_rate_limit_ok app req now).2 eqn:Hok.
      * replace (acc ++ now :: admitted_times (client_of req) calls
                           (limit_all (_rate_limit_ok app req now).1 calls).2)
          with ((acc ++ [now]) ++ admitted_times (client_of req) calls
                           (limit_all (_rate_limit_ok app req now).1 calls).2)
          by (by rewrite <- app_assoc).
        apply IH; [done | done |].
        intros T. rewrite within_window_app, length_app.
        symmetry in Hans. apply Nat.ltb_lt in Hans.
        destruct (decide (now <= T)%Z) as [Hle | Hgt].
        -- pose proof (within_window_recent T now acc Hle).
           assert (Hone : (length (within_window T [now]) <= 1)%nat)
             by apply (filter_length_le _ [now]).
           lia.
        -- unfold within_window at 2. simpl.
           assert (Hout : (now <=? T)%Z = false) by (apply Z.leb_gt; lia).
           rewrite Hout, andb_false_r. simpl. specialize (Hwin T). lia.
      * by apply IH.
    + rewrite bool_decide_eq_false_2 by done. rewrite andb_false_r.
      apply (IH _ acc now); [done | by apply (tracks_other _ _ _ _ _ last) | done].
Qed.

Lemma tracks_fresh (app : App) (client : string) (last : Z) :
  _rate_tracker app !! client = None -> tracks app client [] last.
Proof.
  intros Hnone. exists last. rewrite Hnone. simpl.
  split; [lia|]. split; [done|]. split; [constructor | lia].
Qed.

Lemma sorted_from_head (t : Z) (ts : list Z) :
  Sorted Z.le (t :: ts) -> Sorted Z.le (t :: t :: ts).
Proof. intros Hs. constructor; [done|]. constructor. lia. Qed.

(** X22: the rate limit holds over every window.  Whatever requests arrive,
    from whatever clients, as long as the clock does not go back, the
    requests of one client that were admitted within any 60 seconds number
    at most [RATE_LIMIT_MAX]. *)
Theorem rate_limit_holds_in_every_window (app : App) (calls : list (Request * Z))
    (client : string) (T : Z) :
  _rate_tracker app !! client = None ->
  nondecreasing (map snd calls) ->
  (length (within_window T (admitted_times client calls (limit_all app calls).2))
   <= RATE_LIMIT_MAX)%nat.
Proof.
  intros Hfresh Hsorted. destruct calls as [|[req t0] calls]; [simpl; lia|].
  destruct (limit_all_inv client ((req, t0) :: calls) app [] t0) as [_ Hwin].
  - by apply sorted_from_head.
  - by apply tracks_fresh.
  - intros T'. simpl. lia.
  - exact (Hwin T).
Qed.

(** X23: a request is refused exactly when the quota is used up: after any
    run in which the clock does not go back, the next request of a client
    is admitted if and only if fewer than [RATE_LIMIT_MAX] of its requests
    were admitted in the 60 seconds up to that request.  Requests of other
    clients, and refused requests, do not count. *)
Theorem rate_limit_admits_under_quota (app : App) (calls : list (Request * Z))
    (req : Request) (now : Z) :
  _rate_tracker app !! client_of req = None ->
  nondecreasing (map snd calls ++ [now]) ->
  (_rate_limit_ok (limit_all app calls).1 req now).2
  = (length (within_window now
               (admitted_times (client_of req) calls (limit_all app calls).2))
     <? RATE_LIMIT_MAX)%nat.
Proof.
  intros Hfresh Hsorted.
  assert (Htr : exists last, (last <= now)%Z /\
            tracks (limit_all app calls).1 (client_of req)
                   (admitted_times (client_of req) calls (limit_all app calls).2) last).
  { destruct (sorted_snoc _ _ Hsorted) as [Hs Hlast].
    destruct calls as [|[req0 t0] calls].
    - exists now. split; [lia|]. by apply tracks_fresh.
    - change (map snd ((req0, t0) :: calls)) with (t0 :: map snd calls) in Hs, Hlast.
      exists (List.last (t0 :: map snd calls) t0). split.
      + by rewrite (last_nonempty t0 _ t0 now).
      + destruct (limit_all_inv (client_of req) ((req0, t0) :: calls) app [] t0) as [Htr _].
        * by apply sorted_from_head.
        * by apply tracks_fresh.
        * intros T'. simpl. lia.
        * exact Htr. }
  destruct Htr as (last & Hle & Htr).
  destruct (tracks_same _ req now _ last Hle Htr) as [Hans _].
  rewrite Hans. do 2 f_equal. symmetry. apply within_window_all.
  destruct Htr as (seen & Hseen & _ & Hacc & _).
  eapply Forall_impl; [exact Hacc|]. intros t Ht. simpl in Ht. lia.
Qed.

End rest_api_limit.

Section rest_api_cache.
Import rabbitmq rest_api.

Lemma drain_inbox_drains (fuel r : nat) (h : list (list message))
    (cache : list (message * Z)) (now : Z) :
  (length (contents h r) < fuel)%nat ->
  exists h',
    drain_inbox fuel r h cache now = Some (h', cache ++ stamped now (contents h r)) /\
    contents h' r = [] /\
    (forall r', r' <> r -> contents h' r' = contents h r') /\
    length h' = length h.
Proof.
  revert h cache. induction fuel as [|fuel IH]; intros h cache Hfuel; [lia|].
  destruct (contents h r) as [|m rest] eqn:Hc.
  - exists h. simpl. rewrite (get_nowait_empty _ _ Hc). by rewrite app_nil_r.
  - simpl. rewrite (get_nowait_head _ _ _ _ Hc).
    pose proof (contents_head_valid _ _ _ _ Hc) as Hvalid.
    assert (Hc' : contents (<[r := rest]> h) r = rest) by by apply contents_insert_eq.
    destruct (IH (<[r := rest]> h) (cache ++ [(m, now)])) as (h' & Hrun & He & Ho & Hl).
    { rewrite Hc'. simpl in Hfuel. lia. }
    exists h'. rewrite Hrun, Hc'. split; [by rewrite <- app_assoc|].
    split; [done|]. split.
    + intros r' Hr'. rewrite Ho by done. by apply contents_insert_ne.
    + by rewrite Hl, length_insert.
Qed.

Lemma evict_sorted (cutoff : Z) (cache : list (message * Z)) :
  Sorted Z.le (map snd cache) ->
  evict cutoff cache = List.filter (fun e => (cutoff <=? e.2)%Z) cache.
Proof.
  induction cache as [|[m t] cache IH]; intros Hs; [done|].
  simpl in Hs. pose proof Hs as Hs0. apply Sorted_inv in Hs as [Hs Hhd].
  simpl. destruct (t <? cutoff)%Z eqn:Hlt.
  - apply Z.ltb_lt in Hlt.
    assert (Hle : (cutoff <=? t)%Z = false) by (apply Z.leb_gt; lia).
    rewrite Hle. by apply IH.
  - apply Z.ltb_ge in Hlt.
    assert (Hle : (cutoff <=? t)%Z = true) by (apply Z.leb_le; lia).
    rewrite Hle. f_equal.
    apply Sorted_StronglySorted in Hs0; [|intros x y z; lia].
    apply StronglySorted_inv in Hs0 as [_ Hall].
    clear -Hall Hlt. induction cache as [|[m' t'] cache IHc]; [done|].
    simpl in Hall. apply Forall_cons in Hall as [Ht' Hall].
    simpl. assert (Hle' : (cutoff <=? t')%Z = true) by (apply Z.leb_le; lia).
    rewrite Hle'. f_equal. by apply IHc.
Qed.

(** [_drain_and_refresh_cache] as a function of the cache and of the two
    inboxes. *)
Lemma refresh_cache_spec (app : App) (b : InMemoryBroker) (now : Z) :
  exists b',
    _drain_and_refresh_cache app b now
      = Some ({| _inbox_a := _inbox_a app; _inbox_b := _inbox_b app;
                 _cache := evict (now - timedelta_minutes CACHE_MINUTES)
                             (_cache app ++
                              stamped now
                                (inbox b (_inbox_a app) ++
                                 (if decide (_inbox_b app = _inbox_a app) then []
                                  else inbox b (_inbox_b app))));
                 _rate_tracker := _rate_tracker app |}, b') /\
    _work_queues b' = _work_queues b /\ _fanout b' = _fanout b /\
    length (heap b') = length (heap b) /\
    inbox b' (_inbox_a app) = [] /\ inbox b' (_inbox_b app) = [] /\
    (forall r, r <> _inbox_a app -> r <> _inbox_b app -> inbox b' r = inbox b r).
Proof.
  unfold _drain_and_refresh_cache, inbox.
  destruct (drain_inbox_drains (S (qsize (_inbox_a app) (heap b))) (_inbox_a app) (heap b)
              (_cache app) now) as (h1 & Hrun1 & He1 & Ho1 & Hl1).
  { unfold qsize, contents. lia. }
  rewrite Hrun1.
  destruct (drain_inbox_drains (S (qsize (_inbox_b app) h1)) (_inbox_b app) h1
              (_cache app ++ stamped now (contents (heap b) (_inbox_a app))) now)
    as (h2 & Hrun2 & He2 & Ho2 & Hl2).
  { unfold qsize, contents. lia. }
  rewrite Hrun2.
  exists {| heap := h2; _work_queues := _work_queues b; _fanout := _fanout b |}.
  assert (Hqb : contents h1 (_inbox_b app)
                = if decide (_inbox_b app = _inbox_a app) then []
                  else contents (heap b) (_inbox_b app)).
  { destruct (decide (_inbox_b app = _inbox_a app)) as [-> | Hne]; [done | by apply Ho1]. }
  rewrite Hqb. unfold stamped. rewrite <- app_assoc, <- map_app.
  split; [done|]. split; [done|]. split; [done|]. split; [simpl; congruence|].
  split; [|split; [done|]].
  - simpl. destruct (decide (_inbox_a app = _inbox_b app)) as [Heq | Hne].
    + by rewrite Heq.
    + by rewrite Ho2.
  - intros r Hra Hrb. simpl. rewrite Ho2 by done. by apply Ho1.
Qed.

(** X24: a refresh of the real-time cache, made when the clock has not gone
    back since the entries were received, empties both inboxes of the
    application and leaves in the cache exactly the entries received in the
    last [CACHE_MINUTES] minutes, oldest first, followed by the messages
    just taken: those of the Feature-A inbox, then those of the Feature-B
    inbox. *)
Theorem refresh_cache_keeps_recent_entries (app : App) (b : InMemoryBroker) (now : Z) :
  _inbox_a app <> _inbox_b app ->
  nondecreasing (map snd (_cache app) ++ [now]) ->
  exists app' b',
    _drain_and_refresh_cache app b now = Some (app', b') /\
    _cache app' = recent_entries now (_cache app) ++
                  stamped now (inbox b (_inbox_a app) ++ inbox b (_inbox_b app)) /\
    inbox b' (_inbox_a app) = [] /\ inbox b' (_inbox_b app) = [] /\
    Forall (fun e => (now - timedelta_minutes CACHE_MINUTES <= e.2 <= now)%Z) (_cache app') /\
    nondecreasing (map snd (_cache app') ++ [now]).
Proof.
  intros Hne Hsorted.
  destruct (refresh_cache_spec app b now) as (b' & Hrun & _ & _ & _ & Ha & Hb & _).
  rewrite decide_False in Hrun by congruence.
  set (new := inbox b (_inbox_a app) ++ inbox b (_inbox_b app)) in *.
  set (cutoff := (now - timedelta_minutes CACHE_MINUTES)%Z) in *.
  assert (Hcut : (cutoff <= now)%Z).
  { assert (0 < timedelta_minutes CACHE_MINUTES)%Z by reflexivity. unfold cutoff. lia. }
  assert (Hs : Sorted Z.le (map snd (_cache app)) /\ Forall (fun e => (e.2 <= now)%Z) (_cache app)).
  { clear -Hsorted. unfold nondecreasing in Hsorted.
    apply Sorted_StronglySorted in Hsorted; [|intros x y z; lia].
    induction (_cache app) as [|[m t] cache IH]; [split; constructor|].
    simpl in Hsorted. apply StronglySorted_inv in Hsorted as [Hs Hall].
    destruct (IH Hs) as [IH1 IH2]. split.
    - constructor; [done|]. destruct cache as [|[m' t'] cache]; [constructor|].
      constructor. simpl in Hall. apply Forall_cons in Hall as [Ht _]. exact Ht.
    - constructor; [|done]. simpl. rewrite Forall_app in Hall.
      destruct Hall as [_ Hnow]. by apply Forall_cons in Hnow as [Hnow _]. }
  destruct Hs as [Hs Hold].
  assert (Hevict : evict cutoff (_cache app ++ stamped now new)
                   = recent_entries now (_cache app) ++ stamped now new).
  { rewrite evict_sorted.
    - rewrite List.filter_app. f_equal. unfold stamped.
      clear -Hcut. induction new as [|m new IH]; [done|].
      simpl. assert (Hle : (cutoff <=? now)%Z = true) by by apply Z.leb_le.
      rewrite Hle. by rewrite IH.
    - rewrite map_app. clear -Hs Hold.
      induction (_cache app) as [|[m t] cache IH].
      + simpl. unfold stamped. induction new as [|x new IHn]; [constructor|].
        simpl. constructor; [done|]. destruct new; constructor. simpl. lia.
      + simpl in *. apply Sorted_inv in Hs as [Hs Hhd].
        apply Forall_cons in Hold as [Ht Hold]. simpl in Ht.
        constructor; [by apply IH|].
        destruct cache as [|[m' t'] cache].
        * simpl. unfold stamped. destruct new; constructor. simpl. lia.
        * simpl. constructor. by apply HdRel_inv in Hhd. }
  rewrite Hevict in Hrun.
  eexists _, b'. split; [exact Hrun|]. cbn [_cache].
  split; [done|]. split; [exact Ha|]. split; [exact Hb|].
  assert (Hall : Forall (fun e => (cutoff <= e.2 <= now)%Z)
                   (recent_entries now (_cache app) ++ stamped now new)).
  { apply Forall_app. split.
    - unfold recent_entries. fold cutoff. clear -Hold.
      induction (_cache app) as [|[m t] cache IH]; [constructor|].
      apply Forall_cons in Hold as [Ht Hold]. simpl in *.
      destruct (cutoff <=? t)%Z eqn:Hle; [|by apply IH].
      apply Z.leb_le in Hle. constructor; [simpl; lia | by apply IH].
    - unfold stamped. clear -Hcut. induction new as [|m new IH]; [constructor|].
      simpl. constructor; [simpl; lia | done]. }
  split; [exact Hall|].
  unfold nondecreasing. rewrite map_app.
  assert (Hrecent : Sorted Z.le (map snd (recent_entries now (_cache app)))).
  { unfold recent_entries. fold cutoff. clear -Hs.
    apply Sorted_StronglySorted in Hs; [|intros x y z; lia].
    apply StronglySorted_Sorted.
    induction (_cache app) as [|[m t] cache IH]; [constructor|].
    simpl in Hs. apply StronglySorted_inv in Hs as [Hs Hall].
    simpl. destruct (cutoff <=? t)%Z; [|by apply IH].
    simpl. constructor; [by apply IH|].
    clear -Hall. induction cache as [|[m' t'] cache IHc]; [constructor|].
    simpl in Hall. apply Forall_cons in Hall as [Ht' Hall].
    simpl. destruct (cutoff <=? t')%Z; [|by apply IHc].
    simpl. constructor; [done | by apply IHc]. }
  apply Forall_app in Hall as [Hall1 Hall2].
  clear -Hrecent Hall1 Hall2.
  induction (recent_entries now (_cache app)) as [|[m t] cache IH].
  - simpl. unfold stamped in *. induction new as [|x new IHn]; [repeat constructor|].
    simpl. apply Forall_cons in Hall2 as [_ Hall2].
    constructor; [by apply IHn|]. destruct new; constructor; simpl; lia.
  - simpl in *. apply Sorted_inv in Hrecent as [Hrecent Hhd].
    apply Forall_cons in Hall1 as [Ht Hall1]. simpl in Ht.
    constructor; [by apply IH|].
    destruct cache as [|[m' t'] cache].
    + simpl. unfold stamped. destruct new; constructor; simpl; lia.
    + simpl. constructor. by apply HdRel_inv in Hhd.
Qed.

End rest_api_cache.

Section rest_api_endpoints.
Import rabbitmq rest_api.
Variable VALID_TOKENS : gset string.
Context `{!ApiRuntime}.

(** X25: [GET /features/realtime] makes its checks in order and always
    answers.  A request that fails authentication gets the status of
    [_authenticate] and leaves the application and the broker as they are:
    it is not counted by the rate limiter and takes nothing from the
    inboxes.  An authenticated request over the quota gets 429 and takes
    nothing from the inboxes.  Any other request gets 200 with the messages
    of the refreshed cache and their number, and leaves both inboxes
    empty. *)
Theorem realtime_checks_in_order (app : App) (b : InMemoryBroker) (req : Request)
    (now_limit now_cache : Z) :
  exists app' b' body status,
    realtime VALID_TOKENS app b req now_limit now_cache = Some (app', b', (body, status)) /\
    ((_authenticate VALID_TOKENS req).1 <> 200 ->
       app' = app /\ b' = b /\ status = (_authenticate VALID_TOKENS req).1 /\
       exists msg, body = Error msg) /\
    ((_authenticate VALID_TOKENS req).1 = 200 ->
     (_rate_limit_ok app req now_limit).2 = false ->
       status = 429 /\ body = Error "Rate limit exceeded" /\ b' = b /\
       _cache app' = _cache app) /\
    ((_authenticate VALID_TOKENS req).1 = 200 ->
     (_rate_limit_ok app req now_limit).2 = true ->
       status = 200 /\
       body = Features (map fst (_cache app')) (length (_cache app')) /\
       inbox b' (_inbox_a app) = [] /\ inbox b' (_inbox_b app) = [] /\
       _rate_tracker app' = _rate_tracker (_rate_limit_ok app req now_limit).1).
Proof.
  unfold realtime.
  destruct (_authenticate VALID_TOKENS req) as [status err]. cbn [fst].
  destruct (Nat.eqb status 200) eqn:Hst; cbn [negb].
  - apply Nat.eqb_eq in Hst as ->.
    assert (Hkeep : _cache (_rate_limit_ok app req now_limit).1 = _cache app /\
                    _inbox_a (_rate_limit_ok app req now_limit).1 = _inbox_a app /\
                    _inbox_b (_rate_limit_ok app req now_limit).1 = _inbox_b app).
    { unfold _rate_limit_ok. by destruct (RATE_LIMIT_MAX <=? _)%nat. }
    destruct Hkeep as (Hc & Ha & Hb).
    destruct (_rate_limit_ok app req now_limit) as [app1 admitted]. cbn [fst snd] in *.
    destruct admitted; cbn [negb].
    + destruct (refresh_cache_spec app1 b now_cache) as (b2 & Hrun & _ & _ & _ & Hea & Heb & _).
      rewrite Hrun. eexists _, b2, _, _. split; [reflexivity|].
      split; [done|]. split; [done|]. intros _ _.
      split; [done|]. split; [by rewrite length_map|].
      rewrite <- Ha, <- Hb. done.
    + eexists app1, b, _, _. split; [reflexivity|].
      split; [done|]. split; [|done]. by intros _ _.
  - apply Nat.eqb_neq in Hst.
    eexists app, b, _, _. split; [reflexivity|].
    split; [|split; [done | done]].
    intros _. split; [done|]. split; [done|]. split; [done|]. by eexists.
Qed.

Lemma in_window_comparable (start_dt end_dt : datetime) (records : list message) :
  aware start_dt = aware end_dt ->
  comparable_store (aware start_dt) records ->
  in_window start_dt end_dt records = Ok (List.filter (between start_dt end_dt) records).
Proof.
  intros Haw Hstore. induction Hstore as [|r records [Hstr Hts] _ IH]; [done|].
  cbn [in_window List.filter]. rewrite IH. unfold between, record_time.
  destruct (r !! "timestamp") as [v|] eqn:Hv; [|done].
  destruct (Hstr v eq_refl) as [s ->].
  assert (Hts' : forall ts, fromisoformat (replace_Z s) = Some ts -> aware ts = aware start_dt).
  { intros ts Hp. apply Hts. unfold record_time. by rewrite Hv. }
  destruct (fromisoformat (replace_Z s)) as [ts|]; [|done].
  specialize (Hts' ts eq_refl). unfold dt_le.
  rewrite <- Hts', Bool.eqb_reflx. rewrite <- Haw, <- Hts', Bool.eqb_reflx.
  cbn [mbind result_bind].
  destruct (micros start_dt <=? micros ts)%Z; cbn [mbind result_bind andb]; [|done].
  by destruct (micros ts <=? micros end_dt)%Z.
Qed.

(** X26: [GET /features/historical] answers an authenticated request within
    the quota, whose bounds parse with [start] before [end], with exactly
    the records of the store whose timestamp parses and lies between the
    bounds, both included, in store order, and with their number.  Records
    without a timestamp or with one that does not parse are left out. *)
Theorem historical_returns_window (app : App) (records : list message) (req : Request)
    (now : Z) (s e : string) (start_dt end_dt : datetime) :
  (_authenticate VALID_TOKENS req).1 = 200 ->
  (_rate_limit_ok app req now).2 = true ->
  data_writer.supplied (arg_start req) = Some s ->
  data_writer.supplied (arg_end req) = Some e ->
  fromisoformat (replace_Z s) = Some start_dt ->
  fromisoformat (replace_Z e) = Some end_dt ->
  aware start_dt = aware end_dt -> (micros start_dt < micros end_dt)%Z ->
  comparable_store (aware start_dt) records ->
  (historical VALID_TOKENS app (Some records) req now).2
  = Ok (Features (List.filter (between start_dt end_dt) records)
                 (length (List.filter (between start_dt end_dt) records)), 200).
Proof.
  intros Hauth Hok Hs He Hps Hpe Haw Hlt Hstore. unfold historical.
  destruct (_authenticate VALID_TOKENS req) as [status err]. cbn [fst] in Hauth. subst status.
  cbn [Nat.eqb negb].
  destruct (_rate_limit_ok app req now) as [app1 admitted]. cbn [snd] in Hok. subst admitted.
  cbn [negb]. rewrite Hs, He, Hps, Hpe. cbn [snd].
  unfold dt_ge, dt_le. rewrite <- Haw, Bool.eqb_reflx. cbn [mbind result_bind].
  assert (Hnot : (micros end_dt <=? micros start_dt)%Z = false) by (apply Z.leb_gt; lia).
  rewrite Hnot. by rewrite (in_window_comparable _ _ _ Haw Hstore).
Qed.

(** X27: [GET /features/historical] refuses with 400 an authenticated
    request within the quota whose [start] or [end] is missing or empty,
    does not parse, or whose [start] is not before [end]; bounds of which
    one is aware and the other naive make the handler raise [TypeError].
    Without a store the answer to a good request is the empty list. *)
Theorem historical_rejects_bad_requests (app : App) (db : option (list message))
    (req : Request) (now : Z) :
  (_authenticate VALID_TOKENS req).1 = 200 ->
  (_rate_limit_ok app req now).2 = true ->
  (data_writer.supplied (arg_start req) = None \/ data_writer.supplied (arg_end req) = None ->
     (historical VALID_TOKENS app db req now).2
     = Ok (Error "'start' and 'end' query parameters are required", 400)) /\
  (forall s e,
     data_writer.supplied (arg_start req) = Some s ->
     data_writer.supplied (arg_end req) = Some e ->
     (fromisoformat (replace_Z s) = None \/ fromisoformat (replace_Z e) = None ->
        (historical VALID_TOKENS app db req now).2
        = Ok (Error "Invalid timestamp format; use ISO-8601", 400)) /\
     (forall start_dt end_dt,
        fromisoformat (replace_Z s) = Some start_dt ->
        fromisoformat (replace_Z e) = Some end_dt ->
        (aware start_dt = aware end_dt -> (micros end_dt <= micros start_dt)%Z ->
           (historical VALID_TOKENS app db req now).2
           = Ok (Error "'start' must be earlier than 'end'", 400)) /\
        (aware start_dt <> aware end_dt ->
           (historical VALID_TOKENS app db req now).2 = Raise TypeError) /\
        (aware start_dt = aware end_dt -> (micros start_dt < micros end_dt)%Z -> db = None ->
           (historical VALID_TOKENS app db req now).2 = Ok (Features [] 0, 200)))).
Proof.
  intros Hauth Hok. unfold historical.
  destruct (_authenticate VALID_TOKENS req) as [status err]. cbn [fst] in Hauth. subst status.
  cbn [Nat.eqb negb].
  destruct (_rate_limit_ok app req now) as [app1 admitted]. cbn [snd] in Hok. subst admitted.
  cbn [negb]. split.
  - intros [Hn | Hn]; rewrite Hn; [done|].
    by destruct (data_writer.supplied (arg_start req)).
  - intros s e Hs He. rewrite Hs, He. split.
    + intros [Hn | Hn]; rewrite Hn; [done|].
      by destruct (fromisoformat (replace_Z s)).
    + intros start_dt end_dt Hps Hpe. rewrite Hps, Hpe. cbn [snd].
      unfold dt_ge, dt_le. split; [|split].
      * intros Haw Hle. rewrite <- Haw, Bool.eqb_reflx. cbn [mbind result_bind].
        assert (Hge : (micros end_dt <=? micros start_dt)%Z = true) by by apply Z.leb_le.
        by rewrite Hge.
      * intros Haw. destruct (Bool.eqb (aware end_dt) (aware start_dt)) eqn:Heq; [|done].
        apply Bool.eqb_prop in Heq. congruence.
      * intros Haw Hlt ->. rewrite <- Haw, Bool.eqb_reflx. cbn [mbind result_bind].
        assert (Hnot : (micros end_dt <=? micros start_dt)%Z = false) by (apply Z.leb_gt; lia).
        by rewrite Hnot.
Qed.

(** X28: [GET /features/historical] does not survive every store.  The
    first record whose timestamp is no string makes the handler raise
    [AttributeError], and the first whose timestamp is aware where the
    bounds are naive (or the reverse) makes it raise [TypeError]; neither
    is among the exceptions the loop catches. *)
Theorem historical_fails_on_unreadable_record (start_dt end_dt : datetime)
    (good rest : list message) (bad : message) :
  aware start_dt = aware end_dt ->
  comparable_store (aware start_dt) good ->
  ((exists v, bad !! "timestamp" = Some v /\ forall s, v <> VStr s) ->
     in_window start_dt end_dt (good ++ bad :: rest) = Raise AttributeError) /\
  ((exists ts, record_time bad = Some ts /\ aware ts <> aware start_dt) ->
     in_window start_dt end_dt (good ++ bad :: rest) = Raise TypeError).
Proof.
  intros Haw Hgood.
  assert (Hprefix : forall e,
            (match bad !! "timestamp" with
             | None => Ok false
             | Some (VStr s) =>
                 match fromisoformat (replace_Z s) with
                 | None => Ok false
                 | Some ts =>
                     lower ← dt_le start_dt ts;
                     if lower : bool then dt_le ts end_dt else Ok false
                 end
             | Some _ => Raise AttributeError
             end) = Raise e ->
            in_window start_dt end_dt (good ++ bad :: rest) = Raise e).
  { intros e Hbad. induction Hgood as [|r good [Hstr Hts] Hgood IH].
    - simpl. by rewrite Hbad.
    - pose proof (in_window_comparable start_dt end_dt [r] Haw
                    ltac:(by repeat constructor)) as Hr.
      cbn [in_window app] in *. rewrite IH. cbn [mbind result_bind] in *.
      destruct (match r !! "timestamp" with None => _ | Some _ => _ end); [done|].
      cbn [mbind result_bind] in Hr. done. }
  split.
  - intros (v & Hv & Hnot). apply Hprefix. rewrite Hv.
    destruct v; try done. by destruct (Hnot s).
  - intros (ts & Hts & Hne). apply Hprefix. unfold record_time in Hts.
    destruct (bad !! "timestamp") as [[| | | |s| |]|]; try done.
    rewrite Hts. unfold dt_le.
    destruct (Bool.eqb (aware start_dt) (aware ts)) eqn:Heq; [|done].
    apply Bool.eqb_prop in Heq. congruence.
Qed.

End rest_api_endpoints.

Lemma rate_limit_holds_in_every_window_witness :
  let calls := [(sample_request None None, 0%Z); (sample_request None None, 5%Z)] in
  (length (within_window 5 (admitted_times "127.0.0.1" calls (limit_all sample_app calls).2))
   <= rest_api.RATE_LIMIT_MAX)%nat.
Proof.
  intros calls.
  apply (rate_limit_holds_in_every_window sample_app calls "127.0.0.1" 5).
  - reflexivity.
  - repeat constructor. simpl. lia.
Defined.

Lemma rate_limit_admits_under_quota_witness :
  let calls := replicate 100 (sample_request None None, 0%Z) in
  (rest_api._rate_limit_ok (limit_all sample_app calls).1 (sample_request None None) 0).2 = false.
Proof.
  intros calls.
  rewrite (rate_limit_admits_under_quota sample_app calls (sample_request None None) 0).
  - vm_compute. reflexivity.
  - reflexivity.
  - unfold nondecreasing, calls. simpl. repeat (constructor; [|constructor; lia]). constructor.
Defined.

Lemma refresh_cache_keeps_recent_entries_witness :
  let b := rabbitmq.publish_fanout (rest_api.create_app rabbitmq.new_broker).1
             rabbitmq.FEATURES_A (sample_record "a-1" "s1" "t1") in
  exists app' b',
    rest_api._drain_and_refresh_cache sample_app b 1000 = Some (app', b') /\
    rest_api._cache app' = [(sample_record "a-1" "s1" "t1", 1000%Z)].
Proof.
  intros b.
  destruct (refresh_cache_keeps_recent_entries sample_app b 1000) as (app' & b' & Hrun & Hc & _).
  - vm_compute. discriminate.
  - repeat constructor.
  - exists app', b'. split; [exact Hrun|]. rewrite Hc. vm_compute. reflexivity.
Defined.

Lemma historical_returns_window_witness :
  let records := [sample_record "m-1" "s1" "2024-01-15T10:00:00+00:00";
                  sample_record "m-2" "s1" "2024-01-16T10:00:00Z";
                  {[ "message_id" := VStr "m-3" ]};
                  sample_record "m-4" "s1" "yesterday"] in
  (@rest_api.historical DEFAULT_TOKENS sample_api_runtime sample_app (Some records)
     (sample_request (Some "2024-01-15T00:00:00Z") (Some "2024-01-15T23:59:59Z")) 0).2
  = Ok (rest_api.Features [sample_record "m-1" "s1" "2024-01-15T10:00:00+00:00"] 1, 200).
Proof.
  intros records.
  assert (Hs : exists sd, @rest_api.fromisoformat sample_api_runtime
                            (replace_Z "2024-01-15T00:00:00Z") = Some sd /\
                          rest_api.aware sd = true)
    by (vm_compute; eexists; split; reflexivity).
  assert (He : exists ed, @rest_api.fromisoformat sample_api_runtime
                            (replace_Z "2024-01-15T23:59:59Z") = Some ed /\
                          rest_api.aware ed = true)
    by (vm_compute; eexists; split; reflexivity).
  destruct Hs as (sd & Hsd & Hasd). destruct He as (ed & Hed & Haed).
  rewrite (@historical_returns_window DEFAULT_TOKENS sample_api_runtime sample_app records
             (sample_request (Some "2024-01-15T00:00:00Z") (Some "2024-01-15T23:59:59Z")) 0
             "2024-01-15T00:00:00Z" "2024-01-15T23:59:59Z" sd ed).
  - vm_compute in Hsd, Hed. injection Hsd as <-. injection Hed as <-.
    vm_compute. reflexivity.
  - vm_compute. reflexivity.
  - vm_compute. reflexivity.
  - reflexivity.
  - reflexivity.
  - exact Hsd.
  - exact Hed.
  - by rewrite Hasd, Haed.
  - vm_compute in Hsd, Hed. injection Hsd as <-. injection Hed as <-. simpl. lia.
  - rewrite Hasd. repeat constructor;
      try (intros v Hv; vm_compute in Hv; first [discriminate | injection Hv as <-; by eexists]);
      intros ts Hts; vm_compute in Hts; first [discriminate | by injection Hts as <-].
Defined.

Lemma historical_rejects_bad_requests_witness :
  (@rest_api.historical DEFAULT_TOKENS sample_api_runtime sample_app (Some [])
     (sample_request (Some "2024-01-15T00:00:00Z") (Some "")) 0).2
  = Ok (rest_api.Error "'start' and 'end' query parameters are required", 400).
Proof.
  refine (proj1 (@historical_rejects_bad_requests DEFAULT_TOKENS sample_api_runtime sample_app
                   (Some []) (sample_request (Some "2024-01-15T00:00:00Z") (Some "")) 0 _ _) _).
  - vm_compute. reflexivity.
  - vm_compute. reflexivity.
  - right. reflexivity.
Defined.

Lemma historical_fails_on_unreadable_record_witness :
  @rest_api.in_window sample_api_runtime
    {| rest_api.aware := true; rest_api.micros := 0 |}
    {| rest_api.aware := true; rest_api.micros := 1 |}
    [sample_record "m-1" "s1" "2024-01-15T10:00:00+00:00";
     sample_record "m-2" "s1" "2024-01-15T10:00:00"]
  = Raise TypeError.
Proof.
  refine (proj2 (@historical_fails_on_unreadable_record sample_api_runtime
                   {| rest_api.aware := true; rest_api.micros := 0 |}
                   {| rest_api.aware := true; rest_api.micros := 1 |}
                   [sample_record "m-1" "s1" "2024-01-15T10:00:00+00:00"] []
                   (sample_record "m-2" "s1" "2024-01-15T10:00:00")
                   eq_refl _) _).
  - repeat constructor.
    + intros v Hv. vm_compute in Hv. injection Hv as <-. by eexists.
    + intros ts Hts. vm_compute in Hts. by injection Hts as <-.
  - eexists. split; [vm_compute; reflexivity | discriminate].
Defined.

(** ** The wired pipeline *)

Section pipeline.
Context {rt : PyRuntime} {srt : sensor.SensorRuntime}.
Import rabbitmq run_mock_server.

(** The wiring [build_pipeline] leaves behind. *)
Lemma build_pipeline_wiring :
  state build_pipeline
    = {| broker := (run new_broker [SubscribeFanout FEATURES_A; SubscribeFanout FEATURES_A;
                                    SubscribeFanout FEATURES_B; SubscribeFanout FEATURES_A;
                                    SubscribeFanout FEATURES_B]).1;
         writer := {| data_writer._inbox_a := 1; data_writer._inbox_b := 2;
                      data_writer.db := [] |};
         draws := 0 |} /\
  sensor build_pipeline = {| sensor.sensor_id := "load-test-sensor" |} /\
  algo_a build_pipeline = algorithm_a.new_algorithm /\
  algo_b build_pipeline = {| algorithm_b._inbox := 0; algorithm_b.processed_count := 0 |} /\
  app build_pipeline = {| rest_api._inbox_a := 3; rest_api._inbox_b := 4;
                          rest_api._cache := []; rest_api._rate_tracker := ∅ |}.
Proof. repeat split; reflexivity. Qed.

(** One audio message through a fresh pipeline: the sensor publishes,
    each stage processes one message, the writer flushes. *)
Lemma pipeline_first_message (a t : string) (raw : list Z) :
  a <> "" -> t <> "" ->
  b64decode (a +:+ "==") = Ok raw -> fromisoformat_ok (replace_Z t) = true ->
  f_is_finite (class_product (seed_of raw)) = true ->
  uuid4 1 <> uuid4 2 ->
  exists derived st2 st3 b4 w4,
    algorithm_b._derive_features (first_feature_a t raw) = Ok derived /\
    algorithm_a.process_one (algo_a build_pipeline)
      (sensor.publish_audio (sensor build_pipeline) (state build_pipeline) (Some a) (Some t)).1
      = ({| algorithm_a.processed_count := 1 |}, st2, Ok (Some (first_feature_a t raw))) /\
    algorithm_b.process_one (algo_b build_pipeline) st2
      = ({| algorithm_b._inbox := 0; algorithm_b.processed_count := 1 |}, st3,
         Ok (Some (first_feature_b t derived))) /\
    data_writer.flush (broker st3) (writer st3) = Some (b4, w4, Ok 2) /\
    w4 = {| data_writer._inbox_a := 1; data_writer._inbox_b := 2;
            data_writer.db := [first_feature_a t raw; first_feature_b t derived] |} /\
    pending b4 AUDIO_STREAM = [] /\
    inbox b4 3 = [first_feature_a t raw] /\ inbox b4 4 = [first_feature_b t derived] /\
    inbox b4 0 = [] /\ inbox b4 1 = [] /\ inbox b4 2 = [].
Proof.
  intros Ha Ht Hraw Hts Hfin Hids.
  destruct build_pipeline_wiring as (Hst0 & Hsensor & Halgo_a & Halgo_b & _).
  rewrite Hst0, Hsensor, Halgo_a, Halgo_b.
  set (st0 := {| broker := _; writer := _; draws := 0 |}).
  set (self := {| sensor.sensor_id := "load-test-sensor" |}).
  assert (Hwf0 : wf_broker (broker st0)) by apply wf_run, wf_new_broker.
  assert (HsA : subscribers (broker st0) FEATURES_A = [0; 1; 3]) by reflexivity.
  assert (HsB : subscribers (broker st0) FEATURES_B = [2; 4]) by reflexivity.
  assert (Hin0 : forall r, inbox (broker st0) r = []).
  { intros r. unfold inbox, contents. simpl.
    do 5 (destruct r as [|r]; [reflexivity|]). reflexivity. }
  assert (Hp0 : pending (broker st0) AUDIO_STREAM = []) by reflexivity.
  (* the sensor publishes *)
  destruct (publish_audio_accepted self st0 a t raw Ha Ht Hraw Hts) as [Hst1 Hproc].
  set (st1 := (sensor.publish_audio self st0 (Some a) (Some t)).1) in *.
  set (msg := (sensor.publish_audio self st0 (Some a) (Some t)).2) in *.
  assert (Hwf1 : wf_broker (broker st1)) by (rewrite Hst1; by apply wf_publish_work).
  assert (Hp1 : pending (broker st1) AUDIO_STREAM = [msg]).
  { rewrite Hst1. cbn [broker]. rewrite pending_publish_work by done.
    by rewrite decide_True, Hp0. }
  assert (Hsub1 : forall t', subscribers (broker st1) t' = subscribers (broker st0) t')
    by (intros t'; rewrite Hst1; apply subscribers_publish_work).
  assert (Hin1 : forall t' r, r ∈ subscribers (broker st0) t' -> inbox (broker st1) r = [])
    by (intros t' r Hr; rewrite Hst1; cbn [broker];
        rewrite (inbox_publish_work _ _ t') by done; apply Hin0).
  (* Stage A processes it *)
  destruct (process_one_a_step algorithm_a.new_algorithm st1 msg [] Hwf1 Hp1)
    as (st2 & Hwf2 & Hp2 & _ & Hsub2 & Hw2 & Hcase).
  rewrite (Hproc st1) in Hcase. cbn [snd] in Hcase.
  destruct Hcase as (Hrun2 & Hd2 & Hin2).
  assert (Hd1 : draws st1 = 1) by (by rewrite Hst1).
  rewrite Hd1 in Hrun2, Hin2, Hd2.
  change (feature_record (VStr (uuid4 1)) (VStr (uuid4 (draws st0))) (VStr "A")
            (VStr (sensor.sensor_id self)) (VStr t) (VStr (utcnow_isoformat 1))
            (stage_a_features (seed_of raw)))
    with (first_feature_a t raw) in Hrun2, Hin2.
  set (ra := first_feature_a t raw) in *.
  assert (HinA : forall r, r ∈ subscribers (broker st0) FEATURES_A ->
                   inbox (broker st2) r = [ra]).
  { intros r Hr. rewrite <- Hsub1 in Hr. rewrite (Hin2 FEATURES_A r Hr).
    rewrite decide_True by done. rewrite Hsub1 in Hr. by rewrite (Hin1 FEATURES_A r Hr). }
  assert (HinB : forall r, r ∈ subscribers (broker st0) FEATURES_B ->
                   inbox (broker st2) r = []).
  { intros r Hr. rewrite <- Hsub1 in Hr. rewrite (Hin2 FEATURES_B r Hr).
    rewrite decide_False by done. rewrite Hsub1 in Hr. by rewrite (Hin1 FEATURES_B r Hr). }
  assert (Hsub02 : forall t', subscribers (broker st2) t' = subscribers (broker st0) t')
    by (intros t'; by rewrite Hsub2, Hsub1).
  assert (H0A : 0 ∈ subscribers (broker st0) FEATURES_A) by (rewrite HsA; repeat constructor).
  assert (H1A : 1 ∈ subscribers (broker st0) FEATURES_A) by (rewrite HsA; repeat constructor).
  assert (H3A : 3 ∈ subscribers (broker st0) FEATURES_A) by (rewrite HsA; repeat constructor).
  assert (H2B : 2 ∈ subscribers (broker st0) FEATURES_B) by (rewrite HsB; repeat constructor).
  assert (H4B : 4 ∈ subscribers (broker st0) FEATURES_B) by (rewrite HsB; repeat constructor).
  (* Stage B processes the Feature-A record *)
  destruct (derive_stage_a (VStr (uuid4 1)) (VStr (uuid4 0)) (VStr "load-test-sensor")
              (VStr t) (VStr (utcnow_isoformat 1)) (seed_of raw) Hfin) as [derived Hderived].
  fold (first_feature_a t raw) in Hderived. fold ra in Hderived.
  pose proof (process_b_accepts st2 _ _ _ _ _ _ derived Hderived) as HprocB.
  fold (first_feature_a t raw) in HprocB. fold ra in HprocB.
  rewrite Hd2 in HprocB.
  change (feature_record (VStr (uuid4 2)) (VStr (uuid4 1)) (VStr "B")
            (VStr "load-test-sensor") (VStr t) (VStr (utcnow_isoformat 2)) derived)
    with (first_feature_b t derived) in HprocB.
  set (rb := first_feature_b t derived) in *.
  destruct (process_one_b_step {| algorithm_b._inbox := 0; algorithm_b.processed_count := 0 |}
              st2 ra [] Hwf2)
    as (st3 & Hwf3 & Hq3 & Hp3 & Hsub3 & Hw3 & Hcase).
  { cbn [algorithm_b._inbox]. by rewrite Hsub02. }
  { cbn [algorithm_b._inbox]. by apply HinA. }
  rewrite HprocB in Hcase. cbn [snd algorithm_b._inbox algorithm_b.processed_count] in Hcase, Hq3.
  destruct Hcase as (Hrun3 & Hd3 & Hin3).
  assert (HinA3 : forall r, r ∈ subscribers (broker st0) FEATURES_A -> r <> 0 ->
                    inbox (broker st3) r = [ra]).
  { intros r Hr Hr0. rewrite (Hin3 FEATURES_A r).
    - rewrite decide_False by done. by apply HinA.
    - by rewrite Hsub02.
    - done. }
  assert (HinB3 : forall r, r ∈ subscribers (broker st0) FEATURES_B -> r <> 0 ->
                    inbox (broker st3) r = [rb]).
  { intros r Hr Hr0. rewrite (Hin3 FEATURES_B r).
    - rewrite decide_True by done. by rewrite (HinB r Hr).
    - by rewrite Hsub02.
    - done. }
  (* the writer flushes *)
  assert (Hw : writer st3 = {| data_writer._inbox_a := 1; data_writer._inbox_b := 2;
                               data_writer.db := [] |}).
  { rewrite Hw3, Hw2, Hst1. reflexivity. }
  assert (Hida : has_string_id ra) by (by eexists).
  assert (Hidb : has_string_id rb) by (by eexists).
  assert (Hi1 : inbox (broker st3) 1 = [ra]) by (by apply HinA3).
  assert (Hi2 : inbox (broker st3) 2 = [rb]) by (by apply HinB3).
  assert (Hi3 : inbox (broker st3) 3 = [ra]) by (by apply HinA3).
  assert (Hi4 : inbox (broker st3) 4 = [rb]) by (by apply HinB3).
  destruct (flush_spec (broker st3) (writer st3))
    as (b4 & w4 & Hrun4 & Hdb4 & Hia4 & Hib4 & Hwq4 & _ & _ & Hea & Heb & Hother).
  { rewrite Hw. constructor. }
  { rewrite Hw. cbn [data_writer._inbox_a]. rewrite Hi1. by constructor. }
  { rewrite Hw. cbn [data_writer._inbox_b]. rewrite Hi2. by constructor. }
  rewrite Hw in Hdb4, Hea, Heb, Hother, Hia4, Hib4.
  cbn [data_writer._inbox_a data_writer._inbox_b data_writer.db]
    in Hdb4, Hea, Heb, Hother, Hia4, Hib4.
  assert (Hnew : new_records (map id_string (data_writer.db (writer st3)))
                   (inbox (broker st3) (data_writer._inbox_a (writer st3)) ++
                    (if decide (data_writer._inbox_b (writer st3)
                                = data_writer._inbox_a (writer st3))
                     then [] else inbox (broker st3) (data_writer._inbox_b (writer st3))))
                 = [ra; rb]).
  { rewrite Hw. cbn [data_writer._inbox_a data_writer._inbox_b data_writer.db].
    rewrite Hi1, Hi2. rewrite decide_False by done.
    change (new_records (map id_string []) ([ra] ++ [rb]))
      with (if decide (id_string ra ∈ [])
            then new_records [] [rb]
            else ra :: (if decide (id_string rb ∈ [id_string ra]) then []
                        else [rb])).
    rewrite decide_False by (intros Hin; inversion Hin).
    rewrite decide_False; [done|].
    change (id_string rb) with (uuid4 2). change (id_string ra) with (uuid4 1).
    intros Hin. apply list_elem_of_singleton in Hin. congruence. }
  rewrite Hnew in Hrun4. rewrite Hi1, Hi2 in Hdb4. rewrite decide_False in Hdb4 by done.
  rewrite Hw in Hnew.
  cbn [data_writer._inbox_a data_writer._inbox_b data_writer.db] in Hnew.
  rewrite Hi1, Hi2 in Hnew. rewrite decide_False in Hnew by done.
  rewrite Hnew in Hdb4.
  exists derived, st2, st3, b4, w4.
  split; [exact Hderived|]. split; [exact Hrun2|]. split; [exact Hrun3|].
  split; [exact Hrun4|].
  split; [destruct w4; cbn in Hia4, Hib4, Hdb4; by subst|].
  split; [|split; [|split; [|split; [|split]]]].
  - unfold pending. rewrite Hwq4.
    destruct (_work_queues (broker st3) !! AUDIO_STREAM) as [r|] eqn:Hr; [|done].
    rewrite Hother.
    + pose proof (Hp3 AUDIO_STREAM) as Hp. rewrite Hp2 in Hp.
      unfold pending in Hp. by rewrite Hr in Hp.
    + intros ->. apply (work_not_subscriber (broker st3) AUDIO_STREAM FEATURES_A 1 Hwf3 Hr).
      by rewrite Hsub3, Hsub02.
    + intros ->. apply (work_not_subscriber (broker st3) AUDIO_STREAM FEATURES_B 2 Hwf3 Hr).
      by rewrite Hsub3, Hsub02.
  - rewrite Hother by done. exact Hi3.
  - rewrite Hother by done. exact Hi4.
  - rewrite Hother by done. exact Hq3.
  - exact Hea.
  - exact Heb.
Qed.

(** X29: one audio message through the pipeline [build_pipeline] wires.
    When the audio decodes, the timestamp parses, Stage B's product stays
    finite and the two fresh identifiers differ, the sensor's message is
    processed by Stage A and the record by Stage B, and one [flush] stores
    exactly the two records, Feature A first.  The Feature-B record names
    the Feature-A record as its source, which names the audio message;
    both carry the sensor's identifier and timestamp.  The audio queue and
    the writer's inboxes end up empty, and a query by feature type finds
    each record. *)
Theorem pipeline_stores_both_features (a t : string) (raw : list Z) :
  a <> "" -> t <> "" ->
  b64decode (a +:+ "==") = Ok raw -> fromisoformat_ok (replace_Z t) = true ->
  f_is_finite (class_product (seed_of raw)) = true ->
  uuid4 1 <> uuid4 2 ->
  exists ra rb st2 st3 b4 w4,
    algorithm_a.process_one (algo_a build_pipeline)
      (sensor.publish_audio (sensor build_pipeline) (state build_pipeline) (Some a) (Some t)).1
      = ({| algorithm_a.processed_count := 1 |}, st2, Ok (Some ra)) /\
    algorithm_b.process_one (algo_b build_pipeline) st2
      = ({| algorithm_b._inbox := algorithm_b._inbox (algo_b build_pipeline);
            algorithm_b.processed_count := 1 |}, st3, Ok (Some rb)) /\
    data_writer.flush (broker st3) (writer st3) = Some (b4, w4, Ok 2) /\
    data_writer.db w4 = [ra; rb] /\
    ra !! "feature_type" = Some (VStr "A") /\ rb !! "feature_type" = Some (VStr "B") /\
    ra !! "source_message_id" = Some (VStr (uuid4 0)) /\
    rb !! "source_message_id" = ra !! "message_id" /\
    ra !! "sensor_id" = Some (VStr "load-test-sensor") /\
    rb !! "sensor_id" = Some (VStr "load-test-sensor") /\
    ra !! "timestamp" = Some (VStr t) /\ rb !! "timestamp" = Some (VStr t) /\
    work_queue_depth b4 AUDIO_STREAM = 0 /\
    inbox b4 (data_writer._inbox_a w4) = [] /\ inbox b4 (data_writer._inbox_b w4) = [] /\
    data_writer.query w4 (Some "A") None None None = Ok [ra] /\
    data_writer.query w4 (Some "B") None None None = Ok [rb].
Proof.
  intros Ha Ht Hraw Hts Hfin Hids.
  destruct (pipeline_first_message a t raw Ha Ht Hraw Hts Hfin Hids)
    as (derived & st2 & st3 & b4 & w4 & _ & Hrun2 & Hrun3 & Hrun4 & Hw4 & Hp & _ & _ & _ & H1 & H2).
  exists (first_feature_a t raw), (first_feature_b t derived), st2, st3, b4, w4.
  split; [exact Hrun2|]. split; [exact Hrun3|]. split; [exact Hrun4|].
  split; [by rewrite Hw4|].
  do 8 (split; [reflexivity|]).
  split; [by rewrite work_queue_depth_pending, Hp|].
  split; [by rewrite Hw4|]. split; [by rewrite Hw4|].
  assert (Hts_str : timestamps_are_strings (data_writer.db w4)).
  { rewrite Hw4. repeat constructor; intros v Hv; injection Hv as <-; by eexists. }
  split.
  - rewrite (query_filters w4 (Some "A") None None None Hts_str). by rewrite Hw4.
  - rewrite (query_filters w4 (Some "B") None None None Hts_str). by rewrite Hw4.
Qed.

End pipeline.

Section pipeline_rest.
Context {rt : PyRuntime} {srt : sensor.SensorRuntime} {art : rest_api.ApiRuntime}.
Variable VALID_TOKENS : gset string.
Import rabbitmq run_mock_server.

(** X30: what the pipeline produced is what the REST API serves.  After one
    audio message went through a fresh pipeline and the writer flushed, an
    authenticated request to [/features/realtime] is answered with the
    Feature-A and the Feature-B record (the application's own copies, taken
    from its inboxes), and an authenticated request to
    [/features/historical] whose window holds the message's timestamp is
    answered with the same two records, read from the writer's store. *)
Theorem rest_api_serves_pipeline_output (a t : string) (raw : list Z) (req : rest_api.Request)
    (now_limit now_cache : Z) (s e : string) (start_dt end_dt ts : rest_api.datetime) :
  a <> "" -> t <> "" ->
  b64decode (a +:+ "==") = Ok raw -> fromisoformat_ok (replace_Z t) = true ->
  f_is_finite (class_product (seed_of raw)) = true ->
  uuid4 1 <> uuid4 2 ->
  (rest_api._authenticate VALID_TOKENS req).1 = 200 ->
  data_writer.supplied (rest_api.arg_start req) = Some s ->
  data_writer.supplied (rest_api.arg_end req) = Some e ->
  rest_api.fromisoformat (replace_Z s) = Some start_dt ->
  rest_api.fromisoformat (replace_Z e) = Some end_dt ->
  rest_api.fromisoformat (replace_Z t) = Some ts ->
  rest_api.aware start_dt = rest_api.aware end_dt ->
  rest_api.aware ts = rest_api.aware start_dt ->
  (rest_api.micros start_dt < rest_api.micros end_dt)%Z ->
  (rest_api.micros start_dt <= rest_api.micros ts <= rest_api.micros end_dt)%Z ->
  exists ra rb st2 st3 b4 w4 app5 b5,
    algorithm_a.process_one (algo_a build_pipeline)
      (sensor.publish_audio (sensor build_pipeline) (state build_pipeline) (Some a) (Some t)).1
      = ({| algorithm_a.processed_count := 1 |}, st2, Ok (Some ra)) /\
    algorithm_b.process_one (algo_b build_pipeline) st2
      = ({| algorithm_b._inbox := algorithm_b._inbox (algo_b build_pipeline);
            algorithm_b.processed_count := 1 |}, st3, Ok (Some rb)) /\
    data_writer.flush (broker st3) (writer st3) = Some (b4, w4, Ok 2) /\
    rest_api.realtime VALID_TOKENS (app build_pipeline) b4 req now_limit now_cache
      = Some (app5, b5, (rest_api.Features [ra; rb] 2, 200)) /\
    inbox b5 (rest_api._inbox_a (app build_pipeline)) = [] /\
    inbox b5 (rest_api._inbox_b (app build_pipeline)) = [] /\
    (rest_api.historical VALID_TOKENS (app build_pipeline) (Some (data_writer.db w4))
       req now_limit).2
      = Ok (rest_api.Features [ra; rb] 2, 200).
Proof.
  intros Ha Ht Hraw Hts Hfin Hids Hauth Hs He Hps Hpe Hpt Haw Hawt Hlt Hin.
  destruct (pipeline_first_message a t raw Ha Ht Hraw Hts Hfin Hids)
    as (derived & st2 & st3 & b4 & w4 & _ & Hrun2 & Hrun3 & Hrun4 & Hw4 & _ & Hi3 & Hi4 & _).
  set (ra := first_feature_a t raw) in *. set (rb := first_feature_b t derived) in *.
  destruct build_pipeline_wiring as (_ & _ & _ & _ & Happ). rewrite Happ.
  set (app0 := {| rest_api._inbox_a := 3; rest_api._inbox_b := 4;
                  rest_api._cache := []; rest_api._rate_tracker := ∅ |}).
  assert (Hlimit : (rest_api._rate_limit_ok app0 req now_limit).2 = true) by reflexivity.
  assert (Hkeep : rest_api._cache (rest_api._rate_limit_ok app0 req now_limit).1 = [] /\
                  rest_api._inbox_a (rest_api._rate_limit_ok app0 req now_limit).1 = 3 /\
                  rest_api._inbox_b (rest_api._rate_limit_ok app0 req now_limit).1 = 4)
    by (by repeat split).
  destruct Hkeep as (Hc1 & Ha1 & Hb1).
  destruct (refresh_cache_spec (rest_api._rate_limit_ok app0 req now_limit).1 b4 now_cache)
    as (b5 & Hrefresh & _ & _ & _ & Hea & Heb & _).
  rewrite Hc1, Ha1, Hb1 in Hrefresh. rewrite Ha1 in Hea. rewrite Hb1 in Heb.
  rewrite Hi3, Hi4 in Hrefresh. rewrite decide_False in Hrefresh by done.
  assert (Hevict : rest_api.evict (now_cache - rest_api.timedelta_minutes rest_api.CACHE_MINUTES)
                     ([] ++ stamped now_cache ([ra] ++ [rb]))
                   = [(ra, now_cache); (rb, now_cache)]).
  { assert (Hfresh : (now_cache
                      <? now_cache - rest_api.timedelta_minutes rest_api.CACHE_MINUTES)%Z = false).
    { assert (0 < rest_api.timedelta_minutes rest_api.CACHE_MINUTES)%Z by reflexivity.
      apply Z.ltb_ge. lia. }
    cbn [List.app stamped map rest_api.evict]. by rewrite Hfresh. }
  rewrite Hevict in Hrefresh.
  exists ra, rb, st2, st3, b4, w4,
    {| rest_api._inbox_a := 3; rest_api._inbox_b := 4;
       rest_api._cache := [(ra, now_cache); (rb, now_cache)];
       rest_api._rate_tracker :=
         rest_api._rate_tracker (rest_api._rate_limit_ok app0 req now_limit).1 |}, b5.
  split; [exact Hrun2|]. split; [exact Hrun3|]. split; [exact Hrun4|].
  split; [|split; [exact Hea|split; [exact Heb|]]].
  - unfold rest_api.realtime.
    destruct (rest_api._authenticate VALID_TOKENS req) as [status err].
    cbn [fst] in Hauth. subst status. cbn [Nat.eqb negb].
    destruct (rest_api._rate_limit_ok app0 req now_limit) as [app1 admitted].
    cbn [fst snd] in *. subst admitted. cbn [negb].
    rewrite Hrefresh. reflexivity.
  - unfold rest_api.historical.
    destruct (rest_api._authenticate VALID_TOKENS req) as [status err].
    cbn [fst] in Hauth. subst status. cbn [Nat.eqb negb].
    destruct (rest_api._rate_limit_ok app0 req now_limit) as [app1 admitted].
    cbn [fst snd] in *. subst admitted. cbn [negb].
    rewrite Hs, He, Hps, Hpe. cbn [snd].
    unfold rest_api.dt_ge, rest_api.dt_le. rewrite <- Haw, Bool.eqb_reflx.
    cbn [mbind result_bind].
    assert (Hnot : (rest_api.micros end_dt <=? rest_api.micros start_dt)%Z = false)
      by (apply Z.leb_gt; lia).
    rewrite Hnot.
    assert (Hstore : comparable_store (rest_api.aware start_dt) (data_writer.db w4)).
    { rewrite Hw4. cbn [data_writer.db].
      assert (Hra : record_time ra = Some ts) by exact Hpt.
      assert (Hrb : record_time rb = Some ts) by exact Hpt.
      repeat constructor.
      - intros v Hv. injection Hv as <-. by eexists.
      - intros ts' Hts'. rewrite Hra in Hts'. by injection Hts' as <-.
      - intros v Hv. injection Hv as <-. by eexists.
      - intros ts' Hts'. rewrite Hrb in Hts'. by injection Hts' as <-. }
    rewrite (in_window_comparable _ _ _ Haw Hstore). rewrite Hw4. cbn [data_writer.db].
    assert (Hba : between start_dt end_dt ra = true).
    { unfold between. change (record_time ra) with (rest_api.fromisoformat (replace_Z t)).
      rewrite Hpt. apply andb_true_intro. split; apply Z.leb_le; lia. }
    assert (Hbb : between start_dt end_dt rb = true).
    { unfold between. change (record_time rb) with (rest_api.fromisoformat (replace_Z t)).
      rewrite Hpt. apply andb_true_intro. split; apply Z.leb_le; lia. }
    cbn [List.filter]. rewrite Hba, Hbb. reflexivity.
Qed.

End pipeline_rest.

Lemma sample_pipeline_message :
  "dGVzdGF1ZGlvZGF0YQ==" <> "" /\ "2024-01-15T10:00:00+00:00" <> "" /\
  @b64decode sample_runtime ("dGVzdGF1ZGlvZGF0YQ==" +:+ "==")
    = Ok [116; 101; 115; 116; 97; 117; 100; 105; 111; 100; 97; 116; 97]%Z /\
  @fromisoformat_ok sample_runtime (replace_Z "2024-01-15T10:00:00+00:00") = true /\
  f_is_finite (@class_product sample_runtime
                 (seed_of [116; 101; 115; 116; 97; 117; 100; 105; 111; 100; 97; 116; 97]%Z))
    = true /\
  @uuid4 sample_runtime 1 <> @uuid4 sample_runtime 2.
Proof.
  split; [discriminate|]. split; [discriminate|].
  split; [vm_compute; reflexivity|]. split; [vm_compute; reflexivity|].
  split; [vm_compute; reflexivity|]. vm_compute. discriminate.
Qed.

Lemma pipeline_stores_both_features_witness :
  exists ra rb st2 st3 b4 w4,
    @algorithm_b.process_one sample_runtime
      (run_mock_server.algo_b (@run_mock_server.build_pipeline sample_sensor_runtime)) st2
      = ({| algorithm_b._inbox := 0; algorithm_b.processed_count := 1 |}, st3, Ok (Some rb)) /\
    data_writer.flush (broker st3) (writer st3) = Some (b4, w4, Ok 2) /\
    data_writer.db w4 = [ra; rb] /\
    rb !! "source_message_id" = ra !! "message_id".
Proof.
  destruct sample_pipeline_message as (H1 & H2 & H3 & H4 & H5 & H6).
  destruct (@pipeline_stores_both_features sample_runtime sample_sensor_runtime
              "dGVzdGF1ZGlvZGF0YQ==" "2024-01-15T10:00:00+00:00"
              [116; 101; 115; 116; 97; 117; 100; 105; 111; 100; 97; 116; 97]%Z
              H1 H2 H3 H4 H5 H6)
    as (ra & rb & st2 & st3 & b4 & w4 & _ & Hb & Hf & Hdb & _ & _ & _ & Hsrc & _).
  exists ra, rb, st2, st3, b4, w4.
  split; [exact Hb|]. split; [exact Hf|]. split; [exact Hdb | exact Hsrc].
Defined.

Lemma rest_api_serves_pipeline_output_witness :
  exists ra rb b4 w4 app5 b5,
    rest_api.realtime DEFAULT_TOKENS
      (run_mock_server.app (@run_mock_server.build_pipeline sample_sensor_runtime)) b4
      (sample_request (Some "2024-01-15T00:00:00Z") (Some "2024-01-15T23:59:59Z")) 0 0
      = Some (app5, b5, (rest_api.Features [ra; rb] 2, 200)) /\
    (@rest_api.historical DEFAULT_TOKENS sample_api_runtime
       (run_mock_server.app (@run_mock_server.build_pipeline sample_sensor_runtime))
       (Some (data_writer.db w4))
       (sample_request (Some "2024-01-15T00:00:00Z") (Some "2024-01-15T23:59:59Z")) 0).2
      = Ok (rest_api.Features [ra; rb] 2, 200).
Proof.
  destruct sample_pipeline_message as (H1 & H2 & H3 & H4 & H5 & H6).
  assert (Hw : exists sd ed ts,
             @rest_api.fromisoformat sample_api_runtime (replace_Z "2024-01-15T00:00:00Z")
               = Some sd /\
             @rest_api.fromisoformat sample_api_runtime (replace_Z "2024-01-15T23:59:59Z")
               = Some ed /\
             @rest_api.fromisoformat sample_api_runtime (replace_Z "2024-01-15T10:00:00+00:00")
               = Some ts /\
             rest_api.aware sd = rest_api.aware ed /\
             rest_api.aware ts = rest_api.aware sd /\
             (rest_api.micros sd ?= rest_api.micros ed)%Z = Lt /\
             (rest_api.micros sd ?= rest_api.micros ts)%Z = Lt /\
             (rest_api.micros ts ?= rest_api.micros ed)%Z = Lt).
  { do 3 eexists. split; [vm_compute; reflexivity|]. split; [vm_compute; reflexivity|].
    split; [vm_compute; reflexivity|]. repeat split. }
  destruct Hw as (sd & ed & ts & Hsd & Hed & Hts & Hase & Hats & Hse & Hst & Hte).
  destruct (@rest_api_serves_pipeline_output sample_runtime sample_sensor_runtime
              sample_api_runtime DEFAULT_TOKENS
              "dGVzdGF1ZGlvZGF0YQ==" "2024-01-15T10:00:00+00:00"
              [116; 101; 115; 116; 97; 117; 100; 105; 111; 100; 97; 116; 97]%Z
              (sample_request (Some "2024-01-15T00:00:00Z") (Some "2024-01-15T23:59:59Z"))
              0 0 "2024-01-15T00:00:00Z" "2024-01-15T23:59:59Z" sd ed ts
              H1 H2 H3 H4 H5 H6)
    as (ra & rb & st2 & st3 & b4 & w4 & app5 & b5 & _ & _ & _ & Hreal & _ & _ & Hhist).
  - vm_compute. reflexivity.
  - reflexivity.
  - reflexivity.
  - exact Hsd.
  - exact Hed.
  - exact Hts.
  - exact Hase.
  - exact Hats.
  - exact Hse.
  - split; apply Z.lt_le_incl; assumption.
  - exists ra, rb, b4, w4, app5, b5. split; [exact Hreal | exact Hhist].
Defined.
